(* ===== verification/_CoqProject ===== *)
-Q . S2P
Prelude.v
Integers.v
Domain.v
Fsm.v
FsmTable.v
Yaml.v
Config.v
Machine.v
Runtime.v
Loader.v
Logging.v
WellFormed.v
Integrity.v
Graph.v
Queries.v
Similar.v
Refinement.v
Builder.v
Store.v
Client.v
Goroutines.v
Concrete.v
Legacy.v
Scenarios.v
