(* ===== verification/Prelude.v ===== *)
(** * Verification of the chatbot state machine, [src/chatbot/statemachine/fsm.go]

    ** The program

    [fsm.go] is the whole engine of a conversational state machine. It
    has three parts.

    - The loader. [ChatBotFSM] reads a configuration file and hands its
      bytes to [yamlToFSM], which decodes three YAML documents in a fixed
      order (transition rules, states, events), converts the rules with
      [eventDescYamlToEventDesc], fills a table of states and a table of
      events keyed by name, and starts a machine of the library
      [github.com/looplab/fsm] in the state named "Initial".
    - The runtime object. [FSMWithStatesAndEvents] holds the library's
      machine and the two tables. Its field [FSM] is exported: callers
      fire an event by calling the library's [Event] on it.
    - The queries. [Current] returns the record of the current state and
      [AvailableTransitions] the records of the events that can fire now,
      both by indexing a table with names the library reports.

    Decoding is done by [gopkg.in/yaml.v3], errors are wrapped by
    [github.com/pkg/errors] and the loader logs through
    [github.com/golang/glog]; the records [State] and [Event] and their
    constructors live in sibling files of the package. None of these is
    in the repository's [src/], so each is modelled from the
    specification and kept behind an interface.

    The rest of [yamlToFSM] in the source is a comment: the return
    statement of an earlier version, in which the rules of the chatbot
    were written out in the code.

    ** The files

    - [Prelude] (this file): Go values. [error] with [New], [Wrapf],
      [Cause] and [error_text], the text an error prints; [result], the
      pair of a value and an error that every fallible function returns,
      as a monad with the notation [x ← c; k]; [wrap_err] for the
      pattern "if err != nil, return the wrapped error"; [Zero], the
      zero value of a type, and [go_index],
      Go's map indexing that returns the zero value for a missing key;
      [insert_all] and [last_with], a loop of map assignments and the
      entry such a loop leaves under a key; the tactic [case_result] and
      the hint database [go].
    - [Integers]: [go.int], Go's [int] at 64 bits, an integer with the
      proof that it is in range.
    - [Domain]: the records [State] and [Event] with [NewState] and
      [NewEvent].
    - [Fsm]: the library as the class [fsm.Library]: the operations
      [NewFSM], [Current], [AvailableTransitions], [Event] with the laws
      the program relies on, stated through [fsm.delta], the transition
      function of a rule list in which a later rule overrides an earlier
      one.
    - [FsmTable]: [looplab], an implementation of [fsm.Library] by the
      hash table the library keeps, with the proof of the laws.
    - [Yaml]: the decoder as the classes [yaml.Parser] (bytes to document
      trees, left abstract) and [yaml.Unmarshal] (document tree to Go
      value, by type and struct tag); [yaml.stream], the parser of an
      input already split into trees.
    - [Config]: the document types of [fsm.go], [EventDescYaml],
      [StateYaml], [EventYaml] and the anonymous rule struct, with the
      decoders their declarations induce.
    - [Machine]: [FSMWithStatesAndEvents] and [Fire], the call
      [f.FSM.Event(event)].
    - [Loader]: [eventDescYamlToEventDesc], the two table loops, the three
      guarded [Decode] calls, [yamlToFSM] and [ChatBotFSM], the file
      system being the parameter [ReadFile].
    - [Logging]: the same functions with their four [glog.Infof] calls:
      a computation that logs is the pair of the entries it wrote and its
      result ([glog.logged], a monad), and an entry is a call with its
      format and operand.
    - [Runtime]: the objects reachable by firing events, as the inductive
      relation [reachable] and the function [run].
    - [WellFormed]: the shape of the objects the program makes: every
      record of a table is filed under its own name.
    - [Integrity]: the conditions the specification puts on a
      configuration (every name a rule uses is declared, no name is
      declared twice) as decidable predicates.
    - [Graph]: the rules as a graph on state names: the set of states
      reachable from the start state, computed by bounded exploration,
      the terminal states, and the decidable properties [deadlock_free]
      and [recurrent] of a configuration.
    - [Queries]: the methods [Current] and [AvailableTransitions], in the
      module [statemachine].
    - [Similar]: the equivalence [≡] of objects that hold the same
      tables, state and transition function, which the operations respect
      ([Proper] instances).
    - [Refinement]: [spec], the runtime the specification describes, and
      the relation [refines] between the program's object and it.
    - [Builder]: [builder.BuildMachine], the validating builder the
      specification describes, with its errors.
    - [Store]: the program with the library's machine behind its pointer:
      a store of machines by location, the struct as a value holding a
      location, allocation in [yamlToFSM], the methods reading through
      the pointer, and schedules of the calls of several sessions.
    - [Client]: the caller's side, which is not in [fsm.go], as sections
      4.3 and 7 of the specification describe it: the results a call of
      [AvailableTransitions] may return ([client.offers]), the menu
      sorted by [OrderID] ([client.present]), and the caller that fires
      only what is on the menu ([client.menu_driven]).
    - [Goroutines]: the methods statement by statement: a goroutine at
      the entry of a call, inside the loop of [AvailableTransitions], or
      back from it ([goroutine.Frame], [goroutine.step]), pools of
      goroutines on one store, schedules that name the goroutine whose
      statement comes next, and [goroutine.follows_menu], the discipline
      of callers that share a machine.
    - [Concrete]: the program on [yaml.stream] and [looplab], and on
      [ioutil], a file system that is a finite map from paths to
      contents.
    - [Legacy]: the rule table of the comment, [legacy.topology], and
      the machine its return statement built, [legacy.NewFSM], over the
      names of the package constants ([legacy.Names]).
    - [Scenarios]: the example of the specification, the configurations
      on which program and specification differ, a menu of two events,
      and the chatbot of [Legacy] with names filled in, all by
      evaluation.

    ** The theorems

    - Loading ([Loader]): [yamlToFSM] ends in one of four ways, the three
      wrapped decoding errors and the built machine; the built machine
      starts in "Initial", and it and every machine reached from it hold
      the tables and the rules of the three decoded documents; its
      transition function is the last matching rule of the document;
      each table holds the last declaration of each name; [ChatBotFSM]
      succeeds and fails exactly when its two steps do, and the text of
      its error names the step, the file and the section.
    - Sizes and ranges ([Loader], [Queries], [Concrete]): the built
      machine is no larger than its documents; [AvailableTransitions]
      returns no more events than there are rules leaving the current
      state; an [orderID], taken to be an [int] of 64 bits, is loaded
      when it fits and makes the load fail when it does not.
    - Logging ([Logging]): the log of a load holds one entry per
      document decoded, in order, and a fourth after the conversion of
      the rules; forgetting the log gives the functions of [Loader].
    - Decoding ([Config], [Concrete]): every configuration has a YAML form
      that decodes to it; a rule entry is read by its three keys, in
      whatever order they stand, and a missing key is no error; a
      document of the wrong kind decodes to an
      empty section, so that the documents of a stream are told apart by
      their position alone; a stream that ends early is refused;
      [ChatBotFSM] depends on the file system through the one file it
      names.
    - Running ([Runtime], [WellFormed], [Integrity], [Graph]): firing
      never changes the tables or the transition function; every object
      the program makes is well formed; [Fire] follows the last rule of
      the document that covers the current state and the event, and
      refuses the event when there is none; the states the machine can be
      in are exactly those the exploration of the rules computes, and
      each is reached by accepted events only.
    - Progress ([Graph], [Queries]): a configuration without reachable
      terminal state is one whose machine always offers and accepts an
      event; in a recurrent configuration the machine can always be
      brought back to "Initial".
    - Queries ([Queries]): on every reachable object of a configuration
      with referential integrity, [Current] returns a declared state with
      the current name and [AvailableTransitions] returns exactly the
      declared events that [Fire] accepts; without integrity both return
      zero records, and the theorems say when.
    - Equivalence ([Similar]): objects that agree on tables, state and
      transition function answer every sequence of calls alike; a
      configuration without repeated names and conflicting rules builds
      the same machine in whatever order its declarations are listed.
    - Refinement ([Refinement], [Builder]): the built machine and the
      specification's instance answer every sequence of events alike; on
      every configuration the specified builder accepts, the program
      builds the specified machine; [Scenarios] has configurations that
      builder refuses and the program loads without an error.
    - Pointers ([Store]): the value-passing model of [Machine] is what
      the program with pointers computes; machines of different loads do
      not interfere; copies of one struct share their machine; under any
      interleaving of the calls of several clients each machine sees its
      own events and nothing else.
    - Callers ([Client]): under referential integrity a caller that fires
      only what is on the menu is never refused, alone or interleaved
      with other sessions, and a caller that fires anything ends where
      the accepted events alone lead; without integrity every entry of
      a menu is honoured but the zero event; sorting by [OrderID] fixes
      the menu, whatever order the library lists the events in, exactly
      when the events on it have pairwise different orders.
    - Goroutines ([Goroutines]): however the statements of several
      goroutines interleave, no goroutine panics while the structs hold
      machines; every call takes effect at its first
      statement and returns what the whole call returns in the store of
      that moment; it returns after a number of its own statements that
      the other goroutines cannot change; the store is the one the
      [Event] calls leave when taken whole in the order of their first
      statements, and the goroutines return what these calls return;
      and on a machine whose callers ask for the menu before they fire,
      one at a time, no goroutine is refused.
    - The earlier version ([Legacy]): the transition function of the
      table in the comment is the thirteen transitions its rules spell
      out; its machine has seven states, no deadlock, and returns to the
      start within two events; [build] gives the configuration that
      lists the same rules the transition function of the table, and,
      when the constant [InitialStateName] is "Initial", the machine the
      deleted statement built.

    ** Bounds and choices

    - No loop of the program needs fuel: each is a [foldl] over a slice.
      The one bounded iteration of the development is the exploration of
      [Graph], which runs one round per rule; each round that is not the
      last adds a state, and there are no more states than rules plus
      one, so this bound is enough, and [graph.explore_enough] proves
      that a larger one changes nothing.
    - [OrderID] is a Go [int], taken at 64 bits ([go.int] in
      [Integers]): an integer with the proof that it is in range. The
      width is an assumption: the declaration of [Event] is not in
      [fsm.go] and the specification gives none. The program never
      computes with the field, so no operation can overflow; the width
      shows when a document is decoded, where a number out of range is
      refused.
    - The machine is held by pointer in Go. [Machine] passes the object
      through [Fire] and returns the new one; [Store] keeps the pointer
      and proves the two models agree. Several clients are a schedule:
      a sequence of whole calls, each taking effect at once.
      [Goroutines] shows that this loses nothing: there a schedule is a
      sequence of statements, [AvailableTransitions] takes one step to
      read the machine and one per iteration of its loop, and every
      schedule of statements does what the schedule of the whole calls
      does that lists them by their first statements. A call of the
      library is one step there: the library guards its machine with a
      lock of its own.
    - The library lists the available events by walking a Go map, in an
      order that may change from call to call. In the model
      [fsm.AvailableTransitions] is a function, and its laws fix no
      order; what is proved of the result of [AvailableTransitions]
      either does not depend on the order or is stated for every
      rearrangement of it ([client.offers]).
    - A decoding failure is represented by its first cause.
    - [Loader] is the program without its log and [Logging] the program
      with it; [logging_erased] relates the two.
    - The table of [Legacy] is a comment in the source, and nothing of
      the running program depends on it. The constants it names are
      declared outside [fsm.go]: they are parameters, the start state
      [InitialStateName] among them, and what is proved of the table
      assumes only that the nine event names differ. What ties the
      table to the running program assumes in addition that the
      constant has the value of the literal "Initial" of the live code.

    ** Not modelled

    Every line of [fsm.go] is the source of a definition, but for the
    package clause, the imports, the blank lines and closing braces, and
    line 86, a return statement in a comment that returned the library's
    machine without the tables. What is left out lies outside the file.

    - The text of a YAML document. [gopkg.in/yaml.v3] is a library the
      program only calls: its parser from bytes to document trees is the
      abstract class [yaml.Parser], and of its decoder the part that
      fills the program's types from a tree is modelled. Anchors,
      aliases, merge keys and integers that are not decimal are not.
    - The inside of [github.com/looplab/fsm]. The library is modelled as
      section 4.3 of the specification describes the runtime: an event
      is accepted when the table has a transition for it and refused
      otherwise. Its callbacks are left out, since the program registers
      none; so are its locks, a call of the library being one step
      wherever calls overlap in time ([Goroutines]);
      so are the distinctions it makes among its errors and for an event
      that leads to the state the machine is in, which the model accepts
      like any other: [fsm.go] never calls [Event] itself, and [Fire]
      stands for the call the callers make on the exported field.
    - Go's memory model and scheduler. [Goroutines] interleaves whole
      statements under every schedule; it has no data race to find,
      since the tables are never written after construction and the
      machine is reached through the library only, and it assumes no
      fairness, since every call returns after a bounded number of its
      own statements.
    - The stack trace that [github.com/pkg/errors] records in an error,
      and the line [github.com/golang/glog] writes for a call: the log
      is the sequence of the calls to [glog.Infof].
    - The file system beyond the file that is missing: the one of
      [Concrete] fails for no other reason.
    - The records [State] and [Event] beyond the fields the
      specification gives them: their declarations are in sibling files
      of the package, not under [src/].
    - The callers of the runtime, which are outside [src/]. [Client] has
      the protocol the specification describes and nothing of the
      chatbot: no message is rendered and no user is modelled.
    - The validation that the specification asks of the builder
      (duplicates, dangling references, conflicting rules): it is absent
      from the source, so the model of the program has none. [Builder]
      states it on the side of the specification, and [Scenarios] shows
      what the program does with the configurations it would refuse. *)

From stdpp Require Import gmap strings list fin_maps.

Declare Scope go_scope.
Delimit Scope go_scope with go.
#[global] Open Scope string_scope.
#[global] Open Scope list_scope.
#[global] Open Scope go_scope.

(** ** Go values: errors and results *)

(** Go's [error] values as this program builds them: a leaf raised by a
    library, or [errors.Wrapf cause msg]. *)
Inductive error : Type :=
| New (msg : string)
| Wrapf (cause : error) (msg : string).

(** The text [err.Error()] renders: the wrapping message, a colon, the
    cause. *)
Fixpoint error_text (e : error) : string :=
  match e with
  | New msg => msg
  | Wrapf cause msg => msg +:+ ": " +:+ error_text cause
  end.

(** [errors.Cause]: the innermost error of a chain of wraps. *)
Fixpoint Cause (e : error) : error :=
  match e with
  | New msg => New msg
  | Wrapf cause _ => Cause cause
  end.

(** [(T, error)] return values: exactly one side is meaningful in every
    return statement of the program. *)
Inductive result (A : Type) : Type :=
| Ok (a : A)
| Err (e : error).
Arguments Ok {A} a.
Arguments Err {A} e.

#[export] Instance error_eq_dec : EqDecision error.
Proof. solve_decision. Defined.

#[export] Instance result_eq_dec `{EqDecision A} : EqDecision (result A).
Proof. solve_decision. Defined.

#[export] Instance result_ret : MRet result := @Ok.
#[export] Instance result_bind : MBind result := λ A B f r,
  match r with Ok a => f a | Err e => Err e end.
#[export] Instance result_fmap : FMap result := λ A B f r,
  match r with Ok a => Ok (f a) | Err e => Err e end.

(** [errors.Wrapf] applied to the error side of a result: the shape of
    every [if err != nil { return nil, errors.Wrapf(err, ...) }]. *)
Definition wrap_err {A} (msg : string) (r : result A) : result A :=
  match r with Ok a => Ok a | Err e => Err (Wrapf e msg) end.

Definition is_Ok {A} (r : result A) : bool :=
  match r with Ok _ => true | Err _ => false end.

(** The [err] of a return: [None] is Go's [nil]. *)
Definition error_of {A} (r : result A) : option error :=
  match r with Ok _ => None | Err e => Some e end.

(** ** Zero values and Go map indexing *)

(** The zero value of a Go type: what a declared variable holds before it
    is assigned and what indexing a map yields for a missing key. *)
Class Zero (A : Type) := zero : A.
#[export] Hint Mode Zero ! : typeclass_instances.

#[export] Instance string_zero : Zero string := "".
#[export] Instance Z_zero : Zero Z := 0%Z.
#[export] Instance list_zero {A} : Zero (list A) := [].

(** [m[k]] on a Go map: the stored value, or the zero value of the
    element type when [k] is absent. It never fails. *)
Definition go_index `{Countable K} `{Zero V} (m : gmap K V) (k : K) : V :=
  default zero (m !! k).
Notation "m !!₀ k" := (go_index m k) (at level 20) : go_scope.

(** ** Building a map by a loop of assignments *)

(** [for _, a := range l { m[key(a)] = val(a) }] is a left fold of
    inserts; a later element overwrites an earlier one with its key. *)
Section insert_all.
Context `{Countable K} {A V : Type} (key : A → K) (val : A → V).

Definition insert_entry (m : gmap K V) (a : A) : gmap K V :=
  <[key a := val a]> m.

Definition insert_all (l : list A) (m : gmap K V) : gmap K V :=
  foldl insert_entry m l.

(** The element of [l] that the loop leaves under key [k]: the last one
    whose key is [k]. *)
Definition last_with (k : K) (l : list A) : option A :=
  last (filter (λ a, key a = k) l).
End insert_all.

(** ** Names that repeat *)

(** The first name of a list that comes again further down. *)
Fixpoint duplicate_key (keys : list string) : option string :=
  match keys with
  | [] => None
  | k :: keys =>
      if existsb (String.eqb k) keys then Some k else duplicate_key keys
  end.

(** ** Tactics *)


(** Case analysis on the result a bind or a wrap scrutinises. *)
Ltac case_result :=
  match goal with
  | |- context [mbind _ ?r] => destruct r eqn:?
  | |- context [wrap_err _ ?r] => destruct r eqn:?
  | H : context [mbind _ ?r] |- _ => destruct r eqn:?
  | H : context [wrap_err _ ?r] |- _ => destruct r eqn:?
  end;
  repeat match goal with p : (_ * _)%type |- _ => destruct p end;
  simpl in *;
  change (@mret result result_ret ?A ?x) with (@Ok A x) in *;
  simplify_eq/=.

(** Membership in a list that is written out, by search from the
    left; the element may have parts still to be determined. *)
Ltac elem_of_list :=
  solve [repeat first [apply list_elem_of_here | apply list_elem_of_further]].

Create HintDb go discriminated.
Create Rewrite HintDb go.

(** ** Lemmas on lists *)

Lemma filter_eq_nil {A} (P : A → Prop) `{∀ x, Decision (P x)} (l : list A) :
  filter P l = [] ↔ ∀ x, x ∈ l → ¬ P x.
Proof.
  split.
  - intros Hnil x Hx HP. by apply (filter_nil_not_elem_of P l x Hnil).
  - intros Hno. destruct (filter P l) as [|x k] eqn:E; [done|].
    assert (x ∈ filter P l) as [? ?]%list_elem_of_filter by (rewrite E; left).
    naive_solver.
Qed.

Lemma list_filter_fmap {A B} (f : A → B) (P : B → Prop)
    `{∀ y, Decision (P y)} (l : list A) :
  filter P (f <$> l) = f <$> filter (P ∘ f) l.
Proof.
  induction l as [|x l IH]; [done|].
  rewrite fmap_cons, !filter_cons, IH. simpl. by case_decide.
Qed.

(** Two elements with the same image are one element, when no image
    repeats. *)
Lemma NoDup_fmap_eq {A B} (f : A → B) (l : list A) (x y : A) :
  NoDup (f <$> l) → x ∈ l → y ∈ l → f x = f y → x = y.
Proof.
  intros Hnd [i Hi]%list_elem_of_lookup [j Hj]%list_elem_of_lookup Hxy.
  assert (i = j) as ->; [|congruence].
  apply (NoDup_lookup (f <$> l) i j (f x)); [done|..];
    rewrite list_lookup_fmap; [by rewrite Hi | by rewrite Hj, Hxy].
Qed.

(** [for _, a := range l { res = append(res, g(a)) }] appends the
    images of the elements, in order. *)
Lemma foldl_append {A B} (g : A → B) (res : list B) (l : list A) :
  foldl (λ res a, res ++ [g a]) res l = res ++ (g <$> l).
Proof.
  revert res. induction l as [|a l IH]; intros res; simpl.
  - by rewrite app_nil_r.
  - by rewrite IH, <-app_assoc.
Qed.

Lemma omap_eq_nil {A B} (f : A → option B) (l : list A) :
  omap f l = [] ↔ Forall (λ x, f x = None) l.
Proof.
  induction l as [|x l IH]; csimpl; [by split|].
  rewrite Forall_cons, <-IH. destruct (f x); naive_solver.
Qed.

Lemma list_bind_eq_nil {A B} (f : A → list B) (l : list A) :
  l ≫= f = [] ↔ Forall (λ x, f x = []) l.
Proof.
  induction l as [|x l IH]; csimpl; [by split|].
  rewrite Forall_cons, <-IH. split.
  - by intros [? ?]%app_eq_nil.
  - by intros [-> ->].
Qed.

(** ** Lemmas on results *)

Section result_lemmas.
Context {A B : Type}.
Implicit Types (r : result A) (f : A → result B).

Lemma bind_Ok a f : Ok a ≫= f = f a.
Proof. done. Qed.

Lemma bind_Err e f : Err e ≫= f = Err e.
Proof. done. Qed.

Lemma bind_eq_Ok r f b :
  r ≫= f = Ok b ↔ ∃ a, r = Ok a ∧ f a = Ok b.
Proof. destruct r; naive_solver. Qed.

Lemma bind_eq_Err r f e :
  r ≫= f = Err e ↔ r = Err e ∨ ∃ a, r = Ok a ∧ f a = Err e.
Proof. destruct r; naive_solver. Qed.

Lemma wrap_err_eq_Ok msg r a : wrap_err msg r = Ok a ↔ r = Ok a.
Proof. destruct r; naive_solver. Qed.

Lemma wrap_err_eq_Err msg r e :
  wrap_err msg r = Err e ↔ ∃ c, r = Err c ∧ e = Wrapf c msg.
Proof. destruct r; naive_solver. Qed.

Lemma is_Ok_true r : is_Ok r = true ↔ ∃ a, r = Ok a.
Proof. destruct r; naive_solver. Qed.

Lemma is_Ok_false r : is_Ok r = false ↔ ∃ e, r = Err e.
Proof. destruct r; naive_solver. Qed.
End result_lemmas.

(** [mapM] over results: the loop that converts every element and stops
    at the first failure. *)
Section mapM_result.
Context {A B : Type} (f : A → result B).
Implicit Types (l : list A) (k : list B).

Lemma mapM_Ok l k :
  mapM f l = Ok k ↔ Forall2 (λ x y, f x = Ok y) l k.
Proof.
  revert k. induction l as [|x l IH]; intros k; simpl.
  - split; [intros [= <-]; constructor | by inversion 1].
  - split.
    + intros (y & Hy & (k' & Hk' & [= <-])%bind_eq_Ok)%bind_eq_Ok.
      constructor; [done | by apply IH].
    + inversion 1 as [|? y ? k' Hy Hk']; subst.
      rewrite Hy. simpl. apply IH in Hk'. by rewrite Hk'.
Qed.

Lemma mapM_Ok_length l k : mapM f l = Ok k → length k = length l.
Proof. intros ?%mapM_Ok. symmetry. by eapply Forall2_length. Qed.

Lemma mapM_Err l e : mapM f l = Err e → ∃ x, x ∈ l ∧ f x = Err e.
Proof.
  induction l as [|x l IH]; simpl; [done|].
  intros [Hx|(y & Hy & [Hl|(k & _ & ?)]%bind_eq_Err)]%bind_eq_Err;
    [| |done].
  - exists x. split; [left | done].
  - destruct (IH Hl) as (x' & ? & ?). exists x'. split; [by right | done].
Qed.

Lemma mapM_Ok_fmap (g : B → A) k :
  (∀ y, f (g y) = Ok y) → mapM f (g <$> k) = Ok k.
Proof.
  intros Hfg. apply mapM_Ok. induction k; constructor; auto.
Qed.

(** A conversion whose failures all carry the same error fails with that
    error as soon as one element fails. *)
Lemma mapM_one_error (g : A → option B) (e : error) l :
  (∀ x, f x = from_option Ok (Err e) (g x)) →
  mapM f l = from_option Ok (Err e) (mapM g l).
Proof.
  intros Hf. induction l as [|x l IH]; simpl; [done|].
  rewrite Hf, IH. destruct (g x); simpl; [|done]. by destruct (mapM g l).
Qed.
End mapM_result.

(** A conversion of every element that succeeds returns the elements
    converted. *)
Lemma mapM_omap {A B} (g : A → option B) (l : list A) :
  mapM g l
  = if decide (Forall (is_Some ∘ g) l) then Some (omap g l) else None.
Proof.
  case_decide as Hl.
  - apply mapM_is_Some in Hl as [k Hk]. rewrite Hk. f_equal.
    apply mapM_Some in Hk. induction Hk as [|x y l k Hx _ IH]; [done|].
    simpl. by rewrite Hx, IH.
  - apply eq_None_not_Some. by rewrite mapM_is_Some.
Qed.

Lemma mapM_fmap {A B C} (f : B → result C) (g : A → B) (l : list A) :
  mapM f (g <$> l) = mapM (f ∘ g) l.
Proof.
  induction l as [|x l IH]; [done|]. rewrite fmap_cons.
  change (mapM f (g x :: (g <$> l)))
    with (y ← f (g x); k ← mapM f (g <$> l); mret (y :: k)).
  by rewrite IH.
Qed.

Lemma string_app_assoc (s1 s2 s3 : string) :
  (s1 +:+ s2) +:+ s3 = s1 +:+ s2 +:+ s3.
Proof.
  induction s1 as [|a s1 IH]; [done|].
  change (String a ((s1 +:+ s2) +:+ s3) = String a (s1 +:+ s2 +:+ s3)).
  by rewrite IH.
Qed.

(** The text of a wrapped error: the message, a colon, the text of the
    cause. *)
Lemma error_text_Wrapf c msg :
  error_text (Wrapf c msg) = msg +:+ ": " +:+ error_text c.
Proof. done. Qed.

Lemma Cause_Wrapf c msg : Cause (Wrapf c msg) = Cause c.
Proof. done. Qed.

Lemma Cause_idemp e : Cause (Cause e) = Cause e.
Proof. induction e; done. Qed.

#[export] Hint Rewrite @bind_Ok @bind_Err Cause_Wrapf Cause_idemp : go.

(** ** Counting the names of a list *)

Section size_list_to_set.
Context `{Countable A}.
Implicit Types (l : list A).

Lemma size_list_to_set_cons x l :
  size (list_to_set (C:=gset A) (x :: l))
  = if decide (x ∈ l) then size (list_to_set (C:=gset A) l)
    else S (size (list_to_set (C:=gset A) l)).
Proof.
  simpl. case_decide as Hx.
  - f_equal. apply set_eq. set_solver.
  - rewrite size_union, size_singleton by set_solver. done.
Qed.

Lemma size_list_to_set_le l :
  (size (list_to_set (C:=gset A) l) ≤ length l)%nat.
Proof.
  induction l as [|x l IH]; [done|].
  rewrite size_list_to_set_cons. simpl. case_decide; lia.
Qed.

Lemma size_list_to_set_NoDup l :
  size (list_to_set (C:=gset A) l) = length l ↔ NoDup l.
Proof.
  split; [|apply size_list_to_set].
  induction l as [|x l IH]; [constructor|].
  rewrite size_list_to_set_cons. simpl.
  pose proof (size_list_to_set_le l). case_decide; [lia|].
  intros [= Hl]. constructor; auto.
Qed.
End size_list_to_set.

(** ** Lemmas on names that repeat *)

Lemma existsb_eqb (k : string) (keys : list string) :
  existsb (String.eqb k) keys = bool_decide (k ∈ keys).
Proof.
  induction keys as [|x keys IH]; [done|]. simpl. rewrite IH.
  destruct (String.eqb_spec k x) as [->|Hne]; simpl.
  - symmetry. apply bool_decide_eq_true_2. left.
  - apply bool_decide_ext. set_solver.
Qed.

Lemma duplicate_key_None (keys : list string) :
  duplicate_key keys = None ↔ NoDup keys.
Proof.
  induction keys as [|k keys IH]; simpl.
  - split; [constructor|done].
  - rewrite NoDup_cons, existsb_eqb. case_bool_decide; naive_solver.
Qed.

Lemma duplicate_key_Some (keys : list string) k :
  duplicate_key keys = Some k →
  ∃ l1 l2, keys = l1 ++ k :: l2 ∧ k ∈ l2 ∧ NoDup l1.
Proof.
  induction keys as [|k' keys IH]; simpl; [done|].
  rewrite existsb_eqb. case_bool_decide as Hk.
  - intros [= ->]. exists [], keys. split_and!; [done|done|constructor].
  - intros (l1 & l2 & -> & Hin & Hnd)%IH. exists (k' :: l1), l2.
    split_and!; [done|done|]. constructor; [|done]. set_solver.
Qed.

(** ** Lemmas on Go map indexing *)

Section go_index_lemmas.
Context `{Countable K} `{Zero V}.
Implicit Types (m : gmap K V) (k : K) (v : V).

Lemma go_index_Some m k v : m !! k = Some v → m !!₀ k = v.
Proof. unfold go_index. by intros ->. Qed.

Lemma go_index_None m k : m !! k = None → m !!₀ k = zero.
Proof. unfold go_index. by intros ->. Qed.

Lemma go_index_insert m k v : <[k:=v]> m !!₀ k = v.
Proof. apply go_index_Some, lookup_insert_eq. Qed.

Lemma go_index_insert_ne m k k' v : k ≠ k' → <[k:=v]> m !!₀ k' = m !!₀ k'.
Proof. intros. unfold go_index. by rewrite lookup_insert_ne. Qed.

Lemma go_index_empty k : (∅ : gmap K V) !!₀ k = zero.
Proof. apply go_index_None, lookup_empty. Qed.

Lemma go_index_elem_of_dom m k : k ∈ dom m → m !! k = Some (m !!₀ k).
Proof. intros [v Hv]%elem_of_dom. by rewrite (go_index_Some _ _ _ Hv). Qed.
End go_index_lemmas.

#[export] Hint Rewrite @go_index_insert @go_index_empty : go.
#[export] Hint Resolve go_index_Some go_index_None : go.

(** ** Lemmas on the last element with a key *)

Section last_with_lemmas.
Context `{EqDecision K} {A : Type} (key : A → K).
Implicit Types (l : list A) (k : K) (a : A).

Lemma last_with_nil k : last_with key k [] = None.
Proof. done. Qed.

Lemma last_with_snoc k l a :
  last_with key k (l ++ [a])
  = if decide (key a = k) then Some a else last_with key k l.
Proof.
  unfold last_with. rewrite filter_app, filter_cons, filter_nil.
  case_decide; [apply last_snoc | by rewrite app_nil_r].
Qed.

Lemma last_with_Some k l a :
  last_with key k l = Some a → a ∈ l ∧ key a = k.
Proof.
  unfold last_with. intros Hl%last_Some_elem_of.
  by apply list_elem_of_filter in Hl as [? ?].
Qed.

Lemma last_with_None k l :
  last_with key k l = None ↔ ∀ a, a ∈ l → key a ≠ k.
Proof. unfold last_with. by rewrite last_None, filter_eq_nil. Qed.

Lemma last_with_is_Some k l :
  is_Some (last_with key k l) ↔ k ∈ key <$> l.
Proof.
  rewrite <-not_eq_None_Some, last_with_None, list_elem_of_fmap. split.
  - intros Hn. destruct (decide (k ∈ key <$> l)) as [Hin|Hout].
    + by apply list_elem_of_fmap in Hin.
    + exfalso. apply Hn. intros a Ha <-. apply Hout.
      apply list_elem_of_fmap. eauto.
  - intros (a & -> & Ha) Hn. by apply (Hn a).
Qed.

(** Without a repeated key the loop stores every element. *)
Lemma last_with_NoDup l a :
  NoDup (key <$> l) → a ∈ l → last_with key (key a) l = Some a.
Proof.
  induction l as [|b l IH] using rev_ind; [by intros _ ?%not_elem_of_nil|].
  rewrite fmap_app, NoDup_app, last_with_snoc. simpl.
  intros (Hl & Hdisj & _) [Ha| ->%list_elem_of_singleton]%elem_of_app.
  - case_decide as Hk; [|by apply IH].
    exfalso. apply (Hdisj (key a)); [by apply list_elem_of_fmap_2|].
    rewrite <-Hk. apply list_elem_of_here.
  - by rewrite decide_True.
Qed.

(** [a] is the last element keyed [k] exactly when it splits the list
    into a prefix and a suffix with no element keyed [k]. *)
Lemma last_with_Some_iff k l a :
  last_with key k l = Some a
  ↔ ∃ l1 l2, l = l1 ++ a :: l2 ∧ key a = k ∧ ∀ b, b ∈ l2 → key b ≠ k.
Proof.
  split.
  - induction l as [|b l IH] using rev_ind; [done|].
    rewrite last_with_snoc. case_decide as Hb.
    + intros [= ->]. exists l, []. split_and!; [done..|].
      by intros ? ?%not_elem_of_nil.
    + intros (l1 & l2 & -> & Ha & Hl2)%IH. exists l1, (l2 ++ [b]).
      split_and!; [by rewrite <-app_assoc | done |].
      intros c [?| ->%list_elem_of_singleton]%elem_of_app; auto.
  - intros (l1 & l2 & -> & Ha & Hl2). unfold last_with.
    rewrite filter_app, filter_cons_True by done.
    rewrite (proj2 (filter_eq_nil _ l2)) by done. apply last_snoc.
Qed.
End last_with_lemmas.

(** ** Lemmas on maps built by a loop of assignments *)

Section insert_all_lemmas.
Context `{Countable K} {A V : Type} (key : A → K) (val : A → V).
Implicit Types (l : list A) (m : gmap K V) (k : K) (a : A).

Lemma insert_all_nil m : insert_all key val [] m = m.
Proof. done. Qed.

Lemma insert_all_cons a l m :
  insert_all key val (a :: l) m = insert_all key val l (<[key a := val a]> m).
Proof. done. Qed.

Lemma insert_all_app l1 l2 m :
  insert_all key val (l1 ++ l2) m
  = insert_all key val l2 (insert_all key val l1 m).
Proof. apply foldl_app. Qed.

Lemma insert_all_snoc l a m :
  insert_all key val (l ++ [a]) m = <[key a := val a]> (insert_all key val l m).
Proof. by rewrite insert_all_app. Qed.

(** The loop stores under [k] the value of the last element keyed [k],
    and leaves the other keys of the map as they were. *)
Lemma lookup_insert_all l m k :
  insert_all key val l m !! k
  = match last_with key k l with
    | Some a => Some (val a)
    | None => m !! k
    end.
Proof.
  induction l as [|a l IH] using rev_ind; [done|].
  rewrite insert_all_snoc, last_with_snoc. case_decide as Hk.
  - subst k. apply lookup_insert_eq.
  - by rewrite lookup_insert_ne.
Qed.

Lemma dom_insert_all l m :
  dom (insert_all key val l m) = list_to_set (key <$> l) ∪ dom m.
Proof.
  apply set_eq. intros k.
  rewrite elem_of_union, elem_of_list_to_set, !elem_of_dom,
    lookup_insert_all, <-last_with_is_Some.
  destruct (last_with key k l); rewrite ?is_Some_alt; naive_solver.
Qed.

(** The loop started on the empty map leaves no more entries than the
    list has elements, and as many exactly when no key repeats. *)
Lemma size_insert_all l :
  (size (insert_all key val l ∅) ≤ length l)%nat
  ∧ (size (insert_all key val l ∅) = length l ↔ NoDup (key <$> l)).
Proof.
  rewrite <-size_dom, dom_insert_all, dom_empty_L, (right_id_L ∅ (∪)),
    <-(length_fmap key l).
  split; [apply size_list_to_set_le | apply size_list_to_set_NoDup].
Qed.

(** Without a repeated key the loop builds the map of the list of
    entries, whatever the order. *)
Lemma insert_all_list_to_map l :
  NoDup (key <$> l) →
  insert_all key val l ∅ = list_to_map ((λ a, (key a, val a)) <$> l).
Proof.
  intros Hnd. apply map_eq. intros k.
  rewrite lookup_insert_all, lookup_empty.
  assert (((λ a, (key a, val a)) <$> l).*1 = key <$> l) as Hfst.
  { rewrite <-list_fmap_compose. by apply list_fmap_ext. }
  destruct (last_with key k l) as [a|] eqn:E; symmetry.
  - apply last_with_Some in E as [Ha <-].
    apply elem_of_list_to_map_1; [by rewrite Hfst|].
    by apply (list_elem_of_fmap_2 (λ a, (key a, val a))).
  - apply not_elem_of_list_to_map_1. rewrite Hfst.
    rewrite <-last_with_is_Some, E. by intros [? ?].
Qed.

End insert_all_lemmas.

#[export] Hint Rewrite @insert_all_nil @insert_all_cons @insert_all_snoc
  @last_with_nil : go.
