(* ===== verification/Integers.v ===== *)
(** * Go's [int]

    The one number of a configuration is the [orderID] of an event, a Go
    [int]. On the 64-bit platforms the program is built for, an [int] is
    a signed integer of 64 bits. The program never computes with it: it
    is decoded from the document, stored in the event table and handed
    back to the caller. What matters is therefore the range alone: a
    value of the type is an integer between [MinInt] and [MaxInt], and a
    number outside the range cannot become one. [go.int] is the integer
    with the proof that it is in range, the proof being a boolean test
    so that two values with the same integer are equal. *)

From stdpp Require Import base numbers decidable countable.
From S2P Require Import Prelude.

Module go.

(** The size of an [int], and its least and greatest value. *)
Definition bits : Z := 64.
Definition MinInt : Z := - 2 ^ (bits - 1).
Definition MaxInt : Z := 2 ^ (bits - 1) - 1.

Definition in_range (z : Z) : bool := bool_decide (MinInt ≤ z ≤ MaxInt)%Z.

Record int : Type := Int {
  to_Z : Z;
  to_Z_in_range : in_range to_Z;
}.

(** The [int] that holds [z], when there is one. *)
Definition of_Z (z : Z) : option int :=
  match decide (in_range z) with
  | left ok => Some (Int z ok)
  | right _ => None
  end.

#[export] Instance int_zero : Zero int := Int 0 I.

Section int.
Implicit Types (i j : int) (z : Z).

Lemma in_range_spec z : in_range z ↔ (MinInt ≤ z ≤ MaxInt)%Z.
Proof. unfold in_range. by rewrite bool_decide_spec. Qed.

Lemma MinInt_eq : MinInt = (- 2 ^ 63)%Z.
Proof. reflexivity. Qed.

Lemma MaxInt_eq : MaxInt = (2 ^ 63 - 1)%Z.
Proof. reflexivity. Qed.

Lemma to_Z_range i : (MinInt ≤ to_Z i ≤ MaxInt)%Z.
Proof. apply in_range_spec, to_Z_in_range. Qed.

#[export] Instance to_Z_inj : Inj (=) (=) to_Z.
Proof.
  intros [z ok] [z' ok']; simpl. intros ->. f_equal. apply proof_irrel.
Qed.

#[export] Instance int_eq_dec : EqDecision int.
Proof.
  refine (λ i j, cast_if (decide (to_Z i = to_Z j)));
    abstract naive_solver (eauto using to_Z_inj).
Defined.

Lemma of_Z_to_Z i : of_Z (to_Z i) = Some i.
Proof.
  unfold of_Z. destruct (decide _) as [ok|no].
  - f_equal. by apply to_Z_inj.
  - destruct no. apply to_Z_in_range.
Qed.

#[export] Instance int_countable : Countable int :=
  inj_countable to_Z of_Z of_Z_to_Z.

Lemma of_Z_Some z i : of_Z z = Some i ↔ to_Z i = z.
Proof.
  split; [|intros <-; apply of_Z_to_Z].
  unfold of_Z. destruct (decide _); [|done]. by intros [= <-].
Qed.

Lemma of_Z_is_Some z : is_Some (of_Z z) ↔ (MinInt ≤ z ≤ MaxInt)%Z.
Proof.
  rewrite <-in_range_spec. unfold of_Z.
  destruct (decide _); [by split; eauto | by split; [intros []|]].
Qed.

Lemma of_Z_None z : of_Z z = None ↔ (z < MinInt ∨ MaxInt < z)%Z.
Proof.
  rewrite eq_None_not_Some, of_Z_is_Some. lia.
Qed.
End int.
End go.

Export (hints) go.
