(* ===== verification/Domain.v ===== *)
(** * Domain records: states and events

    The payload types of the state machine. [State] and [Event] and their
    constructors [NewState] and [NewEvent] are declared in sibling files of
    the package [statemachine]; [fsm.go] only reads their fields and calls
    their constructors, so they are modelled here from the data model of
    the specification (section 3): a state is a name and a display message,
    an event a name, a display message and a presentation order, taken to
    be a Go [int]. The engine never inspects a message or an order. *)

From stdpp Require Import gmap strings.
From S2P Require Import Prelude Integers.

Module state.
Record State : Type := mk {
  Name : string;
  Message : string;
}.

(** [NewState(name, message)]. *)
Definition NewState (name message : string) : State :=
  {| Name := name; Message := message |}.

#[export] Instance eq_dec : EqDecision State.
Proof. solve_decision. Defined.

#[export] Instance countable : Countable State.
Proof.
  apply (inj_countable' (λ s, (Name s, Message s)) (λ p, mk p.1 p.2)).
  by intros [].
Defined.

(** [State{}]: both strings empty. *)
#[export] Instance State_zero : Zero State := mk zero zero.

Lemma Name_NewState n m : Name (NewState n m) = n.
Proof. done. Qed.

Lemma Message_NewState n m : Message (NewState n m) = m.
Proof. done. Qed.

Lemma NewState_eta s : NewState (Name s) (Message s) = s.
Proof. by destruct s. Qed.
End state.

Module event.
Record Event : Type := mk {
  Name : string;
  Message : string;
  OrderID : go.int;
}.

(** [NewEvent(name, message, orderID)]. *)
Definition NewEvent (name message : string) (orderID : go.int) : Event :=
  {| Name := name; Message := message; OrderID := orderID |}.

#[export] Instance eq_dec : EqDecision Event.
Proof. solve_decision. Defined.

#[export] Instance countable : Countable Event.
Proof.
  apply (inj_countable' (λ e, (Name e, Message e, OrderID e))
           (λ p, mk p.1.1 p.1.2 p.2)).
  by intros [].
Defined.

(** [Event{}]: empty strings and order 0. *)
#[export] Instance Event_zero : Zero Event := mk zero zero zero.

Lemma Name_NewEvent n m o : Name (NewEvent n m o) = n.
Proof. done. Qed.

Lemma NewEvent_eta e : NewEvent (Name e) (Message e) (OrderID e) = e.
Proof. by destruct e. Qed.
End event.

Export (hints) state event.
Abbreviation State := state.State.
Abbreviation Event := event.Event.
Abbreviation NewState := state.NewState.
Abbreviation NewEvent := event.NewEvent.

#[export] Hint Rewrite state.Name_NewState state.Message_NewState
  state.NewState_eta event.Name_NewEvent event.NewEvent_eta : go.
