(* ===== verification/Fsm.v ===== *)
(** * The state-machine library, as an interface

    [fsm.go] drives the machine through the package
    [github.com/looplab/fsm], whose source is no part of the repository.
    This file states what the program relies on, following section 4.3 of
    the specification: the rule records the program hands over
    ([EventDesc]), the reading of a rule list as a transition function
    ([delta], where a later rule overrides an earlier one for the same
    source state and event, with [same_delta], the decidable comparison
    of two rule lists by their transition functions), and the class
    [Library] of operations with the laws a conforming implementation
    satisfies. The theorems on the
    program are proved against [Library]; [FsmTable] implements it with
    the hash table the library keeps. *)

From stdpp Require Import gmap strings list.
From S2P Require Import Prelude.

Module fsm.

(** [fsm.EventDesc]: the event [Name] moves the machine from any state
    of [Src] to [Dst]. *)
Record EventDesc : Type := mk {
  Name : string;
  Src : list string;
  Dst : string;
}.

#[export] Instance EventDesc_eq_dec : EqDecision EventDesc.
Proof. solve_decision. Defined.

(** The failure of [Event]: the event is not legal in the current
    state. It names both. *)
Inductive Error : Type :=
| IllegalTransitionError (state event : string).

#[export] Instance Error_eq_dec : EqDecision Error.
Proof. solve_decision. Defined.

(** ** A rule list read as a transition function *)

(** Rule [d] lets [event] fire in state [src]. *)
Definition enables (src event : string) (d : EventDesc) : Prop :=
  Name d = event ∧ src ∈ Src d.

#[export] Instance enables_dec src event d : Decision (enables src event d).
Proof. unfold enables. apply _. Defined.

(** The destination of [event] in state [src]: that of the last rule
    enabling it, if any. *)
Definition delta (events : list EventDesc) (src event : string)
  : option string :=
  Dst <$> last (filter (enables src event) events).

(** No two rules give one (state, event) pair two destinations. *)
Definition conflict_free (events : list EventDesc) : Prop :=
  ∀ d1 d2 src event, d1 ∈ events → d2 ∈ events →
    enables src event d1 → enables src event d2 → Dst d1 = Dst d2.

(** The states a rule list can lead to. *)
Definition destinations (events : list EventDesc) : list string :=
  Dst <$> events.

(** The (state, event) pairs a rule list has a transition for. *)
Definition pairs (events : list EventDesc) : list (string * string) :=
  d ← events; (λ src, (src, Name d)) <$> Src d.

(** Two rule lists that give every pair they speak of the same
    destination. *)
Definition same_delta (events1 events2 : list EventDesc) : Prop :=
  Forall (λ p, delta events1 p.1 p.2 = delta events2 p.1 p.2)
         (pairs events1 ++ pairs events2).

#[export] Instance same_delta_dec events1 events2 :
  Decision (same_delta events1 events2).
Proof. unfold same_delta. apply _. Defined.

(** ** The operations of the library and their laws *)

Class Library : Type := {
  FSM : Type;
  Callback : Type;
  (** [NewFSM(initial, events, callbacks)]. *)
  NewFSM : string → list EventDesc → gmap string Callback → FSM;
  (** [f.Current()]. *)
  Current : FSM → string;
  (** The transition table of [f], read at a state and an event. *)
  next : FSM → string → string → option string;
  (** [f.AvailableTransitions()]: in an order the library chooses. *)
  AvailableTransitions : FSM → list string;
  (** [f.Event(event)]: the machine afterwards and the error, if any. *)
  Event : FSM → string → FSM * option Error;

  Current_NewFSM initial events :
    Current (NewFSM initial events ∅) = initial;
  next_NewFSM initial events src event :
    next (NewFSM initial events ∅) src event = delta events src event;
  AvailableTransitions_spec f event :
    event ∈ AvailableTransitions f ↔ is_Some (next f (Current f) event);
  AvailableTransitions_NoDup f :
    NoDup (AvailableTransitions f);
  Event_legal f event dst :
    next f (Current f) event = Some dst →
    ∃ f', Event f event = (f', None) ∧ Current f' = dst
          ∧ ∀ src ev, next f' src ev = next f src ev;
  Event_illegal f event :
    next f (Current f) event = None →
    Event f event = (f, Some (IllegalTransitionError (Current f) event));
}.

(** ** Facts on [delta] *)

Section delta.
Implicit Types (events : list EventDesc) (d : EventDesc) (src event : string).

Lemma delta_nil src event : delta [] src event = None.
Proof. done. Qed.

Lemma delta_snoc events d src event :
  delta (events ++ [d]) src event
  = if decide (enables src event d) then Some (Dst d)
    else delta events src event.
Proof.
  unfold delta. rewrite filter_app, filter_cons, filter_nil.
  case_decide; [by rewrite last_snoc | by rewrite app_nil_r].
Qed.

Lemma delta_app events1 events2 src event :
  delta (events1 ++ events2) src event
  = match delta events2 src event with
    | Some dst => Some dst
    | None => delta events1 src event
    end.
Proof.
  unfold delta. rewrite filter_app, last_app.
  by destruct (last (filter _ events2)).
Qed.

Lemma delta_Some events src event dst :
  delta events src event = Some dst →
  ∃ d, d ∈ events ∧ enables src event d ∧ Dst d = dst.
Proof.
  unfold delta. intros (d & Hd & ->)%fmap_Some.
  apply last_Some_elem_of, list_elem_of_filter in Hd as [? ?]. eauto.
Qed.

Lemma delta_None events src event :
  delta events src event = None ↔ ∀ d, d ∈ events → ¬ enables src event d.
Proof. unfold delta. by rewrite fmap_None, last_None, filter_eq_nil. Qed.

Lemma delta_is_Some events src event :
  is_Some (delta events src event)
  ↔ ∃ d, d ∈ events ∧ enables src event d.
Proof.
  split.
  - intros [dst (d & ? & ? & _)%delta_Some]. eauto.
  - intros (d & Hd & He). apply not_eq_None_Some.
    rewrite delta_None. naive_solver.
Qed.

(** Every destination [delta] yields is the [Dst] of some rule. *)
Lemma delta_destination events src event dst :
  delta events src event = Some dst → dst ∈ destinations events.
Proof.
  intros (d & Hd & _ & <-)%delta_Some. by apply list_elem_of_fmap_2.
Qed.

(** In a conflict-free rule list every enabling rule gives the
    destination, whatever its position. *)
Lemma delta_conflict_free events src event d :
  conflict_free events → d ∈ events → enables src event d →
  delta events src event = Some (Dst d).
Proof.
  intros Hcf Hd He.
  destruct (delta events src event) as [dst|] eqn:E.
  - apply delta_Some in E as (d' & Hd' & He' & <-).
    f_equal. by apply (Hcf d' d src event).
  - rewrite delta_None in E. naive_solver.
Qed.
End delta.

(** ** Rule lists with the same transition function *)

Section same_delta.
Implicit Types (events : list EventDesc) (d : EventDesc) (src event : string).

Lemma elem_of_pairs events src event :
  (src, event) ∈ pairs events ↔ ∃ d, d ∈ events ∧ enables src event d.
Proof.
  unfold pairs, enables. rewrite list_elem_of_bind.
  setoid_rewrite list_elem_of_fmap. naive_solver.
Qed.

Lemma delta_pairs events src event :
  is_Some (delta events src event) ↔ (src, event) ∈ pairs events.
Proof. by rewrite delta_is_Some, elem_of_pairs. Qed.

(** Comparing two rule lists on the pairs they speak of compares their
    transition functions everywhere. *)
Lemma same_delta_spec events1 events2 :
  same_delta events1 events2
  ↔ ∀ src event, delta events1 src event = delta events2 src event.
Proof.
  unfold same_delta. rewrite Forall_forall. split.
  - intros Hs src event.
    destruct (decide ((src, event) ∈ pairs events1 ++ pairs events2))
      as [Hin|Hout]; [by apply (Hs (src, event))|].
    apply not_elem_of_app in Hout as [H1 H2].
    rewrite <-delta_pairs, <-eq_None_not_Some in H1, H2. congruence.
  - intros Hs [src event] _. apply Hs.
Qed.
End same_delta.

(** Rules with pairwise different names cannot conflict. *)
Lemma conflict_free_NoDup events :
  NoDup (Name <$> events) → conflict_free events.
Proof.
  intros Hnd d1 d2 src event Hd1 Hd2 [Hn1 _] [Hn2 _].
  by rewrite (NoDup_fmap_eq Name events d1 d2) by congruence.
Qed.

(** The order of the rules matters only to resolve conflicts. *)
Lemma delta_Permutation events1 events2 src event :
  conflict_free events1 → events1 ≡ₚ events2 →
  delta events1 src event = delta events2 src event.
Proof.
  intros Hcf Hp.
  destruct (delta events2 src event) as [dst|] eqn:E.
  - apply delta_Some in E as (d & Hd & He & <-).
    apply delta_conflict_free; [done| by rewrite Hp |done].
  - rewrite delta_None in E |- *. intros d Hd. apply E. by rewrite <-Hp.
Qed.

#[export] Instance conflict_free_Permutation :
  Proper ((≡ₚ) ==> iff) conflict_free.
Proof.
  assert (∀ l1 l2, l1 ≡ₚ l2 → conflict_free l1 → conflict_free l2) as Himp.
  { intros l1 l2 Hp Hcf d1 d2 src event Hd1 Hd2.
    apply Hcf; by rewrite Hp. }
  intros l1 l2 Hp. split; apply Himp; by rewrite Hp.
Qed.

(** ** Consequences of the laws *)

Section laws.
Context `{Library}.
Implicit Types (f : FSM) (event : string).

(** The two outcomes of [Event]: the table has a transition for the
    event in the current state and the machine takes it, or it has none
    and the machine stays as it is. *)
Lemma Event_cases f event :
  (∃ dst f', next f (Current f) event = Some dst
             ∧ Event f event = (f', None) ∧ Current f' = dst
             ∧ ∀ src ev, next f' src ev = next f src ev)
  ∨ (next f (Current f) event = None
     ∧ Event f event = (f, Some (IllegalTransitionError (Current f) event))).
Proof.
  destruct (next f (Current f) event) as [dst|] eqn:E.
  - left. destruct (Event_legal f event dst E) as (f' & ? & ? & ?).
    by exists dst, f'.
  - right. by rewrite (Event_illegal f event E).
Qed.

(** [Event] succeeds exactly on the events [AvailableTransitions]
    lists. *)
Lemma Event_succeeds_iff f event :
  (Event f event).2 = None ↔ event ∈ AvailableTransitions f.
Proof.
  rewrite AvailableTransitions_spec.
  destruct (Event_cases f event) as [(dst & f' & -> & -> & _)|[-> ->]];
    [by split; eauto | by split; [|intros [? ?]]].
Qed.

(** A rejected event leaves the machine as it was. *)
Lemma Event_atomic f event f' err :
  Event f event = (f', Some err) →
  f' = f ∧ err = IllegalTransitionError (Current f) event.
Proof.
  destruct (Event_cases f event) as [(dst & f'' & _ & -> & _)|[_ ->]];
    naive_solver.
Qed.

(** An accepted event moves to the destination of the table and
    leaves the table as it was. *)
Lemma Event_accepted f event f' :
  Event f event = (f', None) →
  next f (Current f) event = Some (Current f')
  ∧ ∀ src ev, next f' src ev = next f src ev.
Proof.
  destruct (Event_cases f event) as [(dst & f'' & -> & -> & <- & ?)|[_ ->]];
    naive_solver.
Qed.
End laws.

End fsm.

Export (hints) fsm.

#[export] Hint Rewrite @fsm.Current_NewFSM @fsm.next_NewFSM fsm.delta_nil : go.
