(* ===== verification/FsmTable.v ===== *)
(** * The state-machine library, as a hash table

    An implementation of [fsm.Library] in the way the library keeps its
    data: the current state and a table from (event, source state) pairs
    to destinations, filled by [NewFSM] with two nested loops over the
    rules and their source states, so that a later assignment overwrites
    an earlier one. [AvailableTransitions] walks the table; Go leaves the
    order of such a walk open, and the laws of [fsm.Library] promise none.

    The callback table is stored and never consulted: the program passes
    an empty one, and the laws are stated for that case. *)

From stdpp Require Import gmap strings list fin_maps.
From S2P Require Import Prelude Fsm.

Module looplab.
Import fsm.

(** A callback's code is not modelled; the program registers none. *)
Definition Callback : Type := unit.

Record FSM : Type := mk {
  current : string;
  transitions : gmap (string * string) string;
  callbacks : gmap string Callback;
}.

(** The table key of an event in a source state: [eKey{event, src}]. *)
Definition eKey (event src : string) : string * string := (event, src).

(** The inner loop of [NewFSM]: one assignment per source state of a
    rule. *)
Definition add_rule (t : gmap (string * string) string) (e : EventDesc)
  : gmap (string * string) string :=
  foldl (λ t src, <[eKey (Name e) src := Dst e]> t) t (Src e).

Definition NewFSM (initial : string) (events : list EventDesc)
    (cbs : gmap string Callback) : FSM :=
  {| current := initial;
     transitions := foldl add_rule ∅ events;
     callbacks := cbs |}.

Definition Current (f : FSM) : string := current f.

Definition next (f : FSM) (src event : string) : option string :=
  transitions f !! eKey event src.

(** The events of the table keys whose source is the current state. *)
Definition AvailableTransitions (f : FSM) : list string :=
  fst <$> filter (λ key, key.2 = current f) (map_to_list (transitions f)).*1.

Definition Event (f : FSM) (event : string) : FSM * option Error :=
  match transitions f !! eKey event (current f) with
  | Some dst =>
      ({| current := dst;
          transitions := transitions f;
          callbacks := callbacks f |}, None)
  | None => (f, Some (IllegalTransitionError (current f) event))
  end.

(** ** The table against the rule list *)

Section table.
Implicit Types (t : gmap (string * string) string) (d : EventDesc).

Lemma add_rule_insert_all t d :
  add_rule t d = insert_all (eKey (Name d)) (λ _, Dst d) (Src d) t.
Proof. done. Qed.

Lemma lookup_add_rule t d src event :
  add_rule t d !! eKey event src
  = if decide (enables src event d) then Some (Dst d)
    else t !! eKey event src.
Proof.
  rewrite add_rule_insert_all, lookup_insert_all.
  destruct (last_with _ _ _) as [s|] eqn:E.
  - apply last_with_Some in E as [Hs [= <- ->]].
    by rewrite decide_True.
  - rewrite last_with_None in E. rewrite decide_False; [done|].
    intros [<- Hs]. by apply (E src).
Qed.

(** The table [NewFSM] fills is [delta] of the rules it is given. *)
Lemma lookup_add_rules events t src event :
  foldl add_rule t events !! eKey event src
  = match delta events src event with
    | Some dst => Some dst
    | None => t !! eKey event src
    end.
Proof.
  induction events as [|d events IH] using rev_ind; [done|].
  rewrite foldl_snoc, lookup_add_rule, delta_snoc.
  by case_decide.
Qed.

Lemma next_NewFSM initial events cbs src event :
  next (NewFSM initial events cbs) src event = delta events src event.
Proof.
  unfold next. simpl. rewrite lookup_add_rules, lookup_empty.
  by destruct (delta events src event).
Qed.
End table.

(** ** The walk over the table *)

Section walk.
Implicit Types (f : FSM) (event : string).

Lemma elem_of_table_walk f event :
  event ∈ AvailableTransitions f ↔ is_Some (next f (current f) event).
Proof.
  unfold AvailableTransitions, next, eKey.
  rewrite list_elem_of_fmap. split.
  - intros ([ev src] & -> & [Hsrc Hin]%list_elem_of_filter).
    simpl in *. subst src.
    apply list_elem_of_fmap in Hin as ([k dst] & -> & Hin).
    apply elem_of_map_to_list in Hin. by eexists.
  - intros [dst Hdst]. exists (event, current f). split; [done|].
    apply list_elem_of_filter. split; [done|].
    apply list_elem_of_fmap. exists (event, current f, dst).
    split; [done|]. by apply elem_of_map_to_list.
Qed.

Lemma NoDup_AvailableTransitions f : NoDup (AvailableTransitions f).
Proof.
  unfold AvailableTransitions. apply NoDup_fmap_2_strong.
  - intros [e1 s1] [e2 s2] [H1 _]%list_elem_of_filter
      [H2 _]%list_elem_of_filter. simpl in *. congruence.
  - apply NoDup_filter, NoDup_fst_map_to_list.
Qed.
End walk.

(** ** The laws *)

Lemma Event_legal f event dst :
  next f (Current f) event = Some dst →
  ∃ f', Event f event = (f', None) ∧ Current f' = dst
        ∧ ∀ src ev, next f' src ev = next f src ev.
Proof. unfold next, Current, Event. intros ->. eauto. Qed.

Lemma Event_illegal f event :
  next f (Current f) event = None →
  Event f event = (f, Some (IllegalTransitionError (Current f) event)).
Proof. unfold next, Current, Event. by intros ->. Qed.

#[export] Instance library : fsm.Library := {|
  fsm.FSM := FSM;
  fsm.Callback := Callback;
  fsm.NewFSM := NewFSM;
  fsm.Current := Current;
  fsm.next := next;
  fsm.AvailableTransitions := AvailableTransitions;
  fsm.Event := Event;
  fsm.Current_NewFSM := λ _ _, eq_refl;
  fsm.next_NewFSM := λ initial events, next_NewFSM initial events ∅;
  fsm.AvailableTransitions_spec := elem_of_table_walk;
  fsm.AvailableTransitions_NoDup := NoDup_AvailableTransitions;
  fsm.Event_legal := Event_legal;
  fsm.Event_illegal := Event_illegal;
|}.

(** ** Invariants of the implementation *)

(** [Event] never touches the table or the callbacks. *)
Lemma Event_transitions f event :
  transitions (Event f event).1 = transitions f.
Proof. unfold Event. by case_match. Qed.

Lemma Event_callbacks f event :
  callbacks (Event f event).1 = callbacks f.
Proof. unfold Event. by case_match. Qed.

(** The keys of the table: the (event, source) pairs of the rules. *)
Lemma dom_transitions_NewFSM initial events cbs key :
  key ∈ dom (transitions (NewFSM initial events cbs))
  ↔ ∃ d, d ∈ events ∧ enables key.2 key.1 d.
Proof.
  destruct key as [event src]. rewrite elem_of_dom. simpl.
  by rewrite <-delta_is_Some, <-(next_NewFSM initial events cbs).
Qed.

End looplab.
