(* ===== verification/Yaml.v ===== *)
(** * The YAML decoder, as an interface

    [yamlToFSM] reads its input through [gopkg.in/yaml.v3], whose source
    is no part of the repository. [Decoder.Decode] does two things: it
    parses the next document of the stream into a tree of nodes, and it
    fills the target value from that tree according to the target's type
    and field tags. This file models the tree ([Node]), leaves the parser
    from bytes to trees abstract (the class [Parser]: a decoder state, how
    to open one, how to read the next document), and models the second
    half by the class [Unmarshal], with the instances for strings,
    integers, slices and struct fields that the document types of
    [Config] are assembled from.

    A struct is filled from a mapping: a key that names no field is
    ignored, a field without a key keeps its zero value, and a mapping
    that repeats a key is refused. A decoding failure is reported by its
    first cause; the library goes on and collects all of them, but the
    program only tests [err != nil].

    [stream] is the parser of an input that is already split into
    document trees; the scenarios run on it. *)

From stdpp Require Import gmap strings list.
From Stdlib Require Import DecimalString DecimalZ DecimalPos.
From S2P Require Import Prelude Integers.

Module yaml.

(** A document, or a part of one. Mapping keys are scalars. *)
#[local] Set Warnings "-register-all".
Inductive Node : Type :=
| Null
| Scalar (value : string)
| Sequence (content : list Node)
| Mapping (content : list (string * Node)).

(** ** Reading documents off a stream *)

Class Parser (bytes : Type) : Type := {
  Decoder : Type;
  (** [yaml.NewDecoder(bytes.NewReader(b))]. *)
  NewDecoder : bytes → Decoder;
  (** The next document and the decoder after it, or the error: a
      syntax error, or [io.EOF] when the stream has no more document. *)
  parse : Decoder → result (Node * Decoder);
}.

(** [io.EOF]. *)
Definition EOF : error := New "EOF".

(** ** Filling a value from a document *)

Class Unmarshal (T : Type) : Type := unmarshal : Node → result T.
#[export] Hint Mode Unmarshal ! : typeclass_instances.

(** [dec.Decode(&v)]: the value decoded from the next document, and the
    decoder advanced past it. *)
Definition Decode `{Parser bytes} `{Unmarshal T} (dec : Decoder)
  : result (T * Decoder) :=
  '(n, dec') ← parse dec;
  v ← unmarshal n;
  mret (v, dec').

Definition type_error (target : string) : error :=
  New ("yaml: unmarshal errors: cannot unmarshal into " +:+ target).

Definition already_defined (key : string) : error :=
  New ("yaml: unmarshal errors: mapping key " +:+ key +:+ " already defined").

(** A string takes the text of any scalar; null leaves it empty. *)
#[export] Instance unmarshal_string : Unmarshal string := λ n,
  match n with
  | Scalar s => Ok s
  | Null => Ok zero
  | _ => Err (type_error "string")
  end.

(** The integer a scalar denotes: decimal notation, with an optional
    sign. *)
Definition resolve_int (s : string) : option Z :=
  Z.of_int <$> NilZero.int_of_string s.

(** An [int] takes a scalar that denotes an integer in the range of the
    type; a number out of range is refused like a scalar that is no
    number. *)
#[export] Instance unmarshal_int : Unmarshal go.int := λ n,
  match n with
  | Scalar s =>
      match resolve_int s ≫= go.of_Z with
      | Some i => Ok i
      | None => Err (type_error "int")
      end
  | Null => Ok zero
  | _ => Err (type_error "int")
  end.

(** A slice takes a sequence, element by element. *)
#[export] Instance unmarshal_list `{Unmarshal T} : Unmarshal (list T) := λ n,
  match n with
  | Sequence c => mapM unmarshal c
  | Null => Ok zero
  | _ => Err (type_error "slice")
  end.

(** A struct field tagged [key]: decoded from the entry of the mapping
    with that key, left at its zero value when there is none. *)
Definition field `{Unmarshal T} `{Zero T} (key : string)
    (content : list (string * Node)) : result T :=
  match filter (λ kv, kv.1 = key) content with
  | [] => Ok zero
  | (_, n) :: _ => unmarshal n
  end.

#[global] Arguments field : simpl never.

(** A struct takes a mapping, field by field. A mapping that repeats a
    key is refused; the keys that name no field are ignored. *)
Definition unmarshal_struct {T} `{Zero T}
    (fields : list (string * Node) → result T) : Unmarshal T := λ n,
  match n with
  | Mapping c =>
      match duplicate_key c.*1 with
      | Some k => Err (already_defined k)
      | None => fields c
      end
  | Null => Ok zero
  | _ => Err (type_error "struct")
  end.

(** ** Writing a value as a document

    The inverse direction, used to state that the decoders lose
    nothing: no code of the program encodes. *)

Class Marshal (T : Type) : Type := marshal : T → Node.
#[export] Hint Mode Marshal ! : typeclass_instances.

Class RoundTrip (T : Type) `{Unmarshal T, Marshal T} : Prop :=
  unmarshal_marshal : ∀ x : T, unmarshal (marshal x) = Ok x.
#[export] Hint Mode RoundTrip ! - - : typeclass_instances.

#[export] Instance marshal_string : Marshal string := Scalar.
#[export] Instance marshal_int : Marshal go.int := λ i,
  Scalar (NilZero.string_of_int (Z.to_int (go.to_Z i))).
#[export] Instance marshal_list `{Marshal T} : Marshal (list T) := λ l,
  Sequence (marshal <$> l).

(** ** The parser of a stream of document trees *)

Module stream.
Definition Decoder : Type := list Node.
Definition NewDecoder (docs : list Node) : Decoder := docs.
Definition parse (dec : Decoder) : result (Node * Decoder) :=
  match dec with
  | [] => Err EOF
  | n :: dec' => Ok (n, dec')
  end.

#[export] Instance parser : Parser (list Node) := {|
  yaml.Decoder := Decoder;
  yaml.NewDecoder := NewDecoder;
  yaml.parse := parse;
|}.
End stream.

(** ** Facts on decoding *)

Section Decode.
Context `{Parser bytes} `{Unmarshal T}.
Implicit Types (dec : Decoder) (v : T).

Lemma Decode_Ok dec v dec' :
  Decode dec = Ok (v, dec')
  ↔ ∃ n, parse dec = Ok (n, dec') ∧ unmarshal n = Ok v.
Proof.
  unfold Decode. rewrite bind_eq_Ok. split.
  - intros ([n d] & Hp & (v' & Hv & [= <- <-])%bind_eq_Ok). eauto.
  - intros (n & Hp & Hv). exists (n, dec'). by rewrite Hv.
Qed.

Lemma Decode_Err dec e :
  Decode (T:=T) dec = Err e
  ↔ parse dec = Err e
    ∨ ∃ n dec', parse dec = Ok (n, dec') ∧ unmarshal (T:=T) n = Err e.
Proof.
  unfold Decode. rewrite bind_eq_Err. split.
  - intros [?|([n d] & Hp & [Hv|(? & _ & ?)]%bind_eq_Err)]; [by left| |done].
    right. eauto.
  - intros [?|(n & d & Hp & Hv)]; [by left|].
    right. exists (n, d). by rewrite Hv.
Qed.
End Decode.

(** Case analysis on the next [Decode] of the goal: the value and the
    decoder after it, or the error. *)
Ltac case_Decode :=
  match goal with
  | |- context [Decode (T:=?T) ?dec] =>
      destruct (Decode (T:=T) dec) as [[? ?]|?] eqn:?; simpl
  end.

Section field.
Context `{Unmarshal T} `{Zero T}.
Implicit Types (key : string) (content : list (string * Node)).

Lemma filter_key_absent key content :
  key ∉ content.*1 → filter (λ kv, kv.1 = key) content = [].
Proof.
  intros Hk. apply filter_eq_nil. intros [k n] Hin ?. simpl in *. subst k.
  apply Hk. by apply (list_elem_of_fmap_2 fst) in Hin.
Qed.

Lemma field_absent key content :
  key ∉ content.*1 → field (T:=T) key content = Ok zero.
Proof. intros Hk. unfold field. by rewrite filter_key_absent. Qed.

Lemma field_here key n content :
  field (T:=T) key ((key, n) :: content) = unmarshal n.
Proof. unfold field. by rewrite filter_cons_True. Qed.

Lemma field_later key k n content :
  k ≠ key → field (T:=T) key ((k, n) :: content) = field key content.
Proof. intros Hk. unfold field. by rewrite filter_cons_False. Qed.

(** A field is read from the mapping as from a finite map: the entry
    under its key, whatever its place, and the zero value when there is
    none. *)
Lemma field_lookup key content :
  field (T:=T) key content
  = from_option unmarshal (Ok zero)
      (list_to_map (M:=gmap string Node) content !! key).
Proof.
  induction content as [|[k n] content IH]; [by rewrite field_absent by set_solver|].
  simpl. destruct (decide (k = key)) as [->|Hk].
  - by rewrite field_here, lookup_insert_eq.
  - by rewrite field_later, lookup_insert_ne.
Qed.

Lemma unmarshal_struct_Mapping (fields : list (string * Node) → result T)
    content :
  NoDup content.*1 →
  unmarshal_struct fields (Mapping content) = fields content.
Proof. intros Hnd%duplicate_key_None. simpl. by rewrite Hnd. Qed.

Lemma unmarshal_struct_duplicate (fields : list (string * Node) → result T)
    content :
  ¬ NoDup content.*1 →
  ∃ k, unmarshal_struct fields (Mapping content) = Err (already_defined k).
Proof.
  rewrite <-duplicate_key_None. simpl.
  destruct (duplicate_key content.*1) as [k|]; [by exists k|done].
Qed.
End field.

(** Reads one field off a mapping whose keys are literals. *)
Ltac field_step :=
  match goal with
  | |- context [field ?key ((?k, ?n) :: ?c)] =>
      first [ unify k key; rewrite (field_here key n c)
            | rewrite (field_later key k n c) by done ]
  | |- context [field ?key []] => rewrite (field_absent key []) by set_solver
  end.

(** ** The primitive decoders lose nothing *)

#[export] Instance round_trip_string : RoundTrip string.
Proof. by intros s. Qed.

Lemma unmarshal_list_Sequence `{Unmarshal T} (c : list Node) :
  unmarshal (T:=list T) (Sequence c) = mapM unmarshal c.
Proof. done. Qed.

Lemma resolve_int_string_of_int (z : Z) :
  resolve_int (NilZero.string_of_int (Z.to_int z)) = Some z.
Proof.
  unfold resolve_int. rewrite NilZero.isi.
  - simpl. by rewrite DecimalZ.of_to.
  - destruct z; [done | | done]. simpl.
    intros [= E]. by apply Unsigned.to_uint_nonnil in E.
  - destruct z; [done | done |]. simpl.
    intros [= E]. by apply Unsigned.to_uint_nonnil in E.
Qed.

(** What decoding an [int] from a scalar returns: the integer the
    scalar denotes when it is in range, an error otherwise. *)
Lemma unmarshal_int_Scalar (s : string) :
  unmarshal (T:=go.int) (Scalar s)
  = match resolve_int s ≫= go.of_Z with
    | Some i => Ok i
    | None => Err (type_error "int")
    end.
Proof. done. Qed.

Lemma unmarshal_int_Ok (s : string) (i : go.int) :
  unmarshal (Scalar s) = Ok i ↔ resolve_int s = Some (go.to_Z i).
Proof.
  rewrite unmarshal_int_Scalar. destruct (resolve_int s) as [z|]; simpl.
  - destruct (go.of_Z z) as [j|] eqn:E.
    + apply go.of_Z_Some in E as <-. split; [by intros [= ->]|].
      by intros [= ->%(inj go.to_Z)].
    + split; [done|]. intros [= ->]. by rewrite go.of_Z_to_Z in E.
  - done.
Qed.

Lemma unmarshal_int_overflow (z : Z) :
  (z < go.MinInt ∨ go.MaxInt < z)%Z →
  unmarshal (T:=go.int) (Scalar (NilZero.string_of_int (Z.to_int z)))
  = Err (type_error "int").
Proof.
  intros Hz%go.of_Z_None. rewrite unmarshal_int_Scalar.
  rewrite resolve_int_string_of_int. simpl. by rewrite Hz.
Qed.

#[export] Instance round_trip_int : RoundTrip go.int.
Proof.
  intros i. apply unmarshal_int_Ok, resolve_int_string_of_int.
Qed.

#[export] Instance round_trip_list `{RoundTrip T} : RoundTrip (list T).
Proof. intros l. by apply mapM_Ok_fmap. Qed.

End yaml.

Export (hints) yaml.
