(* ===== verification/Config.v ===== *)
(** * The configuration document

    The three documents of a configuration file, as [fsm.go] declares
    them: [EventDescYaml] (the transition rules), [StateYaml] and
    [EventYaml], each a struct with one slice field, and the decoder each
    struct type determines. A field is read from the mapping entry named
    by its [yaml] tag, or by its lower-cased name when it has no tag
    ([fsm], [states], [events]). The element struct of
    [EventDescYaml.Fsm] has no name in the source; it is [FsmEntry] here.

    [State] and [Event] are decoded by the keys of section 6 of the
    specification ([name], [message], [orderID]); their declarations are
    not in [fsm.go].

    Every decoder comes with the encoder that inverts it, and the
    theorems at the end state that decoding an encoded value gives the
    value back: the decoders reach every configuration. The last
    theorem says how a rule entry is read: by its three keys, whatever
    the order of the entries of the mapping, a key that is not there
    leaving its field at the zero value. *)

From stdpp Require Import gmap strings list.
From S2P Require Import Prelude Integers Domain Yaml.

Module config.
Import yaml.

(** The anonymous struct of [EventDescYaml.Fsm]. *)
Record FsmEntry : Type := mkFsmEntry {
  Name : string;
  SrcState : list string;
  DestState : string;
}.

Record EventDescYaml : Type := mkEventDescYaml {
  Fsm : list FsmEntry;
}.

Record StateYaml : Type := mkStateYaml {
  States : list State;
}.

Record EventYaml : Type := mkEventYaml {
  Events : list Event;
}.

#[export] Instance FsmEntry_eq_dec : EqDecision FsmEntry.
Proof. solve_decision. Defined.
#[export] Instance EventDescYaml_eq_dec : EqDecision EventDescYaml.
Proof. solve_decision. Defined.
#[export] Instance StateYaml_eq_dec : EqDecision StateYaml.
Proof. solve_decision. Defined.
#[export] Instance EventYaml_eq_dec : EqDecision EventYaml.
Proof. solve_decision. Defined.

#[export] Instance FsmEntry_zero : Zero FsmEntry := mkFsmEntry zero zero zero.
#[export] Instance EventDescYaml_zero : Zero EventDescYaml :=
  mkEventDescYaml zero.
#[export] Instance StateYaml_zero : Zero StateYaml := mkStateYaml zero.
#[export] Instance EventYaml_zero : Zero EventYaml := mkEventYaml zero.

(** ** Decoders *)

#[export] Instance unmarshal_State : Unmarshal State :=
  unmarshal_struct (λ c,
    name ← field "name" c;
    message ← field "message" c;
    mret (state.mk name message)).

#[export] Instance unmarshal_Event : Unmarshal Event :=
  unmarshal_struct (λ c,
    name ← field "name" c;
    message ← field "message" c;
    orderID ← field "orderID" c;
    mret (event.mk name message orderID)).

#[export] Instance unmarshal_FsmEntry : Unmarshal FsmEntry :=
  unmarshal_struct (λ c,
    name ← field "name" c;
    srcState ← field "srcState" c;
    destState ← field "destState" c;
    mret (mkFsmEntry name srcState destState)).

#[export] Instance unmarshal_EventDescYaml : Unmarshal EventDescYaml :=
  unmarshal_struct (λ c, fsm ← field "fsm" c; mret (mkEventDescYaml fsm)).

#[export] Instance unmarshal_StateYaml : Unmarshal StateYaml :=
  unmarshal_struct (λ c, states ← field "states" c; mret (mkStateYaml states)).

#[export] Instance unmarshal_EventYaml : Unmarshal EventYaml :=
  unmarshal_struct (λ c, events ← field "events" c; mret (mkEventYaml events)).

(** ** Encoders *)

#[export] Instance marshal_State : Marshal State := λ s,
  Mapping [("name", marshal (state.Name s));
           ("message", marshal (state.Message s))].

#[export] Instance marshal_Event : Marshal Event := λ e,
  Mapping [("name", marshal (event.Name e));
           ("message", marshal (event.Message e));
           ("orderID", marshal (event.OrderID e))].

#[export] Instance marshal_FsmEntry : Marshal FsmEntry := λ r,
  Mapping [("name", marshal (Name r));
           ("srcState", marshal (SrcState r));
           ("destState", marshal (DestState r))].

#[export] Instance marshal_EventDescYaml : Marshal EventDescYaml := λ d,
  Mapping [("fsm", marshal (Fsm d))].

#[export] Instance marshal_StateYaml : Marshal StateYaml := λ d,
  Mapping [("states", marshal (States d))].

#[export] Instance marshal_EventYaml : Marshal EventYaml := λ d,
  Mapping [("events", marshal (Events d))].

(** ** Decoding inverts encoding *)

(** Reads the fields of an encoded struct one after the other. *)
Ltac struct_fields :=
  etrans; [apply unmarshal_struct_Mapping; compute_done|];
  repeat (field_step; rewrite ?unmarshal_marshal; simpl).

Ltac round_trip := intros []; struct_fields; reflexivity.

#[export] Instance round_trip_State : RoundTrip State.
Proof. round_trip. Qed.

#[export] Instance round_trip_Event : RoundTrip Event.
Proof. round_trip. Qed.

#[export] Instance round_trip_FsmEntry : RoundTrip FsmEntry.
Proof. round_trip. Qed.

#[export] Instance round_trip_EventDescYaml : RoundTrip EventDescYaml.
Proof. round_trip. Qed.

#[export] Instance round_trip_StateYaml : RoundTrip StateYaml.
Proof. round_trip. Qed.

#[export] Instance round_trip_EventYaml : RoundTrip EventYaml.
Proof. round_trip. Qed.

(** ** What the decoders accept *)

(** Each of the three documents of a configuration, written as YAML
    with the keys of its struct tags, decodes to itself: the decoders
    lose nothing and reach every configuration. *)
Theorem documents_round_trip (d : EventDescYaml) (s : StateYaml)
    (e : EventYaml) :
  unmarshal (marshal d) = Ok d
  ∧ unmarshal (marshal s) = Ok s
  ∧ unmarshal (marshal e) = Ok e.
Proof. split_and!; apply unmarshal_marshal. Qed.

(** A mapping without the key of a section decodes to the empty
    section, whatever other keys it has: a document of the wrong kind is
    no decoding error. *)
Theorem unmarshal_section_missing (c : list (string * Node)) :
  NoDup c.*1 →
  ("fsm" ∉ c.*1 →
   unmarshal (T:=EventDescYaml) (Mapping c) = Ok (mkEventDescYaml []))
  ∧ ("states" ∉ c.*1 →
     unmarshal (T:=StateYaml) (Mapping c) = Ok (mkStateYaml []))
  ∧ ("events" ∉ c.*1 →
     unmarshal (T:=EventYaml) (Mapping c) = Ok (mkEventYaml [])).
Proof.
  intros Hnd. split_and!; intros Hk;
    (etrans; [by apply unmarshal_struct_Mapping|]);
    rewrite field_absent by done; reflexivity.
Qed.

(** A section read by the decoder of another section gives the empty
    section: a state list read as rules gives no rule, rules read as a
    state list give no state, and so on for the six pairs. *)
Lemma unmarshal_other_section (d : EventDescYaml) (s : StateYaml)
    (e : EventYaml) :
  unmarshal (T:=EventDescYaml) (marshal s) = Ok (mkEventDescYaml [])
  ∧ unmarshal (T:=EventDescYaml) (marshal e) = Ok (mkEventDescYaml [])
  ∧ unmarshal (T:=StateYaml) (marshal d) = Ok (mkStateYaml [])
  ∧ unmarshal (T:=StateYaml) (marshal e) = Ok (mkStateYaml [])
  ∧ unmarshal (T:=EventYaml) (marshal d) = Ok (mkEventYaml [])
  ∧ unmarshal (T:=EventYaml) (marshal s) = Ok (mkEventYaml []).
Proof. split_and!; struct_fields; reflexivity. Qed.

(** C30: a rule entry takes its three fields from the keys [name],
    [srcState] and [destState] of its mapping, wherever they stand: a
    mapping without a repeated key, with its entries in any order,
    decodes as the finite map of its entries read at these three keys.
    A key that is missing leaves its field at the zero value and raises
    no error, and so does a key that is misspelt, since no other key is
    read: an entry without [srcState] is a rule that never applies, and
    an entry without [name] is a rule for the event with the empty
    name. *)
Theorem unmarshal_FsmEntry_fields (content content' : list (string * Node)) :
  NoDup content.*1 → content' ≡ₚ content →
  unmarshal (T:=FsmEntry) (Mapping content')
  = (name ← from_option unmarshal (Ok zero)
              (list_to_map (M:=gmap string Node) content !! "name");
     srcState ← from_option unmarshal (Ok zero)
                  (list_to_map (M:=gmap string Node) content !! "srcState");
     destState ← from_option unmarshal (Ok zero)
                   (list_to_map (M:=gmap string Node) content !! "destState");
     mret (mkFsmEntry name srcState destState)).
Proof.
  intros Hnd Hp.
  assert (NoDup content'.*1) as Hnd' by by rewrite Hp.
  etrans; [by apply unmarshal_struct_Mapping|].
  rewrite !field_lookup. by rewrite (list_to_map_proper content' content).
Qed.

End config.

Export (hints) config.
