(* ===== verification/Machine.v ===== *)
(** * The machine with its tables: [FSMWithStatesAndEvents]

    The runtime object of [fsm.go]: the library's machine together with
    the table of states and the table of events. The field [FSM] is
    exported and the program's callers fire events on it directly; [Fire]
    is that call, [f.FSM.Event(event)], seen from the whole object. The
    library's machine is held by pointer and the tables are never
    assigned after construction, so firing changes the machine inside the
    object and nothing else. The two methods the program defines on the
    object are in [Queries]. *)

From stdpp Require Import gmap strings list.
From S2P Require Import Prelude Domain Fsm.

Record FSMWithStatesAndEvents `{fsm.Library} : Type := mkFSMWithStatesAndEvents {
  FSM : fsm.FSM;
  States : gmap string State;
  Events : gmap string Event;
}.

Section machine.
Context `{fsm.Library}.
Implicit Types (f : FSMWithStatesAndEvents) (event : string).

(** [f.FSM.Event(event)]: the object afterwards and the error, if any. *)
Definition Fire f event : FSMWithStatesAndEvents * option fsm.Error :=
  let '(m, err) := fsm.Event (FSM f) event in
  ({| FSM := m; States := States f; Events := Events f |}, err).

(** The name of the current state, and the transition function. *)
Definition current_name f : string := fsm.Current (FSM f).
Definition transition f (src event : string) : option string :=
  fsm.next (FSM f) src event.

(** ** [Fire] *)

Lemma Fire_States f event : States (Fire f event).1 = States f.
Proof. unfold Fire. by destruct (fsm.Event _ _). Qed.

Lemma Fire_Events f event : Events (Fire f event).1 = Events f.
Proof. unfold Fire. by destruct (fsm.Event _ _). Qed.

Lemma Fire_FSM f event :
  FSM (Fire f event).1 = (fsm.Event (FSM f) event).1.
Proof. unfold Fire. by destruct (fsm.Event _ _). Qed.

Lemma Fire_error f event :
  (Fire f event).2 = (fsm.Event (FSM f) event).2.
Proof. unfold Fire. by destruct (fsm.Event _ _). Qed.

Lemma Fire_legal f event dst :
  transition f (current_name f) event = Some dst →
  ∃ f', Fire f event = (f', None) ∧ current_name f' = dst
        ∧ States f' = States f ∧ Events f' = Events f
        ∧ ∀ src ev, transition f' src ev = transition f src ev.
Proof.
  intros (m & Hm & Hc & Hn)%fsm.Event_legal.
  unfold Fire. rewrite Hm. eauto 10.
Qed.

Lemma Fire_illegal f event :
  transition f (current_name f) event = None →
  Fire f event
  = (f, Some (fsm.IllegalTransitionError (current_name f) event)).
Proof.
  intros Hm%fsm.Event_illegal. unfold Fire. rewrite Hm. by destruct f.
Qed.

(** The two cases of [Fire], read off its result. *)
Lemma Fire_inv f event f' err :
  Fire f event = (f', err) →
  match err with
  | None =>
      transition f (current_name f) event = Some (current_name f')
      ∧ States f' = States f ∧ Events f' = Events f
      ∧ ∀ src ev, transition f' src ev = transition f src ev
  | Some e =>
      transition f (current_name f) event = None ∧ f' = f
      ∧ e = fsm.IllegalTransitionError (current_name f) event
  end.
Proof.
  destruct (transition f (current_name f) event) as [dst|] eqn:E.
  - destruct (Fire_legal f event dst E) as (f'' & -> & <- & ? & ? & ?).
    intros [= <- <-]. done.
  - rewrite (Fire_illegal f event E). intros [= <- <-]. done.
Qed.

(** A refused event leaves the object as it was. *)
Lemma Fire_refused f event err :
  (Fire f event).2 = Some err → (Fire f event).1 = f.
Proof.
  destruct (Fire f event) as [f' e] eqn:E. simpl. intros ->.
  by apply Fire_inv in E as (_ & -> & _).
Qed.
End machine.

#[export] Hint Rewrite @Fire_States @Fire_Events : go.
