(* ===== verification/Runtime.v ===== *)
(** * The machine at run time

    A client holds one [FSMWithStatesAndEvents] and calls [Fire],
    [Current] and [AvailableTransitions] on it in any order; only [Fire]
    changes it. This file describes the objects a client can reach from a
    given one: [reachable], closed under [Fire] whatever its outcome, and
    [run], the object after a given sequence of events. The invariants
    are proved by induction on [reachable]: the tables and the transition
    function never change, and the current state is the first one or a
    destination of the transition function. *)

From stdpp Require Import gmap strings list.
From S2P Require Import Prelude Domain Fsm Machine.

(** The objects a client reaches from [f0] by firing events. *)
Inductive reachable `{fsm.Library} (f0 : FSMWithStatesAndEvents)
  : FSMWithStatesAndEvents → Prop :=
| reachable_start : reachable f0 f0
| reachable_fire f event :
    reachable f0 f → reachable f0 (Fire f event).1.

Section runtime.
Context `{fsm.Library}.
Implicit Types (f : FSMWithStatesAndEvents) (event : string).
Implicit Types (events : list string).

(** The object after firing [events] in order; a rejected event is
    skipped, as its [Fire] changes nothing. *)
Definition run f events : FSMWithStatesAndEvents :=
  foldl (λ f event, (Fire f event).1) f events.

(** The errors of those calls, in order. *)
Fixpoint run_errors f events : list (option fsm.Error) :=
  match events with
  | [] => []
  | event :: events =>
      (Fire f event).2 :: run_errors (Fire f event).1 events
  end.

Lemma run_nil f : run f [] = f.
Proof. done. Qed.

Lemma run_cons f event events :
  run f (event :: events) = run (Fire f event).1 events.
Proof. done. Qed.

Lemma run_snoc f events event :
  run f (events ++ [event]) = (Fire (run f events) event).1.
Proof. unfold run. by rewrite foldl_snoc. Qed.

Lemma run_app f events1 events2 :
  run f (events1 ++ events2) = run (run f events1) events2.
Proof. apply foldl_app. Qed.

Lemma run_errors_app f events1 events2 :
  run_errors f (events1 ++ events2)
  = run_errors f events1 ++ run_errors (run f events1) events2.
Proof.
  revert f. induction events1 as [|event events1 IH]; intros f; [done|].
  simpl. by rewrite IH.
Qed.

Lemma run_errors_length f events :
  length (run_errors f events) = length events.
Proof. revert f. induction events; intros f; simpl; auto. Qed.

(** ** Reachability *)

Lemma reachable_run f events : reachable f (run f events).
Proof.
  induction events as [|event events IH] using rev_ind; [constructor|].
  rewrite run_snoc. by constructor.
Qed.

Lemma reachable_inv f0 f :
  reachable f0 f → ∃ events, f = run f0 events.
Proof.
  induction 1 as [|f event _ [events ->]].
  - by exists [].
  - exists (events ++ [event]). by rewrite run_snoc.
Qed.

(** The objects a client can reach from [f0] are the results of firing
    a finite sequence of events on it. *)
Lemma reachable_iff f0 f : reachable f0 f ↔ ∃ events, f = run f0 events.
Proof.
  split; [apply reachable_inv|]. intros [events ->]. apply reachable_run.
Qed.

Lemma reachable_trans f0 f1 f2 :
  reachable f0 f1 → reachable f1 f2 → reachable f0 f2.
Proof. intros H01. induction 1; [done | by constructor]. Qed.

(** ** Invariants *)

(** A property that holds at the start and that no [Fire] breaks holds
    of every reachable object. *)
Lemma reachable_invariant (P : FSMWithStatesAndEvents → Prop) f0 :
  P f0 → (∀ f event, P f → P (Fire f event).1) →
  ∀ f, reachable f0 f → P f.
Proof. intros H0 Hstep f. induction 1; auto. Qed.

Lemma Fire_transition f event src ev :
  transition (Fire f event).1 src ev = transition f src ev.
Proof.
  destruct (Fire f event) as [f' [err|]] eqn:E; simpl.
  - by apply Fire_inv in E as (_ & -> & _).
  - by apply Fire_inv in E as (_ & _ & _ & ->).
Qed.

Lemma reachable_States f0 f : reachable f0 f → States f = States f0.
Proof.
  apply (reachable_invariant (λ f, States f = States f0)); [done|].
  intros f' event. by autorewrite with go.
Qed.

Lemma reachable_Events f0 f : reachable f0 f → Events f = Events f0.
Proof.
  apply (reachable_invariant (λ f, Events f = Events f0)); [done|].
  intros f' event. by autorewrite with go.
Qed.

Lemma reachable_transition f0 f src ev :
  reachable f0 f → transition f src ev = transition f0 src ev.
Proof.
  apply (reachable_invariant
           (λ f, transition f src ev = transition f0 src ev)); [done|].
  intros f' event. by rewrite Fire_transition.
Qed.

(** The position after a [Fire]: the destination if the event is legal,
    the same position if not. *)
Lemma Fire_current_name f event :
  current_name (Fire f event).1
  = default (current_name f) (transition f (current_name f) event).
Proof.
  destruct (Fire f event) as [f' [err|]] eqn:E; simpl.
  - by apply Fire_inv in E as (-> & -> & _).
  - by apply Fire_inv in E as (-> & _).
Qed.

(** The current state is where the machine started or a destination of
    its transition function. *)
Lemma reachable_current_name f0 f :
  reachable f0 f →
  current_name f = current_name f0
  ∨ ∃ src ev, transition f0 src ev = Some (current_name f).
Proof.
  intros Hr. induction Hr as [|f event Hr IH]; [by left|].
  rewrite Fire_current_name.
  destruct (transition f (current_name f) event) as [dst|] eqn:E;
    simpl; [|done].
  right. exists (current_name f), event.
  by rewrite <-(reachable_transition f0 f).
Qed.

End runtime.

#[export] Hint Rewrite @run_nil @run_cons @run_snoc : go.
