(* ===== verification/Loader.v ===== *)
(** * Building the machine from a configuration: [yamlToFSM], [ChatBotFSM]

    [yamlToFSM] opens a decoder on its input and decodes three documents
    in a fixed order, the transition rules, the states and the events;
    the first decoding error ends the function with that error wrapped in
    a message naming the section. It then converts the rules to the
    library's [EventDesc] records, fills the state table and the event
    table by one assignment per declaration (a repeated name overwrites),
    and returns the library's machine started in the state ["Initial"],
    with the two tables. [ChatBotFSM] reads the file and calls
    [yamlToFSM], wrapping the error of either step.

    The decoder state is threaded through the three calls: each [Decode]
    continues where the previous one stopped. The calls to [glog.Infof]
    have no effect on any value and are left out here; [Logging] has the
    functions with them. Reading the file is the parameter [ReadFile].

    The theorems give each function by cases, errors included, and what
    the machine of a successful load holds: the start state "Initial",
    and, now and after any events fired on it ([reachable] of
    [Runtime]), the tables and the rules of the decoded documents. *)

From stdpp Require Import gmap strings list.
From S2P Require Import Prelude Domain Fsm Yaml Config Machine Runtime.

(** The start state: the literal of the call to [NewFSM]. *)
Definition InitialStateName : string := "Initial".

(** The record a rule of the document becomes:
    [fsm.EventDesc{Name: e.Name, Src: e.SrcState, Dst: e.DestState}]. *)
Definition EventDesc_of (e : config.FsmEntry) : fsm.EventDesc :=
  {| fsm.Name := config.Name e;
     fsm.Src := config.SrcState e;
     fsm.Dst := config.DestState e |}.

(** The body of the loop of [eventDescYamlToEventDesc]. *)
Definition append_EventDesc (res : list fsm.EventDesc) (e : config.FsmEntry)
  : list fsm.EventDesc :=
  res ++ [EventDesc_of e].

(** [func eventDescYamlToEventDesc(m EventDescYaml) []fsm.EventDesc]. *)
Definition eventDescYamlToEventDesc (m : config.EventDescYaml)
  : list fsm.EventDesc :=
  foldl append_EventDesc [] (config.Fsm m).

(** The loop that fills [statesMap]:
    [statesMap[s.Name] = NewState(s.Name, s.Message)]. *)
Definition statesMap_of (states : config.StateYaml) : gmap string State :=
  foldl (λ statesMap s,
           <[state.Name s := NewState (state.Name s) (state.Message s)]> statesMap)
        ∅ (config.States states).

(** The loop that fills [eventsMap]:
    [eventsMap[e.Name] = NewEvent(e.Name, e.Message, e.OrderID)]. *)
Definition eventsMap_of (events : config.EventYaml) : gmap string Event :=
  foldl (λ eventsMap e,
           <[event.Name e
             := NewEvent (event.Name e) (event.Message e) (event.OrderID e)]>
             eventsMap)
        ∅ (config.Events events).

Section loader.
Context `{fsm.Library} `{yaml.Parser bytes}.

(** [dec.Decode(&eventDescYaml)] and the test of its error. *)
Definition decode_rules (dec : yaml.Decoder)
  : result (config.EventDescYaml * yaml.Decoder) :=
  wrap_err "failed to decode FSM" (yaml.Decode dec).

(** [dec.Decode(&states)] and the test of its error. *)
Definition decode_states (dec : yaml.Decoder)
  : result (config.StateYaml * yaml.Decoder) :=
  wrap_err "failed to decode states list" (yaml.Decode dec).

(** [dec.Decode(&events)] and the test of its error. *)
Definition decode_events (dec : yaml.Decoder)
  : result (config.EventYaml * yaml.Decoder) :=
  wrap_err "failed to decode events list" (yaml.Decode dec).

(** The three decoding steps in the order of the function: rules, states,
    events, each continuing on the decoder the previous one left. *)
Definition decode_documents (dec : yaml.Decoder)
  : result (config.EventDescYaml * config.StateYaml * config.EventYaml) :=
  '(eventDescYaml, dec) ← decode_rules dec;
  '(states, dec) ← decode_states dec;
  '(events, dec) ← decode_events dec;
  mret (eventDescYaml, states, events).

(** What [yamlToFSM] makes of three decoded documents: the part of the
    function after the last [Decode], which cannot fail. *)
Definition build (eventDescYaml : config.EventDescYaml)
    (states : config.StateYaml) (events : config.EventYaml) : FSMWithStatesAndEvents :=
  let eventDes := eventDescYamlToEventDesc eventDescYaml in
  let statesMap := statesMap_of states in
  let eventsMap := eventsMap_of events in
  {| FSM := fsm.NewFSM InitialStateName eventDes ∅;
     States := statesMap;
     Events := eventsMap |}.

(** [func yamlToFSM(yamlSpec []byte)], returning the object or an error. *)
Definition yamlToFSM (yamlSpec : bytes) : result FSMWithStatesAndEvents :=
  let dec := yaml.NewDecoder yamlSpec in
  '(eventDescYaml, states, events) ← decode_documents dec;
  mret (build eventDescYaml states events).

(** [ioutil.ReadFile(configFile)] and the test of its error, over the
    file system [ReadFile]. *)
Definition read_config (ReadFile : string → result bytes)
    (configFile : string) : result bytes :=
  wrap_err ("failed to read config file " +:+ configFile) (ReadFile configFile).

(** [func ChatBotFSM(configFile string)], returning the object or an
    error. *)
Definition ChatBotFSM (ReadFile : string → result bytes)
    (configFile : string) : result FSMWithStatesAndEvents :=
  fileBytes ← read_config ReadFile configFile;
  fsm ← wrap_err ("failed to create FSM from contents of file " +:+ configFile)
          (yamlToFSM fileBytes);
  mret fsm.
End loader.

(** Unfolds the decoding steps down to the three [Decode] calls. *)
Ltac unfold_decode :=
  unfold decode_documents, decode_rules, decode_states, decode_events.

(** ** The conversion of the rules *)

Section conversion.
Implicit Types (m : config.EventDescYaml) (e : config.FsmEntry).

Lemma foldl_append_EventDesc res (l : list config.FsmEntry) :
  foldl append_EventDesc res l = res ++ (EventDesc_of <$> l).
Proof. apply foldl_append. Qed.

(** The loop converts the rules one by one, in order. *)
Lemma eventDescYamlToEventDesc_fmap m :
  eventDescYamlToEventDesc m = EventDesc_of <$> config.Fsm m.
Proof. unfold eventDescYamlToEventDesc. by rewrite foldl_append_EventDesc. Qed.

Lemma eventDescYamlToEventDesc_length m :
  length (eventDescYamlToEventDesc m) = length (config.Fsm m).
Proof. by rewrite eventDescYamlToEventDesc_fmap, length_fmap. Qed.

Lemma eventDescYamlToEventDesc_lookup m i :
  eventDescYamlToEventDesc m !! i = EventDesc_of <$> config.Fsm m !! i.
Proof. by rewrite eventDescYamlToEventDesc_fmap, list_lookup_fmap. Qed.

Lemma elem_of_eventDescYamlToEventDesc m d :
  d ∈ eventDescYamlToEventDesc m ↔ ∃ e, e ∈ config.Fsm m ∧ d = EventDesc_of e.
Proof.
  rewrite eventDescYamlToEventDesc_fmap, list_elem_of_fmap. naive_solver.
Qed.

#[export] Instance EventDesc_of_inj : Inj (=) (=) EventDesc_of.
Proof. intros [] [] [= ? ? ?]. by simplify_eq/=. Qed.
End conversion.

(** ** The tables *)

Section tables.
Implicit Types (states : config.StateYaml) (events : config.EventYaml).
Implicit Types (s : State) (e : Event) (n : string).

Lemma statesMap_of_insert_all states :
  statesMap_of states
  = insert_all state.Name (λ s, NewState (state.Name s) (state.Message s))
      (config.States states) ∅.
Proof. done. Qed.

Lemma eventsMap_of_insert_all events :
  eventsMap_of events
  = insert_all event.Name
      (λ e, NewEvent (event.Name e) (event.Message e) (event.OrderID e))
      (config.Events events) ∅.
Proof. done. Qed.

(** The table holds, under each name, the last declaration with that
    name. *)
Lemma lookup_statesMap_of states n :
  statesMap_of states !! n = last_with state.Name n (config.States states).
Proof.
  rewrite statesMap_of_insert_all, lookup_insert_all, lookup_empty.
  destruct (last_with _ _ _); by autorewrite with go.
Qed.

Lemma lookup_eventsMap_of events n :
  eventsMap_of events !! n = last_with event.Name n (config.Events events).
Proof.
  rewrite eventsMap_of_insert_all, lookup_insert_all, lookup_empty.
  destruct (last_with _ _ _); by autorewrite with go.
Qed.

(** A record is filed under its own name, and was declared. *)
Lemma statesMap_of_Some states n s :
  statesMap_of states !! n = Some s →
  s ∈ config.States states ∧ state.Name s = n.
Proof. rewrite lookup_statesMap_of. apply last_with_Some. Qed.

Lemma eventsMap_of_Some events n e :
  eventsMap_of events !! n = Some e →
  e ∈ config.Events events ∧ event.Name e = n.
Proof. rewrite lookup_eventsMap_of. apply last_with_Some. Qed.

(** The names of the table are the declared names. *)
Lemma dom_statesMap_of states :
  dom (statesMap_of states)
  = list_to_set (state.Name <$> config.States states).
Proof.
  rewrite statesMap_of_insert_all, dom_insert_all, dom_empty_L.
  by rewrite (right_id_L ∅ (∪)).
Qed.

Lemma dom_eventsMap_of events :
  dom (eventsMap_of events)
  = list_to_set (event.Name <$> config.Events events).
Proof.
  rewrite eventsMap_of_insert_all, dom_insert_all, dom_empty_L.
  by rewrite (right_id_L ∅ (∪)).
Qed.

(** With no repeated name every declaration is in the table. *)
Lemma statesMap_of_NoDup states s :
  NoDup (state.Name <$> config.States states) → s ∈ config.States states →
  statesMap_of states !! state.Name s = Some s.
Proof. rewrite lookup_statesMap_of. apply last_with_NoDup. Qed.

Lemma eventsMap_of_NoDup events e :
  NoDup (event.Name <$> config.Events events) → e ∈ config.Events events →
  eventsMap_of events !! event.Name e = Some e.
Proof. rewrite lookup_eventsMap_of. apply last_with_NoDup. Qed.

(** A repeated name is no error: the later declaration replaces the
    earlier one. *)
Lemma statesMap_of_last_wins l s :
  statesMap_of (config.mkStateYaml (l ++ [s])) !! state.Name s = Some s.
Proof.
  rewrite lookup_statesMap_of. simpl.
  by rewrite last_with_snoc, decide_True.
Qed.

Lemma eventsMap_of_last_wins l e :
  eventsMap_of (config.mkEventYaml (l ++ [e])) !! event.Name e = Some e.
Proof.
  rewrite lookup_eventsMap_of. simpl.
  by rewrite last_with_snoc, decide_True.
Qed.
End tables.

(** ** What the conversion and the tables hold *)

(** C5: the [i]-th record [eventDescYamlToEventDesc] returns is the
    [i]-th rule of the document with its fields carried over: [Name] to
    [Name], [SrcState] to [Src], [DestState] to [Dst]; the result has as
    many records as the document has rules. *)
Theorem eventDescYamlToEventDesc_spec (m : config.EventDescYaml) i ed :
  eventDescYamlToEventDesc m !! i = Some ed
  ↔ ∃ r, config.Fsm m !! i = Some r
         ∧ fsm.Name ed = config.Name r
         ∧ fsm.Src ed = config.SrcState r
         ∧ fsm.Dst ed = config.DestState r.
Proof.
  rewrite eventDescYamlToEventDesc_lookup, fmap_Some. split.
  - intros (r & Hr & ->). by exists r.
  - intros (r & Hr & ? & ? & ?). exists r. split; [done|].
    destruct ed. by simplify_eq/=.
Qed.

(** C3: each table holds the last declaration of each name. The state
    table holds [st] under the name [n] exactly when [st] is the last
    state the document declares with the name [n], and the event table
    holds [ev] under [n] exactly when [ev] is the last event declared
    with that name: a later declaration of a name replaces an earlier
    one, and every record is filed under its own name. *)
Theorem tables_of_spec (states : config.StateYaml) (events : config.EventYaml)
    n :
  (∀ st, statesMap_of states !! n = Some st
         ↔ ∃ l1 l2, config.States states = l1 ++ st :: l2
                    ∧ state.Name st = n
                    ∧ ∀ st', st' ∈ l2 → state.Name st' ≠ n)
  ∧ ∀ ev, eventsMap_of events !! n = Some ev
          ↔ ∃ l1 l2, config.Events events = l1 ++ ev :: l2
                     ∧ event.Name ev = n
                     ∧ ∀ ev', ev' ∈ l2 → event.Name ev' ≠ n.
Proof.
  split; intros x.
  - by rewrite lookup_statesMap_of, last_with_Some_iff.
  - by rewrite lookup_eventsMap_of, last_with_Some_iff.
Qed.

(** When no state name is declared twice, the state table has one entry
    per declaration and returns each declaration under its name. *)
Lemma statesMap_of_unique (states : config.StateYaml) :
  NoDup (state.Name <$> config.States states) →
  size (statesMap_of states) = length (config.States states)
  ∧ ∀ st, st ∈ config.States states →
          statesMap_of states !! state.Name st = Some st.
Proof.
  intros Hnd. split; [|intros st; by apply statesMap_of_NoDup].
  rewrite <-size_dom, dom_statesMap_of, size_list_to_set by done.
  by rewrite length_fmap.
Qed.

(** The state table never has more entries than the document has
    declarations, and it has fewer as soon as a name is declared twice:
    the repeated declaration is dropped without an error. *)
Lemma statesMap_of_size (states : config.StateYaml) :
  (size (statesMap_of states) ≤ length (config.States states))%nat
  ∧ (size (statesMap_of states) = length (config.States states)
     ↔ NoDup (state.Name <$> config.States states)).
Proof. apply size_insert_all. Qed.

Lemma eventsMap_of_size (events : config.EventYaml) :
  (size (eventsMap_of events) ≤ length (config.Events events))%nat
  ∧ (size (eventsMap_of events) = length (config.Events events)
     ↔ NoDup (event.Name <$> config.Events events)).
Proof. apply size_insert_all. Qed.

(** ** The outcomes of loading *)

(** What [yamlToFSM] returns, by the stage that decides it: the error of
    the first document that fails to decode, wrapped in the message of
    its section, or the machine built from the three documents. *)
Inductive load_outcome `{fsm.Library} `{yaml.Parser bytes}
    (dec : yaml.Decoder) : result FSMWithStatesAndEvents → Prop :=
| load_bad_rules c :
    yaml.Decode (T:=config.EventDescYaml) dec = Err c →
    load_outcome dec (Err (Wrapf c "failed to decode FSM"))
| load_bad_states (d : config.EventDescYaml) dec1 c :
    yaml.Decode dec = Ok (d, dec1) →
    yaml.Decode (T:=config.StateYaml) dec1 = Err c →
    load_outcome dec (Err (Wrapf c "failed to decode states list"))
| load_bad_events (d : config.EventDescYaml) dec1
    (s : config.StateYaml) dec2 c :
    yaml.Decode dec = Ok (d, dec1) →
    yaml.Decode dec1 = Ok (s, dec2) →
    yaml.Decode (T:=config.EventYaml) dec2 = Err c →
    load_outcome dec (Err (Wrapf c "failed to decode events list"))
| load_ok (d : config.EventDescYaml) dec1 (s : config.StateYaml) dec2
    (e : config.EventYaml) dec3 :
    yaml.Decode dec = Ok (d, dec1) →
    yaml.Decode dec1 = Ok (s, dec2) →
    yaml.Decode dec2 = Ok (e, dec3) →
    load_outcome dec (Ok (build d s e)).

Section loading.
Context `{fsm.Library} `{yaml.Parser bytes}.
Implicit Types (dec : yaml.Decoder) (yamlSpec : bytes).
Implicit Types (d : config.EventDescYaml) (s : config.StateYaml).
Implicit Types (e : config.EventYaml) (f : FSMWithStatesAndEvents).

Lemma decode_documents_Ok dec d s e :
  decode_documents dec = Ok (d, s, e)
  ↔ ∃ dec1 dec2 dec3,
      yaml.Decode dec = Ok (d, dec1)
      ∧ yaml.Decode dec1 = Ok (s, dec2)
      ∧ yaml.Decode dec2 = Ok (e, dec3).
Proof.
  unfold_decode. split.
  - intros Hd. repeat case_result. by eexists _, _, _.
  - intros (dec1 & dec2 & dec3 & Hd & Hs & He).
    rewrite Hd; simpl. rewrite Hs; simpl. by rewrite He.
Qed.

(** C1: [yamlToFSM] returns, for every input, one of four outcomes: the
    error of the first, second or third [Decode] under the message of its
    section ("failed to decode FSM", "failed to decode states list",
    "failed to decode events list"), each later document being read from
    where the previous one ended, or the machine [build] makes of the
    three decoded documents. *)
Theorem yamlToFSM_returns yamlSpec :
  load_outcome (yaml.NewDecoder yamlSpec) (yamlToFSM yamlSpec).
Proof.
  unfold yamlToFSM. unfold_decode.
  repeat yaml.case_Decode; by econstructor.
Qed.

Lemma yamlToFSM_Ok yamlSpec f :
  yamlToFSM yamlSpec = Ok f
  ↔ ∃ d s e, decode_documents (yaml.NewDecoder yamlSpec) = Ok (d, s, e)
             ∧ f = build d s e.
Proof.
  unfold yamlToFSM. rewrite bind_eq_Ok. split.
  - intros ([[d s] e] & Hd & [= <-]). eauto.
  - intros (d & s & e & Hd & ->). by exists (d, s, e).
Qed.

(** Every error of [yamlToFSM] is an error of the decoder under
    one of the three section messages; building the machine from decoded
    documents cannot fail, whatever they hold. *)
Theorem yamlToFSM_Err yamlSpec err :
  yamlToFSM yamlSpec = Err err →
  ∃ c msg, err = Wrapf c msg
    ∧ msg ∈ ["failed to decode FSM"; "failed to decode states list";
             "failed to decode events list"].
Proof.
  unfold yamlToFSM. unfold_decode.
  intros Herr. repeat case_result; eexists _, _; (split; [done|set_solver]).
Qed.

(** ** The machine that is built *)

Lemma current_name_build d s e :
  current_name (build d s e) = InitialStateName.
Proof. unfold current_name. simpl. by autorewrite with go. Qed.

Lemma transition_build d s e src event :
  transition (build d s e) src event
  = fsm.delta (eventDescYamlToEventDesc d) src event.
Proof. unfold transition. simpl. by autorewrite with go. Qed.

(** The transition function of the converted rules, on the rules of the
    document. *)
Lemma delta_eventDescYamlToEventDesc d src event :
  fsm.delta (eventDescYamlToEventDesc d) src event
  = config.DestState
    <$> last (filter (λ r, config.Name r = event ∧ src ∈ config.SrcState r)
                     (config.Fsm d)).
Proof.
  unfold fsm.delta.
  rewrite eventDescYamlToEventDesc_fmap, list_filter_fmap, fmap_last.
  by rewrite <-option_fmap_compose.
Qed.

(** C4: the transition function of the machine [build] makes is read
    off the rules of the document: the destination of [event] in [src] is
    the [DestState] of the last rule named [event] with [src] among its
    [SrcState], and there is none when no rule is. Rules that disagree
    raise no error; the later one wins. *)
Theorem build_transitions d s e src event :
  transition (build d s e) src event
  = config.DestState
    <$> last (filter (λ r, config.Name r = event ∧ src ∈ config.SrcState r)
                     (config.Fsm d)).
Proof. by rewrite transition_build, delta_eventDescYamlToEventDesc. Qed.

(** C7: when the three documents of the input decode, [yamlToFSM]
    returns a machine that is in the state named "Initial", and that
    machine and every machine reached from it by firing events hold the
    state table of the second document, the event table of the third
    and the transition function of the rules of the first. The start
    state is fixed by the program, not read from the configuration;
    what the configuration gives is never changed afterwards. *)
Theorem yamlToFSM_invariant yamlSpec d s e :
  decode_documents (yaml.NewDecoder yamlSpec) = Ok (d, s, e) →
  ∃ f0, yamlToFSM yamlSpec = Ok f0
        ∧ current_name f0 = "Initial"
        ∧ ∀ f, reachable f0 f →
               States f = statesMap_of s ∧ Events f = eventsMap_of e
               ∧ ∀ src event, transition f src event
                   = fsm.delta (eventDescYamlToEventDesc d) src event.
Proof.
  intros Hd. exists (build d s e).
  split_and!; [by apply yamlToFSM_Ok; eauto|apply current_name_build|].
  intros f Hf. rewrite (reachable_States _ _ Hf), (reachable_Events _ _ Hf).
  split_and!; [done..|]. intros src event.
  by rewrite (reachable_transition _ _ _ _ Hf), transition_build.
Qed.

(** C29: the machine [build] makes is no larger than the documents it
    is made of: it has as many transition records as the first document
    has rules, and each table has at most one entry per declaration of
    its document, exactly one when no name is declared twice and fewer
    otherwise. *)
Theorem build_sizes d s e :
  length (eventDescYamlToEventDesc d) = length (config.Fsm d)
  ∧ (size (States (build d s e)) ≤ length (config.States s))%nat
  ∧ (size (Events (build d s e)) ≤ length (config.Events e))%nat
  ∧ (size (States (build d s e)) = length (config.States s)
     ↔ NoDup (state.Name <$> config.States s))
  ∧ (size (Events (build d s e)) = length (config.Events e)
     ↔ NoDup (event.Name <$> config.Events e)).
Proof.
  pose proof (statesMap_of_size s). pose proof (eventsMap_of_size e).
  split; [apply eventDescYamlToEventDesc_length | naive_solver].
Qed.
End loading.

(** ** [ChatBotFSM] *)

Section ChatBotFSM.
Context `{fsm.Library} `{yaml.Parser bytes}.
Context (ReadFile : string → result bytes).
Implicit Types (configFile : string) (f : FSMWithStatesAndEvents).

Lemma ChatBotFSM_read_error configFile c :
  ReadFile configFile = Err c →
  ChatBotFSM ReadFile configFile
  = Err (Wrapf c ("failed to read config file " +:+ configFile)).
Proof. unfold ChatBotFSM, read_config. by intros ->. Qed.

Lemma ChatBotFSM_build_error configFile fileBytes c :
  ReadFile configFile = Ok fileBytes →
  yamlToFSM fileBytes = Err c →
  ChatBotFSM ReadFile configFile
  = Err (Wrapf c ("failed to create FSM from contents of file "
                  +:+ configFile)).
Proof.
  intros Hr Hy. unfold ChatBotFSM, read_config. rewrite Hr; simpl.
  by rewrite Hy.
Qed.

(** [ChatBotFSM] returns a machine exactly when the file can be read
    and [yamlToFSM] accepts its contents, and the machine is the one
    [yamlToFSM] returns. *)
Theorem ChatBotFSM_Ok configFile f :
  ChatBotFSM ReadFile configFile = Ok f
  ↔ ∃ fileBytes, ReadFile configFile = Ok fileBytes
                 ∧ yamlToFSM fileBytes = Ok f.
Proof.
  unfold ChatBotFSM, read_config. split.
  - intros Hf. repeat case_result. eauto.
  - intros (fileBytes & Hr & Hy). rewrite Hr; simpl. by rewrite Hy.
Qed.

(** C8: [ChatBotFSM] fails exactly when [ReadFile] fails or [yamlToFSM]
    rejects the bytes read, and its error is that error wrapped under a
    message that names the file: "failed to read config file" in the
    first case, "failed to create FSM from contents of file" in the
    second. *)
Theorem ChatBotFSM_Err configFile err :
  ChatBotFSM ReadFile configFile = Err err
  ↔ (∃ c, ReadFile configFile = Err c
          ∧ err = Wrapf c ("failed to read config file " +:+ configFile))
    ∨ (∃ fileBytes c, ReadFile configFile = Ok fileBytes
          ∧ yamlToFSM fileBytes = Err c
          ∧ err = Wrapf c ("failed to create FSM from contents of file "
                           +:+ configFile)).
Proof.
  split.
  - unfold ChatBotFSM, read_config. intros Hf. repeat case_result; eauto 10.
  - intros [(c & Hr & ->)|(fileBytes & c & Hr & Hy & ->)].
    + by apply ChatBotFSM_read_error.
    + by eapply ChatBotFSM_build_error.
Qed.

(** What an operator reads when [ChatBotFSM] fails: the step that
    failed and the file, then, for a file that was read, the section
    that did not decode, then the text of the library's error. *)
Lemma ChatBotFSM_error_text configFile err :
  ChatBotFSM ReadFile configFile = Err err →
  (∃ c, ReadFile configFile = Err c
        ∧ error_text err
          = "failed to read config file " +:+ configFile +:+ ": "
            +:+ error_text c)
  ∨ (∃ c msg,
        msg ∈ ["failed to decode FSM"; "failed to decode states list";
               "failed to decode events list"]
        ∧ error_text err
          = "failed to create FSM from contents of file " +:+ configFile
            +:+ ": " +:+ msg +:+ ": " +:+ error_text c).
Proof.
  unfold ChatBotFSM, read_config. intros Hf.
  repeat case_result; rewrite string_app_assoc.
  - right. match goal with Hy : yamlToFSM _ = Err _ |- _ =>
      apply yamlToFSM_Err in Hy as (c & msg & -> & Hmsg) end.
    by exists c, msg.
  - left. by eexists.
Qed.

(** The library error at the root of a failure survives the wrapping. *)
Lemma ChatBotFSM_Cause configFile err :
  ChatBotFSM ReadFile configFile = Err err →
  (∃ c, ReadFile configFile = Err c ∧ Cause err = Cause c)
  ∨ (∃ fileBytes c, ReadFile configFile = Ok fileBytes
       ∧ yamlToFSM fileBytes = Err c ∧ Cause err = Cause c).
Proof.
  unfold ChatBotFSM, read_config. intros Hf. repeat case_result; eauto 10.
Qed.
End ChatBotFSM.
