(* ===== verification/Logging.v ===== *)
(** * The loader with its log

    [yamlToFSM] writes four lines to the log of [github.com/golang/glog]:
    one after each document that decodes, and one with the rules as they
    are handed to the library. [Loader] leaves these calls out, since no
    value depends on them. This file puts them back: the log is the
    list of calls to [glog.Infof] in the order they are made, each call
    recorded with its format string and its operand, and a computation
    that logs is a pair of what it wrote and what it returned. The
    functions of [Loader] are written again in that form, statement by
    statement, and the theorems state that the result is the one
    [Loader] computes, and what the log holds in each of the four ways
    [yamlToFSM] can end.

    The text glog makes of a call (the header with time and position,
    the operand printed by the verb of the format) is the library's
    business and is not modelled. *)

From stdpp Require Import gmap strings list.
From S2P Require Import Prelude Integers Domain Fsm Yaml Config Machine.
From S2P Require Import Loader.

Module glog.

(** The operands of the program's calls: an [interface{}] holding a
    value of one of four types. *)
Inductive any : Type :=
| any_EventDescYaml (v : config.EventDescYaml)
| any_StateYaml (v : config.StateYaml)
| any_EventYaml (v : config.EventYaml)
| any_EventDescs (v : list fsm.EventDesc).

(** One call of [glog.Infof(format, args...)]. *)
Record entry : Type := Info {
  format : string;
  args : list any;
}.

#[export] Instance any_eq_dec : EqDecision any.
Proof. solve_decision. Defined.

#[export] Instance entry_eq_dec : EqDecision entry.
Proof. solve_decision. Defined.

(** A computation that logs: the entries it wrote, oldest first, and
    its result. An error ends the computation and keeps what was
    written before. *)
Definition logged (A : Type) : Type := (list entry * result A)%type.

Definition output {A} (c : logged A) : list entry := c.1.
Definition value {A} (c : logged A) : result A := c.2.

#[export] Instance logged_ret : MRet logged := λ A a, ([], Ok a).
#[export] Instance logged_bind : MBind logged := λ A B k c,
  match value c with
  | Ok a => (output c ++ output (k a), value (k a))
  | Err e => (output c, Err e)
  end.

(** [glog.Infof(format, args...)]. *)
Definition Infof (format : string) (args : list any) : logged unit :=
  ([Info format args], Ok ()).

(** A step that does not log. *)
Definition lift {A} (r : result A) : logged A := ([], r).

(** A test of the result of a computation that logs: the log is what
    it was. *)
Definition map_value {A B} (g : result A → result B) (c : logged A)
  : logged B :=
  (output c, g (value c)).

(** ** The laws of the monad, and of forgetting the log *)

Section laws.
Context {A B C : Type}.
Implicit Types (c : logged A) (k : A → logged B) (h : B → logged C).

Lemma bind_ret a k : mret a ≫= k = k a.
Proof. unfold mbind, logged_bind. simpl. by destruct (k a). Qed.

Lemma ret_bind c : c ≫= mret = c.
Proof.
  destruct c as [l [a|e]]; unfold mbind, logged_bind; simpl; [|done].
  by rewrite app_nil_r.
Qed.

Lemma bind_assoc c k h : (c ≫= k) ≫= h = c ≫= (λ a, k a ≫= h).
Proof.
  destruct c as [l [a|e]]; unfold mbind, logged_bind; simpl; [|done].
  destruct (k a) as [l' [b|e]]; simpl; [|done].
  destruct (h b) as [l'' r]; simpl. by rewrite app_assoc.
Qed.

Lemma bind_lift (r : result A) k :
  lift r ≫= k = match r with Ok a => k a | Err e => ([], Err e) end.
Proof. destruct r as [a|e]; [apply bind_ret | done]. Qed.

Lemma bind_Infof fmt ops (c' : logged B) :
  Infof fmt ops ≫= (λ _, c') = (Info fmt ops :: output c', value c').
Proof. done. Qed.

(** Forgetting the log turns the bind of logging computations into the
    bind of results. *)
Lemma value_bind c k : value (c ≫= k) = value c ≫= (λ a, value (k a)).
Proof. by destruct c as [l [a|e]]. Qed.

Lemma value_lift (r : result A) : value (lift r) = r.
Proof. done. Qed.

(** The log only grows: what a computation wrote stays at the front. *)
Lemma output_bind c k : output c `prefix_of` output (c ≫= k).
Proof.
  destruct c as [l [a|e]]; unfold mbind, logged_bind; simpl;
    [by apply prefix_app_r | done].
Qed.
End laws.
End glog.

Export (hints) glog.

(** ** The functions of the loader *)

Module logged.
Section logged.
Context `{fsm.Library} `{yaml.Parser bytes}.
Implicit Types (dec : yaml.Decoder) (yamlSpec : bytes).

(** The line feed of the last format. *)
Definition nl : string := String (Ascii.ascii_of_nat 10) "".

(** The four calls, each with the format of the source and the value
    it prints. *)
Definition log_rules (eventDescYaml : config.EventDescYaml)
  : glog.logged unit :=
  glog.Infof "Successfully decoded FSM from config file: %+v"
    [glog.any_EventDescYaml eventDescYaml].

Definition log_states (states : config.StateYaml) : glog.logged unit :=
  glog.Infof "Successfully decoded states from config file: %+v"
    [glog.any_StateYaml states].

Definition log_events (events : config.EventYaml) : glog.logged unit :=
  glog.Infof "Successfully decoded events from config file: %+v"
    [glog.any_EventYaml events].

Definition log_eventDes (eventDes : list fsm.EventDesc) : glog.logged unit :=
  glog.Infof ("AAAAA" +:+ nl +:+ nl +:+ "%+v" +:+ nl +:+ nl)
    [glog.any_EventDescs eventDes].

(** [func yamlToFSM(yamlSpec []byte)], statement by statement. *)
Definition yamlToFSM yamlSpec : glog.logged FSMWithStatesAndEvents :=
  let dec := yaml.NewDecoder yamlSpec in
  '(eventDescYaml, dec) ← glog.lift (decode_rules dec);
  log_rules eventDescYaml;;
  '(states, dec) ← glog.lift (decode_states dec);
  log_states states;;
  '(events, dec) ← glog.lift (decode_events dec);
  log_events events;;
  let eventDes := eventDescYamlToEventDesc eventDescYaml in
  log_eventDes eventDes;;
  let statesMap := statesMap_of states in
  let eventsMap := eventsMap_of events in
  mret {| FSM := fsm.NewFSM InitialStateName eventDes ∅;
          States := statesMap;
          Events := eventsMap |}.

(** [func ChatBotFSM(configFile string)]: it logs what [yamlToFSM]
    logs. *)
Definition ChatBotFSM (ReadFile : string → result bytes)
    (configFile : string) : glog.logged FSMWithStatesAndEvents :=
  fileBytes ← glog.lift (read_config ReadFile configFile);
  fsm ← glog.map_value
          (wrap_err ("failed to create FSM from contents of file "
                     +:+ configFile))
          (yamlToFSM fileBytes);
  mret fsm.
End logged.

(** ** What is logged, and what is returned *)

(** The log and the result of [yamlToFSM], by the stage that decides
    them: a document that fails to decode ends the function with the
    entries of the documents before it; a load that succeeds has
    written four entries, the three documents in the order they were
    decoded and then the rules as converted for the library. *)
Inductive load_log `{fsm.Library} `{yaml.Parser bytes}
    (dec : yaml.Decoder) : glog.logged FSMWithStatesAndEvents → Prop :=
| log_bad_rules c :
    yaml.Decode (T:=config.EventDescYaml) dec = Err c →
    load_log dec ([], Err (Wrapf c "failed to decode FSM"))
| log_bad_states (d : config.EventDescYaml) dec1 c :
    yaml.Decode dec = Ok (d, dec1) →
    yaml.Decode (T:=config.StateYaml) dec1 = Err c →
    load_log dec
      ([glog.Info "Successfully decoded FSM from config file: %+v"
          [glog.any_EventDescYaml d]],
       Err (Wrapf c "failed to decode states list"))
| log_bad_events (d : config.EventDescYaml) dec1
    (s : config.StateYaml) dec2 c :
    yaml.Decode dec = Ok (d, dec1) →
    yaml.Decode dec1 = Ok (s, dec2) →
    yaml.Decode (T:=config.EventYaml) dec2 = Err c →
    load_log dec
      ([glog.Info "Successfully decoded FSM from config file: %+v"
          [glog.any_EventDescYaml d];
        glog.Info "Successfully decoded states from config file: %+v"
          [glog.any_StateYaml s]],
       Err (Wrapf c "failed to decode events list"))
| log_ok (d : config.EventDescYaml) dec1 (s : config.StateYaml) dec2
    (e : config.EventYaml) dec3 :
    yaml.Decode dec = Ok (d, dec1) →
    yaml.Decode dec1 = Ok (s, dec2) →
    yaml.Decode dec2 = Ok (e, dec3) →
    load_log dec
      ([glog.Info "Successfully decoded FSM from config file: %+v"
          [glog.any_EventDescYaml d];
        glog.Info "Successfully decoded states from config file: %+v"
          [glog.any_StateYaml s];
        glog.Info "Successfully decoded events from config file: %+v"
          [glog.any_EventYaml e];
        glog.Info ("AAAAA" +:+ nl +:+ nl +:+ "%+v" +:+ nl +:+ nl)
          [glog.any_EventDescs (eventDescYamlToEventDesc d)]],
       Ok (build d s e)).

Section theorems.
Context `{fsm.Library} `{yaml.Parser bytes}.
Implicit Types (dec : yaml.Decoder) (yamlSpec : bytes).
Implicit Types (ReadFile : string → result bytes) (configFile : string).

(** Forgetting the log of [yamlToFSM] gives the function of [Loader]. *)
Lemma value_yamlToFSM yamlSpec :
  glog.value (yamlToFSM yamlSpec) = Loader.yamlToFSM yamlSpec.
Proof.
  unfold yamlToFSM, Loader.yamlToFSM, decode_documents.
  rewrite glog.value_bind, glog.value_lift.
  destruct (decode_rules _) as [[d dec1]|c]; simpl; [|done].
  destruct (decode_states dec1) as [[s dec2]|c]; simpl; [|done].
  by destruct (decode_events dec2) as [[e dec3]|c].
Qed.

(** C19: the log of [yamlToFSM] tells how far the load went. A failure
    of the first [Decode] leaves the log empty; a failure of the second
    leaves the entry of the rules, a failure of the third the entries of
    the rules and of the states; a load that succeeds leaves four
    entries, the three documents in the order of decoding and then the
    rules as handed to the library. Every entry is written after the
    document it reports has decoded and before the next one is read. *)
Theorem yamlToFSM_logs yamlSpec :
  load_log (yaml.NewDecoder yamlSpec) (yamlToFSM yamlSpec).
Proof.
  unfold yamlToFSM. unfold_decode.
  unfold mbind, glog.logged_bind, glog.lift, glog.value, glog.output.
  repeat yaml.case_Decode; by econstructor.
Qed.

(** Logging changes no result: [glog.Infof] returns nothing and cannot
    fail, so the values [yamlToFSM] and [ChatBotFSM] return with their
    calls to it in place are the values the functions of [Loader],
    written without them, return. *)
Lemma logging_erased ReadFile configFile yamlSpec :
  glog.value (yamlToFSM yamlSpec) = Loader.yamlToFSM yamlSpec
  ∧ glog.value (ChatBotFSM ReadFile configFile)
    = Loader.ChatBotFSM ReadFile configFile.
Proof.
  split; [apply value_yamlToFSM|].
  unfold ChatBotFSM, Loader.ChatBotFSM.
  rewrite glog.value_bind, glog.value_lift.
  destruct (read_config ReadFile configFile) as [fileBytes|c]; simpl; [|done].
  rewrite glog.value_bind. unfold glog.map_value, glog.value at 1. simpl.
  rewrite value_yamlToFSM. by destruct (Loader.yamlToFSM fileBytes).
Qed.

(** [ChatBotFSM] writes to the log what [yamlToFSM] writes on the
    bytes of the file, and nothing when the file cannot be read: the
    two wrapping steps are silent. *)
Lemma ChatBotFSM_logs ReadFile configFile :
  glog.output (ChatBotFSM ReadFile configFile)
  = match ReadFile configFile with
    | Ok fileBytes => glog.output (yamlToFSM fileBytes)
    | Err _ => []
    end.
Proof.
  unfold ChatBotFSM, read_config. rewrite glog.bind_lift.
  destruct (ReadFile configFile) as [fileBytes|c]; simpl; [|done].
  unfold mbind, glog.logged_bind, glog.map_value.
  destruct (yamlToFSM fileBytes) as [lines [f|c]]; simpl; [|done].
  by rewrite app_nil_r.
Qed.
End theorems.
End logged.
