(* ===== verification/WellFormed.v ===== *)
(** * The shape of the runtime object

    The fields of [FSMWithStatesAndEvents] are exported, so a value of
    the type can hold any two tables. The objects the program makes are
    of a narrower kind: [yamlToFSM] files every record under the name
    the record carries, and nothing assigns a table afterwards. This
    file states that shape as the decidable predicate [well_formed],
    proves that [build] establishes it for every configuration, valid
    or not, that [Fire] preserves it whatever its outcome, and derives
    what it gives the callers of [Current] and [AvailableTransitions]
    when the configuration has no referential integrity: a record that
    is returned is the zero record or carries the name it was asked
    for, never the record of another name. *)

From stdpp Require Import gmap strings list.
From S2P Require Import Prelude Integers Domain Fsm Yaml Config Machine.
From S2P Require Import Loader Runtime.

Section well_formed.
Context `{fsm.Library}.
Implicit Types (f : FSMWithStatesAndEvents) (event n : string).
Implicit Types (d : config.EventDescYaml) (s : config.StateYaml).
Implicit Types (e : config.EventYaml).

(** Every state and every event of the tables is filed under its own
    name. *)
Definition well_formed f : Prop :=
  map_Forall (λ n st, state.Name st = n) (States f)
  ∧ map_Forall (λ n ev, event.Name ev = n) (Events f).

#[export] Instance well_formed_dec f : Decision (well_formed f).
Proof. unfold well_formed. apply _. Defined.

(** ** Established by the loader, preserved by the runtime *)

Lemma build_well_formed d s e : well_formed (build d s e).
Proof.
  split; intros n x Hx; simpl in Hx.
  - by apply statesMap_of_Some in Hx as [_ ?].
  - by apply eventsMap_of_Some in Hx as [_ ?].
Qed.

Lemma Fire_well_formed f event :
  well_formed f → well_formed (Fire f event).1.
Proof. unfold well_formed. by autorewrite with go. Qed.

Lemma reachable_well_formed f0 f :
  well_formed f0 → reachable f0 f → well_formed f.
Proof.
  intros H0. apply (reachable_invariant well_formed); [done|].
  intros f' event. apply Fire_well_formed.
Qed.

(** ** What the shape gives the reader of a table *)

(** Indexing a table of a well-formed object gives the zero record or
    a record with the name asked for. *)
Lemma well_formed_States f n :
  well_formed f →
  States f !!₀ n = zero ∨ state.Name (States f !!₀ n) = n.
Proof.
  intros [Hs _]. unfold go_index.
  destruct (States f !! n) as [st|] eqn:E; [right|by left].
  by apply Hs in E.
Qed.

Lemma well_formed_Events f n :
  well_formed f →
  Events f !!₀ n = zero ∨ event.Name (Events f !!₀ n) = n.
Proof.
  intros [_ He]. unfold go_index.
  destruct (Events f !! n) as [ev|] eqn:E; [right|by left].
  by apply He in E.
Qed.
End well_formed.

Section loaded.
Context `{fsm.Library} `{yaml.Parser bytes}.
Implicit Types (f : FSMWithStatesAndEvents) (yamlSpec : bytes).

(** C12: every object the program makes is well formed: in the object
    [yamlToFSM] returns, and in every object reached from it by firing
    events, accepted or rejected, each state and each event of the
    tables is filed under the name it carries. This holds for every
    input that decodes, whether or not its rules name declared states
    and events. *)
Theorem yamlToFSM_well_formed yamlSpec f0 f :
  yamlToFSM yamlSpec = Ok f0 → reachable f0 f → well_formed f.
Proof.
  intros (d & s & e & _ & ->)%yamlToFSM_Ok.
  apply reachable_well_formed, build_well_formed.
Qed.
End loaded.
