(* ===== verification/Integrity.v ===== *)
(** * Referential integrity of a configuration

    Section 4.2 of the specification asks the builder to reject a
    configuration whose rules name an undeclared state or event, or that
    declares a name twice. [yamlToFSM] makes no such check. This file
    states the conditions as decidable predicates on the three decoded
    documents, and proves what they buy: without repeated names the
    tables hold every declaration, and on a machine built from a
    configuration with referential integrity the current state is always
    a declared one. It also says what [Fire] does on a built machine in
    terms of the rules of the document, integrity or not. [Queries]
    builds on it. *)

From stdpp Require Import gmap strings list.
From S2P Require Import Prelude Domain Fsm Yaml Config Machine Loader Runtime.

Section integrity.
Implicit Types (d : config.EventDescYaml) (s : config.StateYaml).
Implicit Types (e : config.EventYaml) (r : config.FsmEntry) (n : string).

Definition declared_state s n : Prop :=
  n ∈ state.Name <$> config.States s.

Definition declared_event e n : Prop :=
  n ∈ event.Name <$> config.Events e.

(** A rule names a declared event and declared states only. *)
Definition rule_ok s e r : Prop :=
  declared_event e (config.Name r)
  ∧ Forall (declared_state s) (config.SrcState r)
  ∧ declared_state s (config.DestState r).

(** The start state is declared and every rule is in order. *)
Definition referential_integrity d s e : Prop :=
  declared_state s InitialStateName ∧ Forall (rule_ok s e) (config.Fsm d).

(** No state name and no event name is declared twice. *)
Definition unique_names s e : Prop :=
  NoDup (state.Name <$> config.States s)
  ∧ NoDup (event.Name <$> config.Events e).

#[export] Instance declared_state_dec s n : Decision (declared_state s n).
Proof. unfold declared_state. apply _. Defined.

#[export] Instance declared_event_dec e n : Decision (declared_event e n).
Proof. unfold declared_event. apply _. Defined.

#[export] Instance rule_ok_dec s e r : Decision (rule_ok s e r).
Proof. unfold rule_ok. apply _. Defined.

#[export] Instance referential_integrity_dec d s e :
  Decision (referential_integrity d s e).
Proof. unfold referential_integrity. apply _. Defined.

#[export] Instance unique_names_dec s e : Decision (unique_names s e).
Proof. unfold unique_names. apply _. Defined.

(** ** Declared names and the tables *)

Lemma declared_state_lookup s n :
  declared_state s n ↔ is_Some (statesMap_of s !! n).
Proof.
  by rewrite <-elem_of_dom, dom_statesMap_of, elem_of_list_to_set.
Qed.

Lemma declared_event_lookup e n :
  declared_event e n ↔ is_Some (eventsMap_of e !! n).
Proof.
  by rewrite <-elem_of_dom, dom_eventsMap_of, elem_of_list_to_set.
Qed.

(** Indexing a table with a declared name gives a declaration of that
    name. *)
Lemma declared_state_index s n :
  declared_state s n →
  statesMap_of s !!₀ n ∈ config.States s
  ∧ state.Name (statesMap_of s !!₀ n) = n.
Proof.
  intros [st Hst]%declared_state_lookup.
  rewrite (go_index_Some _ _ _ Hst). by apply statesMap_of_Some.
Qed.

Lemma declared_event_index e n :
  declared_event e n →
  eventsMap_of e !!₀ n ∈ config.Events e
  ∧ event.Name (eventsMap_of e !!₀ n) = n.
Proof.
  intros [ev Hev]%declared_event_lookup.
  rewrite (go_index_Some _ _ _ Hev). by apply eventsMap_of_Some.
Qed.

(** When no name is declared twice, each table holds exactly the
    declarations of its document, each under its own name: nothing is
    overwritten. *)
Lemma unique_names_tables s e :
  unique_names s e →
  (∀ st, st ∈ config.States s ↔ statesMap_of s !! state.Name st = Some st)
  ∧ (∀ ev, ev ∈ config.Events e
           ↔ eventsMap_of e !! event.Name ev = Some ev).
Proof.
  intros [Hs He]. split.
  - intros st. split; [by apply statesMap_of_NoDup|].
    by intros [? _]%statesMap_of_Some.
  - intros ev. split; [by apply eventsMap_of_NoDup|].
    by intros [? _]%eventsMap_of_Some.
Qed.

(** Under integrity the transition function of the rules stays among the
    declared names. *)
Lemma integrity_delta d s e src event dst :
  referential_integrity d s e →
  fsm.delta (eventDescYamlToEventDesc d) src event = Some dst →
  declared_event e event ∧ declared_state s src ∧ declared_state s dst.
Proof.
  intros [_ Hrules] (r' & Hr' & [Hname Hsrc] & Hdst)%fsm.delta_Some.
  apply elem_of_eventDescYamlToEventDesc in Hr' as (r & Hr & ->).
  rewrite Forall_forall in Hrules.
  destruct (Hrules r Hr) as (Hev & Hsrcs & Hd). simpl in *. subst.
  split_and!; [done| |done].
  rewrite Forall_forall in Hsrcs. by apply Hsrcs.
Qed.
End integrity.

(** ** What integrity buys at run time *)

Section runtime_integrity.
Context `{fsm.Library}.
Implicit Types (d : config.EventDescYaml) (s : config.StateYaml).
Implicit Types (e : config.EventYaml) (f : FSMWithStatesAndEvents).

(** What a client sees of a machine built from [d], [s] and [e]. *)
Lemma reachable_build d s e f :
  reachable (build d s e) f →
  States f = statesMap_of s ∧ Events f = eventsMap_of e
  ∧ ∀ src event, transition f src event
                 = fsm.delta (eventDescYamlToEventDesc d) src event.
Proof.
  intros Hr. split_and!.
  - by rewrite (reachable_States _ _ Hr).
  - by rewrite (reachable_Events _ _ Hr).
  - intros src event.
    by rewrite (reachable_transition _ _ _ _ Hr), transition_build.
Qed.

(** The current state of an object reached from a built machine is
    ["Initial"] or the destination of a rule of the configuration,
    whether or not the configuration declares those states. *)
Lemma reachable_build_current_name d s e f :
  reachable (build d s e) f →
  current_name f ∈ "Initial" :: (config.DestState <$> config.Fsm d).
Proof.
  intros [Hc|(src & ev & Ht)]%reachable_current_name.
  - rewrite Hc, current_name_build. left.
  - right. rewrite transition_build in Ht.
    apply fsm.delta_destination in Ht.
    unfold fsm.destinations in Ht.
    by rewrite eventDescYamlToEventDesc_fmap, <-list_fmap_compose in Ht.
Qed.

(** C10: what [Fire] does on an object reached from a built machine, read
    off the rules of the document. If some rule named [event] has the
    current state among its [SrcState], the call succeeds and the machine
    is in the [DestState] of the last such rule, a declared state
    reached by a declared event when the configuration has referential
    integrity; if none has, the call fails with the illegal-transition
    error that names the current state and the event, and the object is
    unchanged. *)
Theorem Fire_reachable d s e f event :
  reachable (build d s e) f →
  match last (filter (λ r, config.Name r = event
                           ∧ current_name f ∈ config.SrcState r)
                     (config.Fsm d)) with
  | Some r =>
      (Fire f event).2 = None
      ∧ current_name (Fire f event).1 = config.DestState r
      ∧ (referential_integrity d s e →
         declared_event e event ∧ declared_state s (config.DestState r))
  | None =>
      Fire f event
      = (f, Some (fsm.IllegalTransitionError (current_name f) event))
  end.
Proof.
  intros (_ & _ & Ht)%reachable_build.
  specialize (Ht (current_name f) event).
  pose proof (integrity_delta d s e (current_name f) event) as Hd.
  rewrite delta_eventDescYamlToEventDesc in Ht, Hd.
  destruct (last _) as [r|]; simpl in Ht, Hd.
  - apply Fire_legal in Ht as (f' & -> & Hf' & _). split_and!; [done..|].
    intros Hi. by destruct (Hd _ Hi eq_refl) as (? & _ & ?).
  - by apply Fire_illegal.
Qed.

Lemma reachable_declared_state d s e f :
  referential_integrity d s e → reachable (build d s e) f →
  declared_state s (current_name f).
Proof.
  intros Hi [Hc|(src & ev & Ht)]%reachable_current_name.
  - rewrite Hc, current_name_build. apply Hi.
  - rewrite transition_build in Ht.
    by apply (integrity_delta d s e src ev) in Ht as (_ & _ & ?).
Qed.

End runtime_integrity.
