(* ===== verification/Graph.v ===== *)
(** * The states a machine can be in

    The rules of a configuration are a graph on state names. This file
    computes the set of states reachable from the start state by
    iterating "add every successor" as many times as there are rules,
    proves that this many rounds reach the closure, and proves that the
    set is exactly the set of states in which an object built by
    [yamlToFSM] can be found after any sequence of events. The iteration
    count plays the part of fuel: more rounds add nothing.

    On the computed set the file decides two properties of a
    configuration that the program does not check: [deadlock_free], no
    reachable state is without an outgoing rule, and [recurrent], the
    start state can be reached again from every reachable state. The
    last section proves what they mean for a client of the built
    machine: every computed state is reached by a sequence of accepted
    events no longer than the rule list, and in a recurrent
    configuration a client can always bring the machine back to
    ["Initial"]. *)

From stdpp Require Import gmap strings list.
From S2P Require Import Prelude Domain Fsm Config Machine Loader Runtime.
From S2P Require Import Integrity.

Module graph.
Section graph.
Implicit Types (rules : list fsm.EventDesc) (src dst start : string).
Implicit Types (X Y : gset string) (evs : list string).

(** The state after the events [evs], starting in [src]: an event
    without a transition is skipped. *)
Definition walk rules src evs : string :=
  foldl (λ st event, default st (fsm.delta rules st event)) src evs.

(** The states one event away from [src]. *)
Definition successors rules src : list string :=
  omap (fsm.delta rules src) (fsm.Name <$> rules).

(** One round: the set with the successors of its members. *)
Definition expand rules X : gset string :=
  X ∪ list_to_set (elements X ≫= successors rules).

(** [n] rounds from the start state. *)
Definition explore (n : nat) rules start : gset string :=
  Nat.iter n (expand rules) {[start]}.

(** The reachable states: one round per rule is enough. *)
Definition reachable_states rules start : gset string :=
  explore (length rules) rules start.

(** A state without outgoing transition. *)
Definition terminal rules src : Prop := successors rules src = [].

(** The state after the events [evs] when each of them has a
    transition, and nothing when one of them has none. *)
Fixpoint path rules src evs : option string :=
  match evs with
  | [] => Some src
  | event :: evs => dst ← fsm.delta rules src event; path rules dst evs
  end.

(** No reachable state is terminal. *)
Definition deadlock_free rules start : Prop :=
  set_Forall (λ st, ¬ terminal rules st) (reachable_states rules start).

(** The start state is reachable from every reachable state. *)
Definition recurrent rules start : Prop :=
  set_Forall (λ st, start ∈ reachable_states rules st)
    (reachable_states rules start).

#[export] Instance terminal_dec rules src : Decision (terminal rules src).
Proof. unfold terminal. apply _. Defined.

#[export] Instance deadlock_free_dec rules start :
  Decision (deadlock_free rules start).
Proof. unfold deadlock_free. apply _. Defined.

#[export] Instance recurrent_dec rules start :
  Decision (recurrent rules start).
Proof. unfold recurrent. apply _. Defined.

(** ** Successors *)

Lemma elem_of_successors rules src dst :
  dst ∈ successors rules src ↔ ∃ event, fsm.delta rules src event = Some dst.
Proof.
  unfold successors. rewrite list_elem_of_omap. split.
  - intros (event & _ & Hd). by exists event.
  - intros [event Hd]. exists event. split; [|done].
    apply fsm.delta_Some in Hd as (d & Hd & [<- _] & _).
    by apply list_elem_of_fmap_2.
Qed.

Lemma terminal_spec rules src :
  terminal rules src ↔ ∀ event, fsm.delta rules src event = None.
Proof.
  unfold terminal. split.
  - intros Hnil event. apply eq_None_not_Some. intros [dst Hd].
    assert (dst ∈ successors rules src) as Hin
      by (apply elem_of_successors; eauto).
    rewrite Hnil in Hin. by apply elem_of_nil in Hin.
  - intros Hno. apply elem_of_nil_inv. intros dst.
    rewrite elem_of_successors. intros [event Hd]. by rewrite Hno in Hd.
Qed.

(** A state that is not terminal has an event to leave by. *)
Lemma not_terminal rules src :
  ¬ terminal rules src ↔ ∃ event, is_Some (fsm.delta rules src event).
Proof.
  rewrite terminal_spec. split.
  - intros Hnot. destruct (successors rules src) as [|dst l] eqn:E.
    + destruct Hnot. by apply terminal_spec.
    + assert (dst ∈ successors rules src) as [event Hd]%elem_of_successors
        by (rewrite E; left).
      exists event. by rewrite Hd.
  - intros [event [dst Hd]] Hno. by rewrite Hno in Hd.
Qed.

Lemma elem_of_expand rules X dst :
  dst ∈ expand rules X
  ↔ dst ∈ X ∨ ∃ src event, src ∈ X ∧ fsm.delta rules src event = Some dst.
Proof.
  unfold expand.
  rewrite elem_of_union, elem_of_list_to_set, list_elem_of_bind.
  setoid_rewrite elem_of_successors. setoid_rewrite elem_of_elements.
  naive_solver.
Qed.

Lemma expand_subseteq rules X : X ⊆ expand rules X.
Proof. intros x. rewrite elem_of_expand. auto. Qed.

Lemma expand_mono rules X Y : X ⊆ Y → expand rules X ⊆ expand rules Y.
Proof. intros HXY x. rewrite !elem_of_expand. set_solver. Qed.

(** ** Walks *)

Lemma walk_snoc rules src evs event :
  walk rules src (evs ++ [event])
  = default (walk rules src evs)
      (fsm.delta rules (walk rules src evs) event).
Proof. unfold walk. by rewrite foldl_snoc. Qed.

Lemma walk_app rules src evs1 evs2 :
  walk rules src (evs1 ++ evs2) = walk rules (walk rules src evs1) evs2.
Proof. apply foldl_app. Qed.

(** A set that holds the start state and is closed under [expand] holds
    the end of every walk. *)
Lemma walk_closed rules X src evs :
  src ∈ X → expand rules X ⊆ X → walk rules src evs ∈ X.
Proof.
  intros Hsrc Hclosed. induction evs as [|event evs IH] using rev_ind;
    [done|].
  rewrite walk_snoc.
  destruct (fsm.delta _ _ event) as [dst|] eqn:E; [|done].
  apply Hclosed, elem_of_expand. right. eauto.
Qed.

(** ** Paths *)

Lemma path_app rules src evs1 evs2 :
  path rules src (evs1 ++ evs2)
  = path rules src evs1 ≫= λ dst, path rules dst evs2.
Proof.
  revert src. induction evs1 as [|event evs1 IH]; intros src; simpl; [done|].
  destruct (fsm.delta rules src event) as [dst|]; simpl; [apply IH|done].
Qed.

Lemma path_snoc rules src evs event :
  path rules src (evs ++ [event])
  = path rules src evs ≫= λ dst, fsm.delta rules dst event.
Proof.
  rewrite path_app. destruct (path rules src evs) as [dst|]; simpl; [|done].
  by destruct (fsm.delta rules dst event).
Qed.

(** A path is a walk on which no event is skipped. *)
Lemma path_walk rules src evs dst :
  path rules src evs = Some dst → walk rules src evs = dst.
Proof.
  revert src. induction evs as [|event evs IH]; intros src; simpl.
  - by intros [= <-].
  - destruct (fsm.delta rules src event) as [mid|]; simpl; [apply IH|done].
Qed.

(** ** Exploration *)

Lemma explore_S n rules start :
  explore (S n) rules start = expand rules (explore n rules start).
Proof. done. Qed.

Lemma explore_start n rules start : start ∈ explore n rules start.
Proof.
  induction n as [|n IH]; [set_solver|].
  rewrite explore_S. by apply expand_subseteq.
Qed.

(** Whatever is explored is the end of a walk. *)
Lemma explore_walk n rules start dst :
  dst ∈ explore n rules start → ∃ evs, walk rules start evs = dst.
Proof.
  revert dst. induction n as [|n IH]; intros dst.
  - intros ->%elem_of_singleton. by exists [].
  - rewrite explore_S, elem_of_expand.
    intros [?|(src & event & [evs <-]%IH & Hd)]; [by apply IH|].
    exists (evs ++ [event]). by rewrite walk_snoc, Hd.
Qed.

(** Whatever is explored in [n] rounds is at the end of a path of at
    most [n] events. *)
Lemma explore_path n rules start dst :
  dst ∈ explore n rules start →
  ∃ evs, (length evs ≤ n)%nat ∧ path rules start evs = Some dst.
Proof.
  revert dst. induction n as [|n IH]; intros dst.
  - intros ->%elem_of_singleton. by exists [].
  - rewrite explore_S, elem_of_expand.
    intros [(evs & ? & ?)%IH|(src & event & (evs & ? & Hp)%IH & Hd)].
    + exists evs. split; [lia | done].
    + exists (evs ++ [event]). rewrite length_app, path_snoc, Hp. simpl.
      split; [lia | done].
Qed.

(** Whatever is explored is the start state or a destination of a rule. *)
Lemma explore_bounded n rules start :
  explore n rules start ⊆ {[start]} ∪ list_to_set (fsm.destinations rules).
Proof.
  induction n as [|n IH]; [set_solver|].
  rewrite explore_S. intros dst. rewrite elem_of_expand.
  intros [?|(src & event & _ & Hd%fsm.delta_destination)]; [by apply IH|].
  set_solver.
Qed.

(** A round that adds nothing is followed by rounds that add nothing. *)
Lemma explore_closed_S n rules start :
  expand rules (explore n rules start) ⊆ explore n rules start →
  expand rules (explore (S n) rules start) ⊆ explore (S n) rules start.
Proof.
  intros Hc. rewrite explore_S.
  assert (expand rules (explore n rules start) = explore n rules start) as ->;
    [|done].
  apply set_eq. intros x. split; [apply Hc | apply expand_subseteq].
Qed.

(** Each round adds a state, until a round adds nothing. *)
Lemma explore_progress n rules start :
  expand rules (explore n rules start) ⊆ explore n rules start
  ∨ (n + 1 ≤ size (explore n rules start))%nat.
Proof.
  induction n as [|n [IH|IH]].
  - right. change (explore 0 rules start) with ({[start]} : gset string).
    by rewrite size_singleton.
  - left. by apply explore_closed_S.
  - destruct (decide (expand rules (explore (S n) rules start)
                      ⊆ explore (S n) rules start)) as [|Hopen]; [by left|].
    right. rewrite explore_S.
    assert (explore n rules start ⊂ expand rules (explore n rules start))
      as Hlt%subset_size; [|lia].
    split; [apply expand_subseteq|]. intros Hc. apply Hopen.
    rewrite explore_S. by apply explore_closed_S.
Qed.

(** After one round per rule the set is closed. *)
Lemma reachable_states_closed rules start :
  expand rules (reachable_states rules start) ⊆ reachable_states rules start.
Proof.
  unfold reachable_states.
  destruct (explore_progress (length rules) rules start) as [|Hsize]; [done|].
  pose proof (explore_bounded (length rules) rules start) as Hb.
  assert (size ({[start]} ∪ list_to_set (fsm.destinations rules) : gset string)
          ≤ 1 + length rules)%nat as Hle.
  { rewrite size_union_alt, size_singleton. apply Nat.add_le_mono_l.
    etrans; [apply subseteq_size, subseteq_difference_l; reflexivity|].
    etrans; [apply size_list_to_set_le|].
    unfold fsm.destinations. by rewrite length_fmap. }
  assert (explore (length rules) rules start
          = {[start]} ∪ list_to_set (fsm.destinations rules)) as Heq.
  { apply set_eq. apply set_subseteq_size_equiv; [done|lia]. }
  intros dst. rewrite elem_of_expand.
  intros [?|(src & event & _ & Hd%fsm.delta_destination)]; [done|].
  rewrite Heq. set_solver.
Qed.

(** The reachable states are the ends of the walks. *)
Lemma elem_of_reachable_states rules start dst :
  dst ∈ reachable_states rules start ↔ ∃ evs, walk rules start evs = dst.
Proof.
  split; [apply explore_walk|]. intros [evs <-].
  apply walk_closed; [apply explore_start | apply reachable_states_closed].
Qed.

(** The reachable states are the ends of the paths, and of the paths
    no longer than the rule list. *)
Lemma elem_of_reachable_states_path rules start dst :
  dst ∈ reachable_states rules start
  ↔ ∃ evs, (length evs ≤ length rules)%nat ∧ path rules start evs = Some dst.
Proof.
  split; [apply explore_path|]. intros (evs & _ & Hp%path_walk).
  apply elem_of_reachable_states. by exists evs.
Qed.

(** Reachability composes. *)
Lemma reachable_states_trans rules start mid dst :
  mid ∈ reachable_states rules start → dst ∈ reachable_states rules mid →
  dst ∈ reachable_states rules start.
Proof.
  rewrite !elem_of_reachable_states. intros [evs1 <-] [evs2 <-].
  exists (evs1 ++ evs2). apply walk_app.
Qed.

Lemma deadlock_free_spec rules start :
  deadlock_free rules start
  ↔ ∀ evs, ∃ event, is_Some (fsm.delta rules (walk rules start evs) event).
Proof.
  unfold deadlock_free, set_Forall.
  setoid_rewrite elem_of_reachable_states. setoid_rewrite not_terminal.
  naive_solver.
Qed.

Lemma recurrent_spec rules start :
  recurrent rules start
  ↔ ∀ evs, ∃ evs', (length evs' ≤ length rules)%nat
                   ∧ path rules (walk rules start evs) evs' = Some start.
Proof.
  unfold recurrent, set_Forall.
  setoid_rewrite elem_of_reachable_states_path at 2.
  setoid_rewrite elem_of_reachable_states. naive_solver.
Qed.

(** More rounds add nothing. *)
Lemma explore_enough n rules start :
  (length rules ≤ n)%nat →
  explore n rules start = reachable_states rules start.
Proof.
  intros Hn. apply set_eq. intros dst. rewrite elem_of_reachable_states.
  split; [apply explore_walk|]. intros [evs <-].
  apply walk_closed; [apply explore_start|].
  induction Hn as [|n Hn IH]; [apply reachable_states_closed|].
  by apply explore_closed_S.
Qed.
End graph.
End graph.

Export (hints) graph.

(** ** The graph of a built machine *)

Section built.
Context `{fsm.Library}.
Implicit Types (d : config.EventDescYaml) (s : config.StateYaml).
Implicit Types (e : config.EventYaml) (f : FSMWithStatesAndEvents).

(** The state of the machine after a sequence of events is the end of
    the walk along those events. *)
Lemma current_name_run d s e evs :
  current_name (run (build d s e) evs)
  = graph.walk (eventDescYamlToEventDesc d) InitialStateName evs.
Proof.
  induction evs as [|event evs IH] using rev_ind.
  - apply current_name_build.
  - rewrite run_snoc, graph.walk_snoc, Fire_current_name, <-IH.
    by rewrite (reachable_transition (build d s e)), transition_build
      by apply reachable_run.
Qed.

(** The current state of a reachable object is a reachable state of the
    graph. *)
Lemma reachable_current_state d s e f :
  reachable (build d s e) f →
  current_name f
  ∈ graph.reachable_states (eventDescYamlToEventDesc d) InitialStateName.
Proof.
  intros [evs ->]%reachable_inv. rewrite current_name_run.
  apply graph.elem_of_reachable_states. by exists evs.
Qed.

(** The machine walks where the graph walks, from any reachable
    object. *)
Lemma current_name_run_from d s e f evs :
  reachable (build d s e) f →
  current_name (run f evs)
  = graph.walk (eventDescYamlToEventDesc d) (current_name f) evs.
Proof.
  intros [evs0 ->]%reachable_inv.
  by rewrite <-run_app, !current_name_run, graph.walk_app.
Qed.

(** The events of a path are all accepted, and lead the machine to the
    end of the path. *)
Lemma run_path d s e f evs dst :
  reachable (build d s e) f →
  graph.path (eventDescYamlToEventDesc d) (current_name f) evs = Some dst →
  Forall (λ err, err = None) (run_errors f evs)
  ∧ current_name (run f evs) = dst.
Proof.
  revert f. induction evs as [|event evs IH]; intros f Hr; simpl.
  - by intros [= <-].
  - intros (mid & Hd & Hp)%bind_Some.
    rewrite <-(transition_build d s e), <-(reachable_transition _ f) in Hd
      by done.
    apply Fire_legal in Hd as (f' & Hf & <- & _).
    assert (reachable (build d s e) f') as Hr'.
    { replace f' with (Fire f event).1 by by rewrite Hf. by constructor. }
    rewrite Hf. simpl. destruct (IH f' Hr' Hp). by split; [constructor|].
Qed.

(** C23: every state that the exploration computes can be reached by a
    client: there is a sequence of events, no longer than the rule
    list, each of which [Fire] accepts, that takes the new machine to
    that state; and no sequence of events takes it to any other
    state. *)
Theorem reachable_states_live d s e st :
  st ∈ graph.reachable_states (eventDescYamlToEventDesc d) "Initial"
  ↔ ∃ evs, (length evs ≤ length (config.Fsm d))%nat
           ∧ Forall (λ err, err = None) (run_errors (build d s e) evs)
           ∧ current_name (run (build d s e) evs) = st.
Proof.
  split.
  - intros (evs & Hlen & Hp)%graph.elem_of_reachable_states_path.
    rewrite eventDescYamlToEventDesc_length in Hlen.
    exists evs. split; [done|]. apply (run_path d s e); [constructor|].
    by rewrite current_name_build.
  - intros (evs & _ & _ & <-).
    apply (reachable_current_state d s e), reachable_run.
Qed.

(** In a recurrent configuration a client can always start over:
    from every object reached from the new machine there is a sequence
    of events, no longer than the rule list, each of which [Fire]
    accepts, that brings the machine back to the state ["Initial"]. *)
Theorem recurrent_returns d s e f :
  graph.recurrent (eventDescYamlToEventDesc d) "Initial" →
  reachable (build d s e) f →
  ∃ evs, (length evs ≤ length (config.Fsm d))%nat
         ∧ Forall (λ err, err = None) (run_errors f evs)
         ∧ current_name (run f evs) = "Initial".
Proof.
  intros Hrec Hr.
  pose proof (Hrec _ (reachable_current_state d s e f Hr)) as Hback.
  apply graph.elem_of_reachable_states_path in Hback as (evs & Hlen & Hp).
  rewrite eventDescYamlToEventDesc_length in Hlen.
  exists evs. split; [done|]. by apply (run_path d s e).
Qed.

(** C24: the states in which an object built by [yamlToFSM] can be found
    are exactly the states that exploring the rules from ["Initial"]
    computes, one round per rule: every computed state is the current
    state after some sequence of events, and no sequence of events leads
    outside the computed set. *)
Theorem reachable_states_spec d s e st :
  st ∈ graph.reachable_states (eventDescYamlToEventDesc d) "Initial"
  ↔ ∃ f, reachable (build d s e) f ∧ current_name f = st.
Proof.
  rewrite graph.elem_of_reachable_states. split.
  - intros [evs <-]. exists (run (build d s e) evs).
    split; [apply reachable_run | apply current_name_run].
  - intros (f & [evs ->]%reachable_inv & <-). exists evs.
    symmetry. apply current_name_run.
Qed.
End built.
