(* ===== verification/Queries.v ===== *)
(** * The queries: [Current] and [AvailableTransitions]

    The two methods [fsm.go] defines on [FSMWithStatesAndEvents].
    [Current] indexes the state table with the name of the current state;
    [AvailableTransitions] indexes the event table with every event name
    the library reports as available, in the library's order. Both index
    a Go map, so a name that is in no table yields the zero record and no
    error.

    The theorems say what the methods return: on any object, in terms of
    the tables; on a well-formed object, a record with the name asked
    for or the zero record; on an object reached from a machine built by
    [yamlToFSM] from a configuration with referential integrity, a
    declared state named as the current state, and the declared events
    that [Fire] accepts, no more and no fewer. They bound the result of
    [AvailableTransitions] by the rules of the configuration, and say
    when it is never empty. *)

From stdpp Require Import gmap strings list.
From S2P Require Import Prelude Integers Domain Fsm Config Machine Loader Runtime.
From S2P Require Import WellFormed Integrity Graph.

(** The package of [fsm.go]; its two methods share their names with the
    library's. *)
Module statemachine.

Section queries.
Context `{fsm.Library}.
Implicit Types (f : FSMWithStatesAndEvents) (event : string).

(** [func (f FSMWithStatesAndEvents) Current() State]. *)
Definition Current f : State :=
  States f !!₀ fsm.Current (FSM f).

(** The body of the loop of [AvailableTransitions]:
    [res = append(res, f.Events[t])]. *)
Definition append_event f (res : list Event) (t : string) : list Event :=
  res ++ [Events f !!₀ t].

(** [func (f FSMWithStatesAndEvents) AvailableTransitions() []Event]. *)
Definition AvailableTransitions f : list Event :=
  let transitions := fsm.AvailableTransitions (FSM f) in
  foldl (append_event f) [] transitions.

(** ** [Current] *)

Lemma Current_declared f s :
  States f !! current_name f = Some s → Current f = s.
Proof. unfold Current. auto with go. Qed.

Lemma Current_undeclared f :
  States f !! current_name f = None → Current f = zero.
Proof. unfold Current. auto with go. Qed.

(** ** [AvailableTransitions] *)

Lemma foldl_append_event f res ts :
  foldl (append_event f) res ts = res ++ (go_index (Events f) <$> ts).
Proof. apply foldl_append. Qed.

(** The loop maps the event table over the library's list. *)
Lemma AvailableTransitions_fmap f :
  AvailableTransitions f
  = go_index (Events f) <$> fsm.AvailableTransitions (FSM f).
Proof. unfold AvailableTransitions. by rewrite foldl_append_event. Qed.

(** C9: the loop of [AvailableTransitions] returns one record per name
    the library lists, in the library's order: the [i]-th record is the
    event table indexed with the [i]-th name, the zero event when the
    table has no such name. *)
Theorem AvailableTransitions_lookup f i :
  AvailableTransitions f !! i
  = (λ t, default zero (Events f !! t))
    <$> fsm.AvailableTransitions (FSM f) !! i.
Proof. by rewrite AvailableTransitions_fmap, list_lookup_fmap. Qed.

Lemma AvailableTransitions_length f :
  length (AvailableTransitions f)
  = length (fsm.AvailableTransitions (FSM f)).
Proof. by rewrite AvailableTransitions_fmap, length_fmap. Qed.

Lemma elem_of_AvailableTransitions f e :
  e ∈ AvailableTransitions f
  ↔ ∃ t, is_Some (transition f (current_name f) t) ∧ e = Events f !!₀ t.
Proof.
  rewrite AvailableTransitions_fmap, list_elem_of_fmap.
  unfold transition, current_name.
  setoid_rewrite fsm.AvailableTransitions_spec. naive_solver.
Qed.

(** [AvailableTransitions] returns the empty list exactly when the
    transition function has no entry for the current state: a terminal
    state is reported by an empty result, not by an error. *)
Lemma AvailableTransitions_nil f :
  AvailableTransitions f = []
  ↔ ∀ t, transition f (current_name f) t = None.
Proof.
  rewrite AvailableTransitions_fmap. unfold transition, current_name. split.
  - intros Hnil%fmap_nil_inv t. apply eq_None_not_Some.
    rewrite <-fsm.AvailableTransitions_spec, Hnil. apply not_elem_of_nil.
  - intros Hno. destruct (fsm.AvailableTransitions (FSM f)) as [|t ts] eqn:E;
      [done|].
    assert (t ∈ fsm.AvailableTransitions (FSM f)) as Ht by (rewrite E; left).
    apply fsm.AvailableTransitions_spec in Ht as [dst Hdst].
    by rewrite Hno in Hdst.
Qed.

(** ** The queries around a [Fire] *)

(** An event that is rejected changes nothing a client can see:
    the object is the same, and [Current] and [AvailableTransitions]
    return what they returned before. *)
Theorem Fire_rejected_unchanged f event err :
  (Fire f event).2 = Some err →
  (Fire f event).1 = f ∧ Current (Fire f event).1 = Current f
  ∧ AvailableTransitions (Fire f event).1 = AvailableTransitions f.
Proof.
  destruct (Fire f event) as [f' e] eqn:E. simpl. intros ->.
  by apply Fire_inv in E as (_ & -> & _).
Qed.

(** [Fire] succeeds exactly on the names the library lists as
    available. *)
Lemma Fire_succeeds_iff f event :
  (Fire f event).2 = None ↔ event ∈ fsm.AvailableTransitions (FSM f).
Proof.
  by rewrite Fire_error, fsm.Event_succeeds_iff.
Qed.

(** On a well-formed object, and so on every object the program
    makes, a query never returns the record of another name: [Current]
    returns the zero state or a state named as the current state, and
    the [i]-th event of [AvailableTransitions] is the zero event or
    carries the [i]-th name the library lists. No referential integrity
    of the configuration is needed for this. *)
Theorem queries_name_or_zero f :
  well_formed f →
  (Current f = zero ∨ state.Name (Current f) = current_name f)
  ∧ Forall2 (λ ev t, ev = zero ∨ event.Name ev = t)
      (AvailableTransitions f) (fsm.AvailableTransitions (FSM f)).
Proof.
  intros Hwf. split; [by apply well_formed_States|].
  rewrite AvailableTransitions_fmap. apply Forall2_fmap_l, Forall_Forall2_diag.
  apply Forall_forall. intros t _. by apply well_formed_Events.
Qed.
End queries.

(** ** On a machine built from a configuration *)

Section built.
Context `{fsm.Library}.
Implicit Types (d : config.EventDescYaml) (s : config.StateYaml).
Implicit Types (e : config.EventYaml) (f : FSMWithStatesAndEvents).

(** [Current] on a new machine returns the last declaration of
    ["Initial"] in the state list, or the zero state when the list
    declares no such state. *)
Lemma Current_build d s e :
  Current (build d s e)
  = default zero (last_with state.Name InitialStateName (config.States s)).
Proof.
  unfold Current. rewrite (current_name_build d s e : fsm.Current _ = _).
  unfold go_index. simpl. by rewrite lookup_statesMap_of.
Qed.

(** C2: on every object reached from a machine built from a
    configuration with referential integrity, [Current] returns a state
    the configuration declares, and its name is the name of the current
    state of the library's machine. *)
Theorem Current_reachable d s e f :
  referential_integrity d s e → reachable (build d s e) f →
  Current f ∈ config.States s ∧ state.Name (Current f) = current_name f.
Proof.
  intros Hi Hr. unfold Current.
  rewrite (proj1 (reachable_build d s e f Hr)).
  by apply declared_state_index, (reachable_declared_state d s e).
Qed.

(** After an event is accepted, on an object reached from a machine
    built from a configuration with referential integrity, [Current]
    returns a declared state, and it is the destination of a rule of the
    document that is named as the event and has the previous state among
    its sources. *)
Theorem Current_after_Fire d s e f event :
  referential_integrity d s e → reachable (build d s e) f →
  (Fire f event).2 = None →
  Current (Fire f event).1 ∈ config.States s
  ∧ ∃ r, r ∈ config.Fsm d ∧ config.Name r = event
         ∧ current_name f ∈ config.SrcState r
         ∧ state.Name (Current (Fire f event).1) = config.DestState r.
Proof.
  intros Hi Hr Hok.
  assert (reachable (build d s e) (Fire f event).1) as Hr' by by constructor.
  pose proof (reachable_declared_state d s e _ Hi Hr') as Hd.
  apply declared_state_index in Hd as [Hin Hname].
  change (Current (Fire f event).1)
    with (States (Fire f event).1 !!₀ current_name (Fire f event).1).
  rewrite (proj1 (reachable_build d s e _ Hr')).
  split; [done|]. rewrite Hname.
  destruct (Fire f event) as [f' err] eqn:E. simpl in *. subst err.
  apply Fire_inv in E as (Ht & _).
  rewrite (proj2 (proj2 (reachable_build d s e f Hr))) in Ht.
  apply fsm.delta_Some in Ht as (r' & Hr'' & [? ?] & ?).
  apply elem_of_eventDescYamlToEventDesc in Hr'' as (r & ? & ->).
  by exists r.
Qed.

(** An object is in a terminal state of the graph exactly when the
    loop of [AvailableTransitions] has nothing to run over. *)
Lemma terminal_AvailableTransitions d s e f :
  reachable (build d s e) f →
  graph.terminal (eventDescYamlToEventDesc d) (current_name f)
  ↔ AvailableTransitions f = [].
Proof.
  intros (_ & _ & Ht)%reachable_build.
  rewrite AvailableTransitions_nil, graph.terminal_spec.
  by setoid_rewrite Ht.
Qed.

(** On an object reached from a built machine,
    [AvailableTransitions] returns the empty list exactly when the
    current state is terminal in the graph of the rules: no rule has it
    among its sources. A terminal state is reported by the empty result
    and not by an error. *)
Theorem AvailableTransitions_terminal d s e f :
  reachable (build d s e) f →
  AvailableTransitions f = []
  ↔ graph.terminal (eventDescYamlToEventDesc d) (current_name f).
Proof.
  intros Hr. symmetry. by apply (terminal_AvailableTransitions d s e).
Qed.

(** An object that offers an event accepts one. *)
Lemma AvailableTransitions_progress f :
  AvailableTransitions f ≠ [] → ∃ event, (Fire f event).2 = None.
Proof.
  rewrite AvailableTransitions_fmap.
  destruct (fsm.AvailableTransitions (FSM f)) as [|t ts] eqn:E; [done|].
  intros _. exists t. rewrite Fire_succeeds_iff, E. left.
Qed.

(** C25: a configuration is free of deadlock, no state reachable in its
    graph being terminal, exactly when the machine built from it can
    always go on: on every object a client reaches,
    [AvailableTransitions] offers an event and [Fire] accepts one. *)
Theorem deadlock_free_progress d s e :
  graph.deadlock_free (eventDescYamlToEventDesc d) "Initial"
  ↔ ∀ f, reachable (build d s e) f →
         AvailableTransitions f ≠ [] ∧ ∃ event, (Fire f event).2 = None.
Proof.
  split.
  - intros Hfree f Hr.
    assert (AvailableTransitions f ≠ []) as Hoffer;
      [|by auto using AvailableTransitions_progress].
    rewrite <-(terminal_AvailableTransitions d s e) by done.
    by apply Hfree, (reachable_current_state d s e).
  - intros Hgo st [evs <-]%graph.elem_of_reachable_states.
    rewrite <-(current_name_run d s e).
    rewrite (terminal_AvailableTransitions d s e) by apply reachable_run.
    apply Hgo, reachable_run.
Qed.

(** The events the library lists are those for which the rules have a
    transition from the current state. *)
Lemma available_delta d s e f t :
  reachable (build d s e) f →
  t ∈ fsm.AvailableTransitions (FSM f)
  ↔ is_Some (fsm.delta (eventDescYamlToEventDesc d) (current_name f) t).
Proof.
  intros (_ & _ & Ht)%reachable_build.
  by rewrite fsm.AvailableTransitions_spec, <-Ht.
Qed.

(** The events the library lists are declared. *)
Lemma available_declared d s e f t :
  referential_integrity d s e → reachable (build d s e) f →
  t ∈ fsm.AvailableTransitions (FSM f) → declared_event e t.
Proof.
  intros Hi Hr [dst Hdst]%(available_delta d s e); [|done].
  by apply (integrity_delta d s e) in Hdst as (? & _).
Qed.

(** [AvailableTransitions] returns declarations, and their names are the
    names the library lists, in the same order. *)
Lemma AvailableTransitions_reachable d s e f :
  referential_integrity d s e → reachable (build d s e) f →
  Forall (λ ev, ev ∈ config.Events e) (AvailableTransitions f)
  ∧ event.Name <$> AvailableTransitions f
    = fsm.AvailableTransitions (FSM f).
Proof.
  intros Hi Hr. rewrite AvailableTransitions_fmap.
  rewrite (proj1 (proj2 (reachable_build d s e f Hr))).
  assert (Forall (declared_event e) (fsm.AvailableTransitions (FSM f))) as Hd.
  { apply Forall_forall. intros t. by apply (available_declared d s e f). }
  induction Hd as [|t ts Ht _ [IH1 IH2]]; [done|].
  apply declared_event_index in Ht as [? ?].
  split; [by constructor | by f_equal/=].
Qed.

(** C6: on every object reached from a machine built from a
    configuration with referential integrity, the names of the events
    [AvailableTransitions] returns are exactly the events [Fire]
    accepts. *)
Theorem AvailableTransitions_consistent d s e f n :
  referential_integrity d s e → reachable (build d s e) f →
  n ∈ event.Name <$> AvailableTransitions f ↔ (Fire f n).2 = None.
Proof.
  intros Hi Hr.
  rewrite (proj2 (AvailableTransitions_reachable d s e f Hi Hr)).
  by rewrite Fire_succeeds_iff.
Qed.

(** Under the same conditions [AvailableTransitions] returns
    declared events only, and none twice. *)
Theorem AvailableTransitions_declared d s e f :
  referential_integrity d s e → reachable (build d s e) f →
  NoDup (AvailableTransitions f)
  ∧ ∀ ev, ev ∈ AvailableTransitions f → ev ∈ config.Events e.
Proof.
  intros Hi Hr.
  destruct (AvailableTransitions_reachable d s e f Hi Hr) as [Hd Hn].
  split; [|by apply Forall_forall].
  apply (NoDup_fmap_1 event.Name). rewrite Hn.
  apply fsm.AvailableTransitions_NoDup.
Qed.

(** The names the library lists are names of rules that have the
    current state among their sources. *)
Lemma available_rule d s e f t :
  reachable (build d s e) f →
  t ∈ fsm.AvailableTransitions (FSM f) →
  t ∈ config.Name
      <$> filter (λ r, current_name f ∈ config.SrcState r) (config.Fsm d).
Proof.
  intros Hr [dst Hdst]%(available_delta d s e); [|done].
  apply fsm.delta_Some in Hdst as (r' & Hr' & [? ?] & _).
  apply elem_of_eventDescYamlToEventDesc in Hr' as (r & ? & ->).
  apply list_elem_of_fmap. exists r. split; [done|].
  by apply list_elem_of_filter.
Qed.

(** C28: [AvailableTransitions] never returns more events than the
    document has rules that start in the current state, whatever the
    tables hold: the result of the loop is bounded by the configuration
    and not by the history of the machine. *)
Theorem AvailableTransitions_bounded d s e f :
  reachable (build d s e) f →
  (length (AvailableTransitions f)
   ≤ length (filter (λ r, current_name f ∈ config.SrcState r) (config.Fsm d))
   ≤ length (config.Fsm d))%nat.
Proof.
  intros Hr. split; [|apply length_filter].
  rewrite AvailableTransitions_length, <-(length_fmap config.Name).
  apply submseteq_length, NoDup_submseteq;
    [apply fsm.AvailableTransitions_NoDup|].
  intros t. by apply (available_rule d s e).
Qed.

(** C20: when the configuration declares no state named ["Initial"],
    [Current] on the new machine returns the zero state, with an empty
    name and an empty message; no error is raised at any point. *)
Theorem Current_undeclared_start d s e :
  ¬ declared_state s "Initial" →
  Current (build d s e) = state.mk "" "".
Proof.
  intros Hn. apply Current_undeclared. rewrite current_name_build.
  change (States (build d s e)) with (statesMap_of s).
  apply eq_None_not_Some. by rewrite <-declared_state_lookup.
Qed.

(** C21: an available event that the configuration does not declare is
    returned as the zero event: whoever reads the result cannot tell
    which event it stands for. *)
Theorem AvailableTransitions_undeclared d s e f t :
  reachable (build d s e) f →
  t ∈ fsm.AvailableTransitions (FSM f) → ¬ declared_event e t →
  event.mk "" "" zero ∈ AvailableTransitions f.
Proof.
  intros Hr Ht Hn. rewrite AvailableTransitions_fmap.
  apply list_elem_of_fmap. exists t. split; [|done].
  rewrite (proj1 (proj2 (reachable_build d s e f Hr))).
  symmetry. apply go_index_None, eq_None_not_Some.
  by rewrite <-declared_event_lookup.
Qed.
End built.

End statemachine.

Export statemachine.
