(* ===== verification/Similar.v ===== *)
(** * Objects a client cannot tell apart

    The library's machine is abstract: two machines can differ inside
    and answer every call alike. Two objects are [similar] when they
    hold the same tables, are in the same state and have the same
    transition function. The relation is the equivalence [≡] on
    [FSMWithStatesAndEvents]; [Fire], [run], [Current] and
    [AvailableTransitions] respect it, the last up to the order of its
    result, which is the library's to choose. So similar objects stay
    similar whatever is fired, and return the same errors: no client can
    tell them apart.

    The relation says when two configurations are the same
    configuration: if no name is declared twice and no two rules
    conflict, the order of the declarations in each document is
    immaterial. With a repeated name or conflicting rules it is not: the
    later declaration wins. Whether two configurations build similar
    machines is decided on the documents, by comparing the tables and,
    on the pairs of state and event the rules speak of, the transition
    functions. *)

From stdpp Require Import gmap strings list.
From S2P Require Import Prelude Integers Domain Fsm Config Machine Loader.
From S2P Require Import Runtime Integrity Queries.

Section similar.
Context `{fsm.Library}.
Implicit Types (f g : FSMWithStatesAndEvents) (event : string).
Implicit Types (evs : list string).

Definition similar f g : Prop :=
  States f = States g ∧ Events f = Events g
  ∧ current_name f = current_name g
  ∧ ∀ src event, transition f src event = transition g src event.

#[export] Instance similar_equiv : Equiv FSMWithStatesAndEvents := similar.

#[export] Instance similar_equivalence :
  Equivalence (≡@{FSMWithStatesAndEvents}).
Proof.
  unfold equiv, similar_equiv, similar. split.
  - by intros f.
  - intros f g (? & ? & ? & ?). by split_and!.
  - intros f g h (? & ? & ? & Hfg) (? & ? & ? & Hgh).
    split_and!; [congruence..|]. intros src event. by rewrite Hfg.
Qed.

(** ** The operations respect the relation *)

#[export] Instance States_proper : Proper ((≡) ==> (=)) States.
Proof. by intros f g (? & _). Qed.

#[export] Instance Events_proper : Proper ((≡) ==> (=)) Events.
Proof. by intros f g (_ & ? & _). Qed.

#[export] Instance current_name_proper : Proper ((≡) ==> (=)) current_name.
Proof. by intros f g (_ & _ & ? & _). Qed.

#[export] Instance transition_proper :
  Proper ((≡) ==> (=) ==> (=) ==> (=)) transition.
Proof. intros f g (_ & _ & _ & Ht) ? src -> ? event ->. apply Ht. Qed.

#[export] Instance Fire_proper :
  Proper ((≡) ==> (=) ==> prod_relation (≡) (=)) Fire.
Proof.
  intros f g Hfg ? event ->.
  destruct (transition f (current_name f) event) as [dst|] eqn:E.
  - pose proof E as E'. rewrite Hfg in E'.
    apply Fire_legal in E as (f' & -> & ? & ? & ? & Hf').
    apply Fire_legal in E' as (g' & -> & ? & ? & ? & Hg').
    split; [|done]. destruct Hfg as (? & ? & _ & Ht).
    split_and!; simpl; [congruence..|].
    intros src ev. by rewrite Hf', Hg'.
  - pose proof E as E'. rewrite Hfg in E'.
    rewrite (Fire_illegal f event E), (Fire_illegal g event E').
    split; [done|]. simpl. by rewrite Hfg.
Qed.

#[export] Instance run_proper : Proper ((≡) ==> (=) ==> (≡)) run.
Proof.
  intros f g Hfg ? evs ->. revert f g Hfg.
  induction evs as [|event evs IH]; intros f g Hfg; [done|].
  autorewrite with go. apply IH. by apply Fire_proper.
Qed.

#[export] Instance run_errors_proper :
  Proper ((≡) ==> (=) ==> (=)) run_errors.
Proof.
  intros f g Hfg ? evs ->. revert f g Hfg.
  induction evs as [|event evs IH]; intros f g Hfg; [done|]. simpl.
  destruct (Fire_proper f g Hfg event event eq_refl) as [Hf He].
  f_equal; [done | by apply IH].
Qed.

#[export] Instance Current_proper : Proper ((≡) ==> (=)) Current.
Proof.
  intros f g Hfg. unfold Current.
  change (fsm.Current (FSM ?f)) with (current_name f). by rewrite Hfg.
Qed.

(** The library lists the same names for similar objects, in an order
    of its choice. *)
Lemma available_Permutation f g :
  f ≡ g →
  fsm.AvailableTransitions (FSM f) ≡ₚ fsm.AvailableTransitions (FSM g).
Proof.
  intros Hfg. apply NoDup_Permutation;
    [apply fsm.AvailableTransitions_NoDup..|].
  intros t. rewrite !fsm.AvailableTransitions_spec.
  change (is_Some (transition f (current_name f) t)
          ↔ is_Some (transition g (current_name g) t)).
  by rewrite Hfg.
Qed.

#[export] Instance AvailableTransitions_proper :
  Proper ((≡) ==> (≡ₚ)) AvailableTransitions.
Proof.
  intros f g Hfg. rewrite !AvailableTransitions_fmap.
  rewrite (Events_proper f g Hfg).
  by apply fmap_Permutation, available_Permutation.
Qed.

(** Objects that hold the same tables, are in the same state and
    have the same transition function cannot be told apart by a client:
    after any sequence of events, fired on both, the calls have returned
    the same errors, [Current] returns the same state, and
    [AvailableTransitions] returns the same events, up to the order the
    library lists them in. *)
Theorem similar_observations f g evs :
  similar f g →
  run_errors f evs = run_errors g evs
  ∧ Current (run f evs) = Current (run g evs)
  ∧ AvailableTransitions (run f evs) ≡ₚ AvailableTransitions (run g evs).
Proof.
  intros Hfg. change (f ≡ g) in Hfg. split_and!.
  - by rewrite Hfg.
  - by rewrite Hfg.
  - by rewrite Hfg.
Qed.
End similar.

(** ** Configurations that are the same configuration *)

Section order.
Context `{fsm.Library}.
Implicit Types (d : config.EventDescYaml) (s : config.StateYaml).
Implicit Types (e : config.EventYaml).

(** Without a repeated name a table does not depend on the order of
    the declarations. *)
Lemma statesMap_of_Permutation s s' :
  NoDup (state.Name <$> config.States s) →
  config.States s ≡ₚ config.States s' →
  statesMap_of s = statesMap_of s'.
Proof.
  intros Hnd Hp. rewrite !statesMap_of_insert_all.
  rewrite !insert_all_list_to_map by by rewrite <-?Hp.
  apply list_to_map_proper; [|by rewrite Hp].
  by rewrite <-list_fmap_compose.
Qed.

Lemma eventsMap_of_Permutation e e' :
  NoDup (event.Name <$> config.Events e) →
  config.Events e ≡ₚ config.Events e' →
  eventsMap_of e = eventsMap_of e'.
Proof.
  intros Hnd Hp. rewrite !eventsMap_of_insert_all.
  rewrite !insert_all_list_to_map by by rewrite <-?Hp.
  apply list_to_map_proper; [|by rewrite Hp].
  by rewrite <-list_fmap_compose.
Qed.

(** Two configurations build machines that no client can tell apart
    exactly when they give the same tables and their rules the same
    transition function: this can be decided on the documents. *)
Lemma similar_build d s e d' s' e' :
  similar (build d s e) (build d' s' e')
  ↔ statesMap_of s = statesMap_of s' ∧ eventsMap_of e = eventsMap_of e'
    ∧ fsm.same_delta (eventDescYamlToEventDesc d)
        (eventDescYamlToEventDesc d').
Proof.
  unfold similar. rewrite fsm.same_delta_spec, !current_name_build.
  setoid_rewrite transition_build. simpl. naive_solver.
Qed.

#[export] Instance similar_build_dec d s e d' s' e' :
  Decision (similar (build d s e) (build d' s' e')).
Proof.
  refine (cast_if (decide (statesMap_of s = statesMap_of s'
                           ∧ eventsMap_of e = eventsMap_of e'
                           ∧ fsm.same_delta (eventDescYamlToEventDesc d)
                               (eventDescYamlToEventDesc d'))));
    abstract (by rewrite similar_build).
Defined.

(** C27: a configuration in which no name is declared twice and no two
    rules conflict is a set of declarations: listing the rules, the
    states or the events in another order gives a machine that no
    client can tell from the first. The order decides only which of two
    declarations of one name, or of two conflicting rules, wins. *)
Theorem build_order_irrelevant d d' s s' e e' :
  unique_names s e → fsm.conflict_free (eventDescYamlToEventDesc d) →
  config.Fsm d ≡ₚ config.Fsm d' →
  config.States s ≡ₚ config.States s' →
  config.Events e ≡ₚ config.Events e' →
  similar (build d s e) (build d' s' e').
Proof.
  intros [Hs He] Hcf Hd Hss Hee. split_and!.
  - by apply statesMap_of_Permutation.
  - by apply eventsMap_of_Permutation.
  - by rewrite !current_name_build.
  - intros src event. rewrite !transition_build.
    apply fsm.delta_Permutation; [done|].
    by rewrite !eventDescYamlToEventDesc_fmap, Hd.
Qed.
End order.
