(* ===== verification/Refinement.v ===== *)
(** * The machine against its specification

    [spec] is the runtime of section 4.3 of the specification, written
    down directly: a machine definition (the two tables, the rule list
    and the start state), an instance that is a definition with a current
    state, [fire] that looks the pair (current state, event) up in the
    rules and either moves to the destination or reports the illegal
    transition and changes nothing, [current] that may find no state, and
    [available], the set of event names that are legal now.

    [refines] relates an [FSMWithStatesAndEvents] to such an instance.
    The machine [yamlToFSM] builds refines the new instance of the
    definition its documents denote, and every [Fire] keeps the relation
    and returns the same error as the specification's: a client of the
    program observes what a client of the specification would, on every
    sequence of calls. The one difference is [Current] on an undeclared
    state, where the program returns the zero state and the specification
    has no state to return. The objects that refine one instance are
    the similar objects of [Similar]. *)

From stdpp Require Import gmap strings list.
From S2P Require Import Prelude Domain Fsm Config Machine Loader Runtime.
From S2P Require Import Integrity Queries Similar.

Module spec.

Record MachineDefinition : Type := mkDefinition {
  states : gmap string State;
  events : gmap string Event;
  rules : list fsm.EventDesc;
  start : string;
}.

Record MachineInstance : Type := mkInstance {
  definition : MachineDefinition;
  currentState : string;
}.

Definition NewInstance (D : MachineDefinition) : MachineInstance :=
  {| definition := D; currentState := start D |}.

(** The state record of the current state, if the table has one. *)
Definition current (m : MachineInstance) : option State :=
  states (definition m) !! currentState m.

Definition legal (m : MachineInstance) (event : string) : Prop :=
  is_Some (fsm.delta (rules (definition m)) (currentState m) event).

#[export] Instance legal_dec m event : Decision (legal m event).
Proof. unfold legal. apply _. Defined.

(** The names of the events that are legal now. *)
Definition available (m : MachineInstance) : gset string :=
  list_to_set (filter (legal m) (fsm.Name <$> rules (definition m))).

Definition fire (m : MachineInstance) (event : string)
  : MachineInstance * option fsm.Error :=
  match fsm.delta (rules (definition m)) (currentState m) event with
  | Some dst => ({| definition := definition m; currentState := dst |}, None)
  | None => (m, Some (fsm.IllegalTransitionError (currentState m) event))
  end.

(** The transitions of an instance, labelled by the event. *)
Inductive step : MachineInstance → string → MachineInstance → Prop :=
| step_fire m event dst :
    fsm.delta (rules (definition m)) (currentState m) event = Some dst →
    step m event {| definition := definition m; currentState := dst |}.

Fixpoint errors (m : MachineInstance) (evs : list string)
  : list (option fsm.Error) :=
  match evs with
  | [] => []
  | event :: evs => (fire m event).2 :: errors (fire m event).1 evs
  end.

Lemma elem_of_spec_available m event :
  event ∈ available m ↔ legal m event.
Proof.
  unfold available.
  rewrite elem_of_list_to_set, list_elem_of_filter. split; [by intros [? _]|].
  intros Hl. split; [done|].
  destruct Hl as [dst (d & Hd & [<- _] & _)%fsm.delta_Some].
  by apply list_elem_of_fmap_2.
Qed.

Lemma fire_step m event m' :
  fire m event = (m', None) ↔ step m event m'.
Proof.
  unfold fire. split.
  - destruct (fsm.delta _ _ _) eqn:E; intros [= <-]. by constructor.
  - intros [? ? dst ->]. done.
Qed.

Lemma fire_definition m event :
  definition (fire m event).1 = definition m.
Proof. unfold fire. by case_match. Qed.

(** A rejected event changes nothing. *)
Lemma fire_rejected m event m' err :
  fire m event = (m', Some err) →
  m' = m ∧ ¬ legal m event
  ∧ err = fsm.IllegalTransitionError (currentState m) event.
Proof.
  unfold fire, legal.
  destruct (fsm.delta _ _ _) eqn:E; intros [= <- <-].
  split_and!; [done| |done]. by intros [? ?].
Qed.

End spec.

(** ** The refinement relation *)

Section refinement.
Context `{fsm.Library}.
Implicit Types (f : FSMWithStatesAndEvents) (m : spec.MachineInstance).
Implicit Types (event : string) (evs : list string).

(** The definition three decoded documents denote. *)
Definition definition_of (d : config.EventDescYaml) (s : config.StateYaml)
    (e : config.EventYaml) : spec.MachineDefinition :=
  {| spec.states := statesMap_of s;
     spec.events := eventsMap_of e;
     spec.rules := eventDescYamlToEventDesc d;
     spec.start := InitialStateName |}.

Record refines f m : Prop := mkRefines {
  refines_states : States f = spec.states (spec.definition m);
  refines_events : Events f = spec.events (spec.definition m);
  refines_transition src event :
    transition f src event
    = fsm.delta (spec.rules (spec.definition m)) src event;
  refines_current : current_name f = spec.currentState m;
}.

(** The machine [build] makes refines the new instance of the
    definition its three documents denote. *)
Lemma refines_build d s e :
  refines (build d s e) (spec.NewInstance (definition_of d s e)).
Proof.
  split; [done|done| |].
  - intros src event. apply transition_build.
  - apply current_name_build.
Qed.

(** One call of [Fire] on both sides: the same error, and related
    machines afterwards. *)
Lemma refines_Fire f m event :
  refines f m →
  (Fire f event).2 = (spec.fire m event).2
  ∧ refines (Fire f event).1 (spec.fire m event).1.
Proof.
  intros [Hs He Ht Hc].
  pose proof (Fire_current_name f event) as Hcur.
  destruct (Fire f event) as [f' err] eqn:E. apply Fire_inv in E.
  unfold spec.fire. rewrite <-Hc, <-Ht. simpl in *.
  destruct err as [err|].
  - destruct E as (-> & -> & ->). simpl. by split.
  - destruct E as (HE & Hs' & He' & Ht'). rewrite HE. simpl.
    split; [done|]. split; simpl; [congruence|congruence| |done].
    intros src ev. by rewrite Ht'.
Qed.

Lemma refines_run f m evs :
  refines f m →
  run_errors f evs = spec.errors m evs
  ∧ current_name (run f evs)
    = spec.currentState (foldl (λ m event, (spec.fire m event).1) m evs).
Proof.
  revert f m. induction evs as [|event evs IH]; intros f m Hr; simpl.
  - split; [done | apply Hr].
  - destruct (refines_Fire f m event Hr) as [Herr Hr'].
    destruct (IH _ _ Hr') as [IH1 IH2]. split; [by f_equal|done].
Qed.

(** The refinement is an invariant: every object reached from one
    that refines [m0] refines an instance of the definition of [m0]. *)
Theorem reachable_refines f0 m0 f :
  refines f0 m0 → reachable f0 f →
  ∃ m, refines f m ∧ spec.definition m = spec.definition m0.
Proof.
  intros Hr0. induction 1 as [|f event _ (m & Hr & Hd)]; [by exists m0|].
  exists (spec.fire m event).1. split.
  - by apply refines_Fire.
  - by rewrite spec.fire_definition.
Qed.

(** Objects that refine one instance cannot be told apart, and what
    cannot be told apart refines the same instances. *)
Lemma refines_similar f g m : refines f m → refines g m → f ≡ g.
Proof.
  intros [Hs He Ht Hc] [Hs' He' Ht' Hc'].
  split_and!; [congruence..|]. intros src event. by rewrite Ht, Ht'.
Qed.

#[export] Instance refines_proper : Proper ((≡) ==> (=) ==> iff) refines.
Proof.
  assert (∀ f g m, f ≡ g → refines f m → refines g m) as Himp.
  { intros f g m Hfg [Hs He Ht Hc].
    split; [by rewrite <-Hfg..| |by rewrite <-Hfg].
    intros src event. by rewrite <-Hfg. }
  intros f g Hfg ? m ->. split; apply Himp; [done | by symmetry].
Qed.

(** ** The built machine against the specification *)

(** The simulation along a run: on every sequence of events, the
    machine [build] makes and the specification's instance of the
    definition read off the same documents answer each [Fire] with the
    same error, or with none, and end in the same state. *)
Lemma build_trace_refinement d s e evs :
  run_errors (build d s e) evs
  = spec.errors (spec.NewInstance (definition_of d s e)) evs
  ∧ current_name (run (build d s e) evs)
    = spec.currentState
        (foldl (λ m event, (spec.fire m event).1)
               (spec.NewInstance (definition_of d s e)) evs).
Proof. apply refines_run, refines_build. Qed.

(** ** The queries *)

(** [Current] of an object that refines [m] returns the state the
    specification returns for [m], and the zero state where the
    specification has none to return. *)
Theorem refines_Current f m :
  refines f m → Current f = default zero (spec.current m).
Proof.
  intros [Hs _ _ Hc]. unfold Current, spec.current, go_index.
  by rewrite Hs, <-Hc.
Qed.

Lemma refines_available f m :
  refines f m →
  list_to_set (fsm.AvailableTransitions (FSM f)) = spec.available m.
Proof.
  intros [_ _ Ht Hc]. apply set_eq. intros event.
  rewrite elem_of_list_to_set, fsm.AvailableTransitions_spec,
    spec.elem_of_spec_available.
  unfold spec.legal. by rewrite <-Hc, <-Ht.
Qed.

(** [AvailableTransitions] of an object that refines [m] returns
    the records of the events the specification lists as available in
    [m], a missing record being replaced by the zero event. *)
Lemma refines_AvailableTransitions f m ev :
  refines f m →
  ev ∈ AvailableTransitions f
  ↔ ∃ t, t ∈ spec.available m
         ∧ ev = spec.events (spec.definition m) !!₀ t.
Proof.
  intros Hr. rewrite elem_of_AvailableTransitions, <-(refines_available f m Hr).
  setoid_rewrite elem_of_list_to_set.
  setoid_rewrite fsm.AvailableTransitions_spec.
  by rewrite (refines_events f m Hr).
Qed.
End refinement.
