(* ===== verification/Builder.v ===== *)
(** * The builder of the specification

    Section 4.2 of the specification describes a builder that validates
    the three lists of declarations before it makes the tables: a state
    or an event declared twice, a rule that names an undeclared state or
    event, and two rules that send one event from one state to two
    destinations are each refused with an error of their own.
    [yamlToFSM] validates nothing. This file writes the specified
    builder down ([builder.BuildMachine], with the errors of section 7)
    and relates the two: whatever the specified builder accepts, the
    program builds the same machine from, and on such a configuration
    the order of the declarations no longer matters; what it refuses,
    the program builds a machine from all the same. *)

From stdpp Require Import gmap strings list.
From S2P Require Import Prelude Domain Fsm Config Machine Loader Runtime.
From S2P Require Import Integrity Queries Refinement.

Module builder.

Inductive BuildError : Type :=
| DuplicateStateError (name : string)
| DuplicateEventError (name : string)
| UnknownReferenceError (name : string) (rule : config.FsmEntry)
| ConflictingTransitionError (state event : string).

#[export] Instance BuildError_eq_dec : EqDecision BuildError.
Proof. solve_decision. Defined.

Section builder.
Implicit Types (d : config.EventDescYaml) (s : config.StateYaml).
Implicit Types (e : config.EventYaml) (r : config.FsmEntry).
Implicit Types (rules : list config.FsmEntry).

(** The names a rule uses without a declaration: its event, then its
    source states in order, then its destination. *)
Definition unknown_references s e r : list string :=
  (if decide (declared_event e (config.Name r)) then [] else [config.Name r])
  ++ filter (λ n, ¬ declared_state s n)
            (config.SrcState r ++ [config.DestState r]).

(** The first undeclared name, with the rule that uses it. *)
Definition unknown_reference s e rules : option (string * config.FsmEntry) :=
  head (r ← rules; (λ n, (n, r)) <$> unknown_references s e r).

(** The (state, event) pairs that two rules send to two destinations. *)
Definition conflicts r1 r2 : list (string * string) :=
  if decide (config.Name r1 = config.Name r2
             ∧ config.DestState r1 ≠ config.DestState r2)
  then (λ src, (src, config.Name r1))
       <$> filter (λ src, src ∈ config.SrcState r2) (config.SrcState r1)
  else [].

Definition conflict rules : option (string * string) :=
  head (r1 ← rules; r2 ← rules; conflicts r1 r2).

(** The machine definition of a configuration: the tables of its
    declarations and its rules, started in ["Initial"]. *)
Definition definition d s e : spec.MachineDefinition :=
  {| spec.states :=
       list_to_map ((λ st, (state.Name st, st)) <$> config.States s);
     spec.events :=
       list_to_map ((λ ev, (event.Name ev, ev)) <$> config.Events e);
     spec.rules := EventDesc_of <$> config.Fsm d;
     spec.start := "Initial" |}.

(** One validation step: the error found, or the rest of the build. *)
Definition check {A} (found : option BuildError) (rest : BuildError + A)
  : BuildError + A :=
  match found with
  | Some err => inl err
  | None => rest
  end.

(** The builder of section 4.2, in the order of its steps. *)
Definition BuildMachine d s e : BuildError + spec.MachineDefinition :=
  check (DuplicateStateError
           <$> duplicate_key (state.Name <$> config.States s)) $
  check (DuplicateEventError
           <$> duplicate_key (event.Name <$> config.Events e)) $
  check ((λ '(n, r), UnknownReferenceError n r)
           <$> unknown_reference s e (config.Fsm d)) $
  check ((λ '(src, event), ConflictingTransitionError src event)
           <$> conflict (config.Fsm d)) $
  inr (definition d s e).

(** What the builder asks of a configuration. *)
Definition valid d s e : Prop :=
  unique_names s e
  ∧ Forall (rule_ok s e) (config.Fsm d)
  ∧ fsm.conflict_free (eventDescYamlToEventDesc d).

(** ** The validation steps *)

Lemma check_inr {A} (found : option BuildError) (rest : BuildError + A) x :
  check found rest = inr x ↔ found = None ∧ rest = inr x.
Proof. destruct found; naive_solver. Qed.

Lemma unknown_references_nil s e r :
  unknown_references s e r = [] ↔ rule_ok s e r.
Proof.
  unfold unknown_references, rule_ok. rewrite Forall_forall. split.
  - intros [He Hs]%app_eq_nil.
    assert (∀ n, n ∈ config.SrcState r ++ [config.DestState r] →
                 declared_state s n) as Hall.
    { intros n Hn. apply dec_stable. intros Hnot.
      by apply (proj1 (filter_eq_nil _ _) Hs n). }
    split_and!; [by case_decide| |]; intros; apply Hall; set_solver.
  - intros (He & Hs & Hd). rewrite decide_True by done. simpl.
    apply filter_eq_nil.
    intros n [Hn| ->%list_elem_of_singleton]%elem_of_app Hnot; auto.
Qed.

Lemma unknown_reference_None s e rules :
  unknown_reference s e rules = None ↔ Forall (rule_ok s e) rules.
Proof.
  unfold unknown_reference. rewrite head_None, list_bind_eq_nil.
  apply Forall_iff. intros r.
  rewrite <-unknown_references_nil. split; [apply fmap_nil_inv | by intros ->].
Qed.

(** The error names a rule of the configuration and a name it uses that
    is not declared. *)
Lemma unknown_reference_Some s e rules n r :
  unknown_reference s e rules = Some (n, r) →
  r ∈ rules
  ∧ (n = config.Name r ∧ ¬ declared_event e n
     ∨ n ∈ config.SrcState r ++ [config.DestState r] ∧ ¬ declared_state s n).
Proof.
  intros Hh%head_Some_elem_of.
  apply list_elem_of_bind in Hh as (r' & Hn & Hr).
  apply list_elem_of_fmap in Hn as (n' & [= -> ->] & Hn).
  split; [done|]. unfold unknown_references in Hn.
  apply elem_of_app in Hn as [Hn|Hn].
  - left. case_decide; [by apply elem_of_nil in Hn|].
    by apply list_elem_of_singleton in Hn as ->.
  - right. by apply list_elem_of_filter in Hn as [? ?].
Qed.

Lemma elem_of_conflicts r1 r2 src event :
  (src, event) ∈ conflicts r1 r2
  ↔ fsm.enables src event (EventDesc_of r1)
    ∧ fsm.enables src event (EventDesc_of r2)
    ∧ config.DestState r1 ≠ config.DestState r2.
Proof.
  unfold conflicts, fsm.enables. simpl. case_decide as Hc.
  - rewrite list_elem_of_fmap. setoid_rewrite list_elem_of_filter.
    naive_solver.
  - rewrite elem_of_nil. naive_solver.
Qed.

Lemma conflict_None rules :
  conflict rules = None ↔ fsm.conflict_free (EventDesc_of <$> rules).
Proof.
  unfold conflict, fsm.conflict_free. rewrite head_None. split.
  - intros Hnil ? ? src event (r1 & -> & H1)%list_elem_of_fmap
      (r2 & -> & H2)%list_elem_of_fmap He1 He2. simpl.
    destruct (decide (config.DestState r1 = config.DestState r2)); [done|].
    assert ((src, event) ∈ rules ≫= (λ r1, rules ≫= λ r2, conflicts r1 r2))
      as Hin; [|by rewrite Hnil in Hin; apply elem_of_nil in Hin].
    apply list_elem_of_bind. exists r1. split; [|done].
    apply list_elem_of_bind. exists r2. split; [|done].
    by apply elem_of_conflicts.
  - intros Hcf. apply elem_of_nil_inv. intros [src event] Hin.
    apply list_elem_of_bind in Hin as (r1 & Hin & H1).
    apply list_elem_of_bind in Hin as (r2 & Hin & H2).
    apply elem_of_conflicts in Hin as (He1 & He2 & Hne).
    apply Hne, (Hcf (EventDesc_of r1) (EventDesc_of r2) src event);
      [by apply list_elem_of_fmap_2..|done|done].
Qed.

(** The error names a state and an event that two rules of the
    configuration send to two destinations. *)
Lemma conflict_Some rules src event :
  conflict rules = Some (src, event) →
  ∃ r1 r2, r1 ∈ rules ∧ r2 ∈ rules
           ∧ fsm.enables src event (EventDesc_of r1)
           ∧ fsm.enables src event (EventDesc_of r2)
           ∧ config.DestState r1 ≠ config.DestState r2.
Proof.
  intros Hh%head_Some_elem_of.
  apply list_elem_of_bind in Hh as (r1 & Hin & H1).
  apply list_elem_of_bind in Hin as (r2 & Hin & H2).
  apply elem_of_conflicts in Hin. by exists r1, r2.
Qed.

#[export] Instance valid_dec d s e : Decision (valid d s e).
Proof.
  refine (cast_if (decide (unique_names s e ∧ Forall (rule_ok s e) (config.Fsm d)
                           ∧ conflict (config.Fsm d) = None)));
    unfold valid; rewrite eventDescYamlToEventDesc_fmap, <-conflict_None;
    tauto.
Defined.

(** ** The tables of a valid configuration *)

(** Without repeated names the tables of the program are the tables of
    the declarations. *)
Lemma definition_unique_names d s e :
  unique_names s e → definition d s e = definition_of d s e.
Proof.
  intros [Hs He]. unfold definition, definition_of. f_equal.
  - rewrite statesMap_of_insert_all, insert_all_list_to_map by done.
    f_equal. apply list_fmap_ext. intros _ st _.
    by autorewrite with go.
  - rewrite eventsMap_of_insert_all, insert_all_list_to_map by done.
    f_equal. apply list_fmap_ext. intros _ ev _.
    by autorewrite with go.
  - by rewrite eventDescYamlToEventDesc_fmap.
Qed.

Lemma BuildMachine_valid d s e :
  valid d s e → BuildMachine d s e = inr (definition d s e).
Proof.
  intros ([Hs He] & Hrules & Hcf). unfold BuildMachine.
  rewrite (proj2 (duplicate_key_None _) Hs), (proj2 (duplicate_key_None _) He),
    (proj2 (unknown_reference_None _ _ _) Hrules). simpl.
  rewrite eventDescYamlToEventDesc_fmap in Hcf.
  by rewrite (proj2 (conflict_None _) Hcf).
Qed.

Lemma BuildMachine_inr_valid d s e D :
  BuildMachine d s e = inr D → valid d s e ∧ D = definition d s e.
Proof.
  unfold BuildMachine, valid, unique_names.
  rewrite !check_inr, !fmap_None, !duplicate_key_None,
    unknown_reference_None, conflict_None, eventDescYamlToEventDesc_fmap.
  naive_solver.
Qed.
End builder.
End builder.

Export (hints) builder.

(** ** The program against the builder *)

Section against_builder.
Context `{fsm.Library}.
Implicit Types (d : config.EventDescYaml) (s : config.StateYaml).
Implicit Types (e : config.EventYaml) (D : spec.MachineDefinition).

(** The specified builder accepts a configuration exactly when no name
    is declared twice, every rule uses declared names only and no two
    rules conflict; what it returns then is the machine definition of
    the declarations. *)
Lemma BuildMachine_inr d s e D :
  builder.BuildMachine d s e = inr D
  ↔ builder.valid d s e ∧ D = builder.definition d s e.
Proof.
  split; [apply builder.BuildMachine_inr_valid|].
  intros [Hv ->]. by apply builder.BuildMachine_valid.
Qed.

(** C13: on every configuration the specified builder accepts, the
    machine [build] makes refines the new instance of the definition the
    builder returns: the state table, the event table, the transition
    function and the start state are the specified ones. *)
Theorem build_refines_BuildMachine d s e D :
  builder.BuildMachine d s e = inr D →
  refines (build d s e) (spec.NewInstance D).
Proof.
  intros [(Hu & _) ->]%builder.BuildMachine_inr_valid.
  rewrite builder.definition_unique_names by done. apply refines_build.
Qed.

(** On a configuration the specified builder accepts, the order of
    the rules does not matter: every rule that covers a state and an
    event gives the transition of the built machine. *)
Theorem build_transition_valid d s e D r src event :
  builder.BuildMachine d s e = inr D →
  r ∈ config.Fsm d → config.Name r = event → src ∈ config.SrcState r →
  transition (build d s e) src event = Some (config.DestState r).
Proof.
  intros [(_ & _ & Hcf) _]%builder.BuildMachine_inr_valid Hr Hn Hs.
  rewrite transition_build.
  apply (fsm.delta_conflict_free _ _ _ (EventDesc_of r)); [done| |done].
  by apply elem_of_eventDescYamlToEventDesc; exists r.
Qed.

(** A configuration the builder accepts has referential integrity as
    soon as it declares the start state. *)
Lemma valid_referential_integrity d s e :
  builder.valid d s e → declared_state s InitialStateName →
  referential_integrity d s e.
Proof. by intros (_ & ? & _) ?. Qed.
End against_builder.
