(* ===== verification/Store.v ===== *)
(** * The machine behind its pointer

    In [fsm.go] the field [FSM] of [FSMWithStatesAndEvents] is a pointer
    to the library's machine, [yamlToFSM] allocates that machine with
    [fsm.NewFSM], and [Current] and [AvailableTransitions] have value
    receivers: every call works on a copy of the struct, and all copies
    point to the one machine. [Machine] hides this by passing the whole
    object through [Fire]. This file models it: a store of library
    machines by location, the struct as a value that holds a location
    and the two tables, and every operation reading or writing the
    store.

    The theorems justify the simpler model and say what it cannot: the
    operations on a stored object agree with those of [Machine] and
    [Queries] on its view; dereferencing never fails on an object the
    program built; a machine that [yamlToFSM] allocates is fresh, so
    objects of different loads never interfere and calls on them
    commute; a transition fired through one copy of a struct is seen
    through every other copy; and under any interleaving of the calls
    of several clients each machine sees its own events, in their
    order, and nothing else, and its calls return what they return when
    the machine is alone. *)

From stdpp Require Import gmap strings list.
From S2P Require Import Prelude Domain Fsm Yaml Config Machine Loader Runtime.
From S2P Require Import Queries.

Module store.

Definition loc : Type := positive.

(** The struct [FSMWithStatesAndEvents] as a Go value: copying it copies
    the pointer and the two map references. *)
Record Object : Type := mk {
  FSM : loc;
  States : gmap string State;
  Events : gmap string Event;
}.

#[global] Instance Object_eq_dec : EqDecision Object.
Proof. solve_decision. Defined.

(** The library machines allocated so far. *)
Abbreviation Store := (gmap loc fsm.FSM).

Section store.
Context `{fsm.Library} `{yaml.Parser bytes}.
Implicit Types (o : Object) (l : loc) (event : string) (σ : Store).

(** [fsm.NewFSM(initial, events, callbacks)]: a new machine at a
    location not in use. *)
Definition NewFSM (initial : string) (events : list fsm.EventDesc) σ
  : loc * Store :=
  let l := fresh (dom σ) in
  (l, <[l := fsm.NewFSM initial events ∅]> σ).

(** The second half of [yamlToFSM]: the tables, the allocation, and the
    struct that is returned. *)
Definition build (eventDescYaml : config.EventDescYaml)
    (states : config.StateYaml) (events : config.EventYaml) σ
  : Object * Store :=
  let eventDes := eventDescYamlToEventDesc eventDescYaml in
  let statesMap := statesMap_of states in
  let eventsMap := eventsMap_of events in
  let '(l, σ) := NewFSM InitialStateName eventDes σ in
  ({| FSM := l; States := statesMap; Events := eventsMap |}, σ).

(** [yamlToFSM]: nothing is allocated when decoding fails. *)
Definition yamlToFSM (yamlSpec : bytes) σ : result Object * Store :=
  match decode_documents (yaml.NewDecoder yamlSpec) with
  | Ok (eventDescYaml, states, events) =>
      let '(o, σ) := build eventDescYaml states events σ in (Ok o, σ)
  | Err err => (Err err, σ)
  end.

(** [f.States[f.FSM.Current()]]. [None] stands for the run-time panic of
    a nil or dangling pointer. *)
Definition Current o σ : option State :=
  m ← σ !! FSM o; Some (States o !!₀ fsm.Current m).

(** [AvailableTransitions], with the same loop as in [Queries]. *)
Definition AvailableTransitions o σ : option (list Event) :=
  m ← σ !! FSM o;
  Some (foldl (λ res t, res ++ [Events o !!₀ t]) []
              (fsm.AvailableTransitions m)).

(** [f.FSM.Event(event)]: the machine at the location is replaced by the
    machine after the call. *)
Definition Fire o event σ : option (option fsm.Error * Store) :=
  m ← σ !! FSM o;
  Some ((fsm.Event m event).2, <[FSM o := (fsm.Event m event).1]> σ).

(** The object of [Machine] that a stored object stands for. *)
Definition view o σ : option FSMWithStatesAndEvents :=
  m ← σ !! FSM o;
  Some {| Machine.FSM := m;
          Machine.States := States o;
          Machine.Events := Events o |}.

(** The pointer of [o] is allocated. *)
Definition allocated o σ : Prop := FSM o ∈ dom σ.

#[export] Instance allocated_dec o σ : Decision (allocated o σ).
Proof. unfold allocated. apply _. Defined.

(** ** Allocation *)

Lemma NewFSM_fresh initial events σ :
  (NewFSM initial events σ).1 ∉ dom σ.
Proof. apply is_fresh. Qed.

Lemma build_FSM d s e σ : FSM (build d s e σ).1 = fresh (dom σ).
Proof. done. Qed.

Lemma build_Store d s e σ :
  (build d s e σ).2
  = <[fresh (dom σ)
      := fsm.NewFSM InitialStateName (eventDescYamlToEventDesc d) ∅]> σ.
Proof. done. Qed.

Lemma view_build d s e σ :
  view (build d s e σ).1 (build d s e σ).2 = Some (Loader.build d s e).
Proof.
  unfold view. rewrite build_Store, build_FSM, lookup_insert_eq. done.
Qed.

Lemma allocated_view o σ : allocated o σ ↔ is_Some (view o σ).
Proof.
  unfold allocated, view. rewrite elem_of_dom.
  destruct (σ !! FSM o); simpl; split; by intros [? ?] || eauto.
Qed.

(** What was allocated before is untouched by an allocation. *)
Lemma view_build_other d s e σ o :
  allocated o σ → view o (build d s e σ).2 = view o σ.
Proof.
  intros Ho. unfold view. rewrite build_Store, lookup_insert_ne; [done|].
  intros Heq. apply (is_fresh (dom σ)). by rewrite Heq.
Qed.

(** ** The operations on the view *)

Lemma Current_view o σ : Current o σ = statemachine.Current <$> view o σ.
Proof. unfold Current, view. by destruct (σ !! FSM o). Qed.

Lemma AvailableTransitions_view o σ :
  AvailableTransitions o σ = statemachine.AvailableTransitions <$> view o σ.
Proof. unfold AvailableTransitions, view. by destruct (σ !! FSM o). Qed.

Lemma Fire_Some o event σ f :
  view o σ = Some f →
  Fire o event σ
  = Some ((Machine.Fire f event).2,
          <[FSM o := Machine.FSM (Machine.Fire f event).1]> σ).
Proof.
  unfold view, Fire. destruct (σ !! FSM o) as [m|]; [|done].
  intros [= <-]. simpl. by rewrite Fire_error, Fire_FSM.
Qed.

Lemma view_insert o σ m :
  view o (<[FSM o := m]> σ)
  = Some {| Machine.FSM := m;
            Machine.States := States o;
            Machine.Events := Events o |}.
Proof. unfold view. by rewrite lookup_insert_eq. Qed.

Lemma view_insert_ne o σ l m :
  l ≠ FSM o → view o (<[l := m]> σ) = view o σ.
Proof. intros Hl. unfold view. by rewrite lookup_insert_ne. Qed.

Lemma view_States o σ f : view o σ = Some f → Machine.States f = States o.
Proof. unfold view. destruct (σ !! FSM o); [|done]. by intros [= <-]. Qed.

Lemma view_Events o σ f : view o σ = Some f → Machine.Events f = Events o.
Proof. unfold view. destruct (σ !! FSM o); [|done]. by intros [= <-]. Qed.

(** One call of [Fire] on a stored object and on its view. *)
Lemma Fire_step o event σ f :
  view o σ = Some f →
  ∃ σ', Fire o event σ = Some ((Machine.Fire f event).2, σ')
        ∧ view o σ' = Some (Machine.Fire f event).1
        ∧ dom σ' = dom σ
        ∧ ∀ o', FSM o' ≠ FSM o → view o' σ' = view o' σ.
Proof.
  intros Hv. rewrite (Fire_Some _ _ _ _ Hv). eexists. split; [done|].
  split_and!.
  - rewrite view_insert. f_equal.
    pose proof (view_States _ _ _ Hv). pose proof (view_Events _ _ _ Hv).
    destruct (Machine.Fire f event).1 as [m' st ev] eqn:E.
    pose proof (Fire_States f event) as Hs.
    pose proof (Fire_Events f event) as He.
    rewrite E in Hs, He. simpl in *. congruence.
  - apply dom_insert_lookup_L. unfold view in Hv.
    destruct (σ !! FSM o); [by eexists|done].
  - intros o' Hne. by apply view_insert_ne.
Qed.

(** The store after the events [evs] are fired on [o] in order. *)
Definition run o (evs : list string) σ : Store :=
  foldl (λ σ event, default σ (snd <$> Fire o event σ)) σ evs.

Lemma run_view o evs σ f :
  view o σ = Some f →
  view o (run o evs σ) = Some (Runtime.run f evs)
  ∧ dom (run o evs σ) = dom σ
  ∧ ∀ o', FSM o' ≠ FSM o → view o' (run o evs σ) = view o' σ.
Proof.
  revert σ f. induction evs as [|event evs IH]; intros σ f Hv; [done|].
  destruct (Fire_step o event σ f Hv) as (σ' & HF & Hv' & Hd & Hframe).
  simpl. rewrite HF. simpl.
  destruct (IH _ _ Hv') as (IH1 & IH2 & IH3).
  split_and!; [done|congruence|].
  intros o' Hne. by rewrite IH3, Hframe.
Qed.

(** ** Several clients

    A schedule is the sequence of [Fire] calls that the clients of a
    store make, in the order they take effect: each step names the
    struct the call goes through and the event. *)

Definition step σ (call : Object * string) : Store :=
  run call.1 [call.2] σ.

Definition exec (schedule : list (Object * string)) σ : Store :=
  foldl step σ schedule.

(** The events of a schedule that go to the machine at [l], through
    whatever copy of a struct. *)
Definition events_at l (schedule : list (Object * string)) : list string :=
  snd <$> filter (λ call, FSM call.1 = l) schedule.

(** The errors that the calls of a schedule to the machine at [l]
    return, in order. *)
Fixpoint errors_at l (schedule : list (Object * string)) σ
  : list (option fsm.Error) :=
  match schedule with
  | [] => []
  | call :: schedule =>
      (if decide (FSM call.1 = l)
       then from_option (λ r, [r.1]) [] (Fire call.1 call.2 σ) else [])
      ++ errors_at l schedule (step σ call)
  end.

(** [Fire] sees of a struct its pointer only. *)
Lemma Fire_pointer o o' event σ :
  FSM o' = FSM o → Fire o' event σ = Fire o event σ.
Proof. unfold Fire. by intros ->. Qed.

Lemma step_view o σ f call :
  view o σ = Some f →
  view o (step σ call)
  = Some (if decide (FSM call.1 = FSM o) then (Machine.Fire f call.2).1
          else f).
Proof.
  intros Hv. unfold step, run. simpl. case_decide as Hp.
  - rewrite (Fire_pointer o _ _ _ Hp).
    by destruct (Fire_step o call.2 σ f Hv) as (σ' & -> & ? & _).
  - destruct (Fire call.1 call.2 σ) as [[err σ']|] eqn:E; [simpl|done].
    unfold Fire in E. destruct (σ !! FSM call.1); simplify_eq/=.
    rewrite view_insert_ne; done.
Qed.

Lemma exec_cons call schedule σ :
  exec (call :: schedule) σ = exec schedule (step σ call).
Proof. done. Qed.

Lemma exec_app schedule1 schedule2 σ :
  exec (schedule1 ++ schedule2) σ = exec schedule2 (exec schedule1 σ).
Proof. apply foldl_app. Qed.

Lemma events_at_app l schedule1 schedule2 :
  events_at l (schedule1 ++ schedule2)
  = events_at l schedule1 ++ events_at l schedule2.
Proof. unfold events_at. by rewrite filter_app, fmap_app. Qed.

Lemma events_at_cons l call schedule :
  events_at l (call :: schedule)
  = if decide (FSM call.1 = l) then call.2 :: events_at l schedule
    else events_at l schedule.
Proof. unfold events_at. rewrite filter_cons. by case_decide. Qed.

Lemma exec_view o schedule σ f :
  view o σ = Some f →
  view o (exec schedule σ)
  = Some (Runtime.run f (events_at (FSM o) schedule)).
Proof.
  revert σ f. induction schedule as [|call schedule IH]; intros σ f Hv;
    [done|].
  rewrite exec_cons, events_at_cons.
  erewrite IH by by apply step_view. by case_decide.
Qed.

(** The calls that go to a machine return what its events return when
    fired on the object alone. *)
Lemma errors_at_view o schedule σ f :
  view o σ = Some f →
  errors_at (FSM o) schedule σ
  = run_errors f (events_at (FSM o) schedule).
Proof.
  revert σ f. induction schedule as [|call schedule IH]; intros σ f Hv;
    [done|].
  simpl. rewrite events_at_cons, (IH _ _ (step_view o σ f call Hv)).
  case_decide as Hp; [|done].
  rewrite (Fire_pointer o _ _ _ Hp).
  by destruct (Fire_step o call.2 σ f Hv) as (σ' & -> & _).
Qed.
End store.
End store.

(** ** What the simpler model stands for *)

Section store_theorems.
Context `{fsm.Library} `{yaml.Parser bytes}.
Implicit Types (o : store.Object) (σ : store.Store) (event : string).
Implicit Types (d : config.EventDescYaml) (s : config.StateYaml).
Implicit Types (e : config.EventYaml).

(** The two transcriptions of [yamlToFSM] agree: with the store and
    without it the function succeeds and fails on the same inputs, with
    the same error; on success the new object stands for the object
    [Loader] builds, at the location [store.NewFSM] chose, and the
    objects allocated before stand for what they stood for. *)
Lemma yamlToFSM_store yamlSpec σ :
  match Loader.yamlToFSM yamlSpec with
  | Ok f =>
      ∃ o σ', store.yamlToFSM yamlSpec σ = (Ok o, σ')
              ∧ (store.FSM o ∉ dom σ)
              ∧ store.view o σ' = Some f
              ∧ ∀ o', store.allocated o' σ →
                      store.view o' σ' = store.view o' σ
  | Err err => store.yamlToFSM yamlSpec σ = (Err err, σ)
  end.
Proof.
  unfold Loader.yamlToFSM, store.yamlToFSM.
  destruct (decode_documents _) as [[[d s] e]|err]; [simpl|done].
  exists (store.build d s e σ).1, (store.build d s e σ).2.
  split_and!; [done|apply is_fresh|apply store.view_build|].
  intros o'. apply store.view_build_other.
Qed.

(** Objects with different pointers do not interfere: firing any
    sequence of events on one leaves what [Current] and
    [AvailableTransitions] return on the other unchanged. *)
Theorem run_frame o o' evs σ :
  store.allocated o σ → store.FSM o' ≠ store.FSM o →
  store.Current o' (store.run o evs σ) = store.Current o' σ
  ∧ store.AvailableTransitions o' (store.run o evs σ)
    = store.AvailableTransitions o' σ.
Proof.
  intros [f Hv]%store.allocated_view Hne.
  destruct (store.run_view o evs σ f Hv) as (_ & _ & Hframe).
  by rewrite !store.Current_view, !store.AvailableTransitions_view, Hframe.
Qed.

(** A copy of the struct shares the machine: after events are fired
    through [o], an object with the same pointer and the same tables
    returns from [Current] the state the events led to. *)
Theorem run_alias o o' evs σ f :
  store.view o σ = Some f →
  store.FSM o' = store.FSM o → store.States o' = store.States o →
  store.Current o' (store.run o evs σ) = Some (Current (run f evs)).
Proof.
  intros Hv Hp Hs.
  destruct (store.run_view o evs σ f Hv) as (Hv' & _).
  unfold store.Current. rewrite Hp, Hs.
  unfold store.view in Hv'.
  destruct (store.run o evs σ !! store.FSM o) as [m|]; [|done].
  simpl in *. injection Hv' as <-. done.
Qed.

(** C14: each machine sees its own events and nothing else, whatever the
    interleaving: after any schedule of [Fire] calls by any number of
    clients, an object stands for what its machine becomes by the calls
    of the schedule that go to its pointer, in their order, and
    [Current] and [AvailableTransitions] return accordingly. Calls
    through a copy of the struct count as its own; calls on the
    machines of other loads leave no trace. *)
Theorem schedule_session o schedule σ f :
  store.view o σ = Some f →
  store.view o (store.exec schedule σ)
  = Some (run f (store.events_at (store.FSM o) schedule))
  ∧ store.Current o (store.exec schedule σ)
    = Some (Current (run f (store.events_at (store.FSM o) schedule)))
  ∧ store.AvailableTransitions o (store.exec schedule σ)
    = Some (AvailableTransitions
              (run f (store.events_at (store.FSM o) schedule))).
Proof.
  intros Hv.
  rewrite store.Current_view, store.AvailableTransitions_view.
  by rewrite (store.exec_view o schedule σ f Hv).
Qed.

(** Calls on objects with different pointers commute. *)
Lemma Fire_commute o1 o2 event1 event2 σ :
  store.FSM o1 ≠ store.FSM o2 →
  store.run o2 [event2] (store.run o1 [event1] σ)
  = store.run o1 [event1] (store.run o2 [event2] σ).
Proof.
  intros Hne. unfold store.run, store.Fire. simpl.
  destruct (σ !! store.FSM o1) as [m1|] eqn:E1;
    destruct (σ !! store.FSM o2) as [m2|] eqn:E2; simpl;
    rewrite ?lookup_insert_ne, ?E1, ?E2 by done; simpl; [|done..].
  by apply insert_insert_ne.
Qed.
End store_theorems.
