(* ===== verification/Client.v ===== *)
(** * The caller's side: the menu

    [fsm.go] calls none of its own methods; the callers are the handlers
    of the chatbot, outside [src/]. Sections 4.3 and 7 of the
    specification say what a caller does: it shows the user the events
    [AvailableTransitions] returns, sorted by [orderID] when the order
    matters, and fires the event the user picks, so that a user is never
    answered "that is not available right now". This file states that
    protocol and proves what the program gives a caller who follows it.

    - [offers]: what a call of [AvailableTransitions] may return. The
      library lists the available names by walking a Go map, in an order
      that is not fixed; a result is determined up to its order.
    - [present]: a menu sorted by [OrderID], and [by_OrderID], the
      comparison.
    - [menu_driven]: a sequence of events each of which is the name of
      an event of the menu at the moment it is fired.
    - [accepted]: the events of a sequence that [Fire] accepted, the
      others having left no trace.

    The last section puts the caller among others, on the store of
    [Store]: what holds of a caller alone holds of a session under any
    interleaving with the calls of other sessions. *)

From stdpp Require Import gmap strings list sorting.
From S2P Require Import Prelude Integers Domain Fsm Yaml Config Machine Loader.
From S2P Require Import Runtime WellFormed Integrity Queries Store.

Module client.

(** Events compared by their order. *)
Definition by_OrderID : relation Event := λ ev1 ev2,
  (go.to_Z (event.OrderID ev1) ≤ go.to_Z (event.OrderID ev2))%Z.

#[export] Instance by_OrderID_dec ev1 ev2 : Decision (by_OrderID ev1 ev2).
Proof. unfold by_OrderID. apply _. Defined.

(** The menu in the order of presentation. *)
Definition present (menu : list Event) : list Event :=
  merge_sort by_OrderID menu.

(** The events [a] and [b] changing places. *)
Definition swap (a b ev : Event) : Event :=
  if decide (ev = a) then b else if decide (ev = b) then a else ev.

Section client.
Context `{fsm.Library}.
Implicit Types (f : FSMWithStatesAndEvents) (event : string) (ev : Event).
Implicit Types (menu : list Event) (events : list string).

(** [menu] is a result of [f.AvailableTransitions()]: the events of the
    loop, in the order of some walk over the library's table. *)
Definition offers f menu : Prop := menu ≡ₚ AvailableTransitions f.

(** Every event of the sequence is on the menu when it is fired. *)
Fixpoint menu_driven f events : Prop :=
  match events with
  | [] => True
  | event :: events =>
      event ∈ event.Name <$> AvailableTransitions f
      ∧ menu_driven (Fire f event).1 events
  end.

(** The events of the sequence that are accepted, fired in order. *)
Fixpoint accepted f events : list string :=
  match events with
  | [] => []
  | event :: events =>
      match (Fire f event).2 with
      | None => event :: accepted (Fire f event).1 events
      | Some _ => accepted (Fire f event).1 events
      end
  end.

#[export] Instance menu_driven_dec f events : Decision (menu_driven f events).
Proof. revert f. induction events; intros f; simpl; apply _. Defined.
End client.

(** ** The order of presentation *)

Section present.
Implicit Types (ev : Event) (menu l : list Event).

#[export] Instance by_OrderID_total : Total by_OrderID.
Proof. intros ev1 ev2. unfold by_OrderID. lia. Qed.

#[export] Instance by_OrderID_preorder : PreOrder by_OrderID.
Proof. split; [intros ev | intros ev1 ev2 ev3]; unfold by_OrderID; lia. Qed.

(** Events that compare both ways have the same order. *)
Lemma by_OrderID_antisym ev1 ev2 :
  by_OrderID ev1 ev2 → by_OrderID ev2 ev1 →
  event.OrderID ev1 = event.OrderID ev2.
Proof. unfold by_OrderID. intros. apply (inj go.to_Z). lia. Qed.

Lemma present_Permutation menu : present menu ≡ₚ menu.
Proof. apply merge_sort_Permutation. Qed.

Lemma present_Sorted menu : Sorted by_OrderID (present menu).
Proof. apply Sorted_merge_sort, _. Qed.

Lemma elem_of_present menu ev : ev ∈ present menu ↔ ev ∈ menu.
Proof. by rewrite present_Permutation. Qed.

(** When no two events of a menu have the same order, the menu has one
    sorted arrangement: whatever routine the caller sorts with returns
    it. *)
Lemma Sorted_present menu l :
  NoDup (event.OrderID <$> menu) → l ≡ₚ menu → Sorted by_OrderID l →
  l = present menu.
Proof.
  intros Hnd Hl Hs.
  apply (Sorted_unique_strong by_OrderID);
    [|done|apply present_Sorted|by rewrite present_Permutation].
  intros ev1 ev2 H1 H2 H12 H21. rewrite Hl in H1.
  rewrite elem_of_present in H2.
  apply (NoDup_fmap_eq event.OrderID menu); [done..|].
  by apply by_OrderID_antisym.
Qed.

(** The presentation does not depend on the order in which the events
    come. *)
Lemma present_unique menu menu' :
  NoDup (event.OrderID <$> menu) → menu' ≡ₚ menu →
  present menu' = present menu.
Proof.
  intros Hnd Hp. apply Sorted_present; [done| |apply present_Sorted].
  by rewrite present_Permutation.
Qed.

(** *** Events with the same order *)

Lemma swap_swap a b ev : swap a b (swap a b ev) = ev.
Proof. unfold swap. repeat case_decide; congruence. Qed.

#[export] Instance swap_inj a b : Inj (=) (=) (swap a b).
Proof. intros x y Hxy. by rewrite <-(swap_swap a b x), Hxy, swap_swap. Qed.

Lemma OrderID_swap a b ev :
  event.OrderID a = event.OrderID b →
  event.OrderID (swap a b ev) = event.OrderID ev.
Proof. unfold swap. intros. repeat case_decide; congruence. Qed.

Lemma elem_of_swap a b menu ev :
  a ∈ menu → b ∈ menu → ev ∈ swap a b <$> menu ↔ ev ∈ menu.
Proof.
  intros Ha Hb. rewrite list_elem_of_fmap. split.
  - intros (x & -> & Hx). unfold swap. by repeat case_decide.
  - intros Hev. exists (swap a b ev). rewrite swap_swap. split; [done|].
    unfold swap. by repeat case_decide.
Qed.

(** Two events of a menu that have the same order can change places in
    a sorted menu: the result is another sorted menu. *)
Lemma Sorted_swap menu a b l :
  NoDup menu → a ∈ menu → b ∈ menu → a ≠ b →
  event.OrderID a = event.OrderID b →
  l ≡ₚ menu → Sorted by_OrderID l →
  swap a b <$> l ≡ₚ menu ∧ Sorted by_OrderID (swap a b <$> l)
  ∧ swap a b <$> l ≠ l.
Proof.
  intros Hnd Ha Hb Hne Hab Hl Hs. rewrite <-Hl in Hnd, Ha, Hb.
  split_and!.
  - rewrite <-Hl. apply NoDup_Permutation; [by apply (NoDup_fmap_2 _)|done|].
    intros ev. by apply elem_of_swap.
  - revert Hs. apply Sorted_fmap. intros x y. unfold by_OrderID.
    by rewrite !OrderID_swap.
  - apply list_elem_of_lookup in Ha as [i Hi]. intros Heq.
    apply (f_equal (.!! i)) in Heq.
    rewrite list_lookup_fmap, Hi in Heq. simpl in Heq. unfold swap in Heq.
    rewrite decide_True in Heq by done. congruence.
Qed.

(** Sorting fixes a menu exactly when no two of its events have the
    same order. *)
Lemma present_determined menu :
  NoDup menu →
  NoDup (event.OrderID <$> menu)
  ↔ ∀ l, l ≡ₚ menu → Sorted by_OrderID l → l = present menu.
Proof.
  intros Hnd. split; [intros ? l; by apply Sorted_present|].
  intros Hone. apply NoDup_fmap_2_strong; [|done].
  intros a b Ha Hb Hab. destruct (decide (a = b)) as [|Hne]; [done|].
  destruct (Sorted_swap menu a b (present menu))
    as (Hp & Hs & []); [done..|apply present_Permutation|apply present_Sorted|].
  rewrite (Hone _ Hp Hs). symmetry.
  by apply Hone; [apply present_Permutation | apply present_Sorted].
Qed.
End present.

(** ** Events that are refused *)

Section accepted.
Context `{fsm.Library}.
Implicit Types (f : FSMWithStatesAndEvents) (event : string) (ev : Event).
Implicit Types (events : list string).

Lemma accepted_cons f event events :
  accepted f (event :: events)
  = match (Fire f event).2 with
    | None => event :: accepted (Fire f event).1 events
    | Some _ => accepted f events
    end.
Proof.
  simpl. destruct (Fire f event).2 eqn:E; [|done].
  by rewrite (Fire_refused _ _ _ E).
Qed.

(** A refused event leaves no trace: the machine ends where it ends
    when the accepted events alone are fired. *)
Lemma run_accepted f events : run f (accepted f events) = run f events.
Proof.
  revert f. induction events as [|event events IH]; intros f; [done|].
  rewrite accepted_cons, run_cons.
  destruct (Fire f event).2 eqn:E;
    [rewrite (Fire_refused _ _ _ E) | rewrite run_cons]; apply IH.
Qed.

Lemma run_errors_accepted f events :
  Forall (λ err, err = None) (run_errors f (accepted f events)).
Proof.
  revert f. induction events as [|event events IH]; intros f; [constructor|].
  rewrite accepted_cons. destruct (Fire f event).2 eqn:E; [apply IH|].
  simpl. rewrite E. by constructor.
Qed.

Lemma accepted_sublist f events : accepted f events `sublist_of` events.
Proof.
  revert f. induction events as [|event events IH]; intros f; [done|].
  rewrite accepted_cons.
  destruct (Fire f event).2; [by apply sublist_cons | by apply sublist_skip].
Qed.

(** A sequence of which no event is refused is its own accepted part. *)
Lemma accepted_all f events :
  Forall (λ err, err = None) (run_errors f events) ↔ accepted f events = events.
Proof.
  split.
  - revert f. induction events as [|event events IH]; intros f; [done|].
    rewrite accepted_cons. simpl. intros [-> ?]%Forall_cons.
    f_equal. by apply IH.
  - intros <-. apply run_errors_accepted.
Qed.
End accepted.

(** ** What the menu promises *)

Section menu.
Context `{fsm.Library}.
Implicit Types (f : FSMWithStatesAndEvents) (event : string) (ev : Event).
Implicit Types (menu : list Event) (events : list string).

(** The result the model computes is a result, and so is every
    rearrangement of a result. *)
Lemma offers_AvailableTransitions f : offers f (AvailableTransitions f).
Proof. by unfold offers. Qed.

#[export] Instance offers_proper f : Proper ((≡ₚ) ==> iff) (offers f).
Proof. unfold offers. by intros menu1 menu2 ->. Qed.

Lemma elem_of_offers f menu ev :
  offers f menu → ev ∈ menu ↔ ev ∈ AvailableTransitions f.
Proof. unfold offers. by intros ->. Qed.

(** On a well-formed object an event of the menu that is not the zero
    event carries a name the library lists. *)
Lemma offer_named f ev :
  well_formed f → ev ∈ AvailableTransitions f → ev ≠ zero →
  event.Name ev ∈ fsm.AvailableTransitions (FSM f).
Proof.
  intros Hwf (t & Ht & ->)%elem_of_AvailableTransitions Hz.
  destruct (well_formed_Events f t Hwf) as [?| ->]; [done|].
  by apply fsm.AvailableTransitions_spec.
Qed.

(** An available event that is in no table puts the zero event on the
    menu, and the name the zero event carries is refused unless an
    event with the empty name is available too. *)
Lemma offer_zero f t :
  t ∈ fsm.AvailableTransitions (FSM f) → Events f !! t = None →
  zero ∈ AvailableTransitions f
  ∧ ("" ∉ fsm.AvailableTransitions (FSM f) →
     (Fire f (event.Name zero)).2 ≠ None).
Proof.
  intros Ht Hno. split.
  - rewrite AvailableTransitions_fmap. apply list_elem_of_fmap.
    exists t. by rewrite (go_index_None _ _ Hno).
  - intros Hn. by rewrite Fire_succeeds_iff.
Qed.
End menu.

Section built.
Context `{fsm.Library}.
Implicit Types (d : config.EventDescYaml) (s : config.StateYaml).
Implicit Types (e : config.EventYaml) (f : FSMWithStatesAndEvents).
Implicit Types (menu : list Event) (events : list string).

(** A caller follows the menu through a sequence when it follows it
    through the beginning and, from where that leads, through the
    rest. *)
Lemma menu_driven_app f events1 events2 :
  menu_driven f (events1 ++ events2)
  ↔ menu_driven f events1 ∧ menu_driven (run f events1) events2.
Proof.
  revert f. induction events1 as [|event events1 IH]; intros f.
  - simpl. naive_solver.
  - rewrite run_cons. simpl. rewrite IH. naive_solver.
Qed.

(** Under referential integrity the events on the menu are the events
    that are accepted. *)
Lemma menu_driven_run_errors d s e f events :
  referential_integrity d s e → reachable (build d s e) f →
  menu_driven f events ↔ Forall (λ err, err = None) (run_errors f events).
Proof.
  intros Hi. revert f.
  induction events as [|event events IH]; intros f Hr; simpl.
  - by split; [constructor|].
  - rewrite Forall_cons, (IH (Fire f event).1) by by constructor.
    by rewrite (proj2 (AvailableTransitions_reachable d s e f Hi Hr)),
      <-Fire_succeeds_iff.
Qed.

(** Under referential integrity every result of [AvailableTransitions]
    lists declared events, none twice, and their names are the events
    that are accepted. *)
Lemma offers_declared d s e f menu :
  referential_integrity d s e → reachable (build d s e) f → offers f menu →
  NoDup menu
  ∧ (∀ ev, ev ∈ menu → ev ∈ config.Events e)
  ∧ ∀ n, n ∈ event.Name <$> menu ↔ (Fire f n).2 = None.
Proof.
  intros Hi Hr Ho. unfold offers in Ho.
  destruct (AvailableTransitions_declared d s e f Hi Hr) as [Hn Hd].
  split_and!; [by rewrite Ho | intros ev; rewrite Ho; apply Hd |].
  intros n. rewrite Ho.
  by rewrite (proj2 (AvailableTransitions_reachable d s e f Hi Hr)),
    Fire_succeeds_iff.
Qed.

(** When the declared events have pairwise different orders, so have
    the events of a menu. *)
Lemma NoDup_OrderID_AvailableTransitions d s e f :
  referential_integrity d s e →
  NoDup (event.OrderID <$> config.Events e) →
  reachable (build d s e) f →
  NoDup (event.OrderID <$> AvailableTransitions f).
Proof.
  intros Hi Hnd Hr.
  destruct (AvailableTransitions_declared d s e f Hi Hr) as [Hn Hd].
  apply NoDup_fmap_2_strong; [|done].
  intros ev1 ev2 ?%Hd ?%Hd.
  by apply (NoDup_fmap_eq event.OrderID (config.Events e)).
Qed.

(** C11: a caller that fires only what is on the menu is never refused.
    On every object reached from a machine built from a configuration
    with referential integrity, the sequences of events each of which
    names an event [AvailableTransitions] returns at the moment it is
    fired are exactly the sequences of which [Fire] accepts every
    event; and whatever a caller fires, the machine ends where the
    menu-driven caller ends that fires the accepted events alone. *)
Theorem menu_driven_accepted d s e f events :
  referential_integrity d s e → reachable (build d s e) f →
  (menu_driven f events
   ↔ Forall (λ err, err = None) (run_errors f events))
  ∧ menu_driven f (accepted f events)
  ∧ run f (accepted f events) = run f events.
Proof.
  intros Hi Hr. split_and!.
  - by apply (menu_driven_run_errors d s e).
  - apply (menu_driven_run_errors d s e); [done..|].
    apply run_errors_accepted.
  - apply run_accepted.
Qed.

(** C26: sorting by [orderID] fixes the menu a user sees exactly when no
    two events on it have the same [orderID]. On every object reached
    from a machine built from a configuration with referential
    integrity, the results of [AvailableTransitions], which differ by
    the order in which the library walks its table, all have the same
    sorted arrangement if and only if the events returned have pairwise
    different orders; they have when the declared events have; and the
    names on the sorted menu are exactly the events [Fire] accepts. *)
Theorem present_stable d s e f :
  referential_integrity d s e → reachable (build d s e) f →
  (NoDup (event.OrderID <$> AvailableTransitions f)
   ↔ ∀ menu l, offers f menu → l ≡ₚ menu → Sorted by_OrderID l →
               l = present (AvailableTransitions f))
  ∧ (NoDup (event.OrderID <$> config.Events e) →
     NoDup (event.OrderID <$> AvailableTransitions f))
  ∧ ∀ menu n, offers f menu →
              n ∈ event.Name <$> present menu ↔ (Fire f n).2 = None.
Proof.
  intros Hi Hr.
  destruct (AvailableTransitions_declared d s e f Hi Hr) as [Hn _].
  split_and!.
  - rewrite (present_determined _ Hn). split.
    + intros Hone menu l Ho Hl. apply Hone. by rewrite Hl.
    + intros Hone l. by apply Hone, offers_AvailableTransitions.
  - intros Hnd. by apply (NoDup_OrderID_AvailableTransitions d s e).
  - intros menu n Ho. rewrite present_Permutation.
    by apply (offers_declared d s e).
Qed.
End built.

(** ** A session among others *)

Section sessions.
Context `{fsm.Library}.
Implicit Types (d : config.EventDescYaml) (s : config.StateYaml).
Implicit Types (e : config.EventYaml) (f : FSMWithStatesAndEvents).
Implicit Types (o : store.Object) (σ : store.Store).
Implicit Types (schedule : list (store.Object * string)).

(** A session is never refused because of the sessions of other
    loads. With the machines in one store and the [Fire] calls of any
    number of sessions interleaved in any way, the calls that reach the
    machine of an object built from a configuration with referential
    integrity are all accepted exactly when each of their events is on
    the menu of that machine at the moment it is fired: a refusal comes
    from the events of the session itself, or of a session that shares
    its machine. *)
Theorem session_never_refused d s e o σ f schedule :
  referential_integrity d s e →
  store.view o σ = Some f → reachable (build d s e) f →
  menu_driven f (store.events_at (store.FSM o) schedule)
  ↔ Forall (λ err, err = None) (store.errors_at (store.FSM o) schedule σ).
Proof.
  intros Hi Hv Hr. rewrite (store.errors_at_view o schedule σ f Hv).
  by apply (menu_driven_run_errors d s e).
Qed.
End sessions.

Section loaded.
Context `{fsm.Library} `{yaml.Parser bytes}.
Implicit Types (f : FSMWithStatesAndEvents) (yamlSpec : bytes).
Implicit Types (menu : list Event) (ev : Event).

(** C22: every named offer is honoured, whatever the configuration. On
    every object reached from one [yamlToFSM] returns, an event that
    [AvailableTransitions] returns and that is not the zero event is
    accepted by [Fire] when its name is fired: the zero event is the
    only entry of a menu that can lead to a refusal. *)
Theorem named_offer_accepted yamlSpec f0 f menu ev :
  yamlToFSM yamlSpec = Ok f0 → reachable f0 f →
  offers f menu → ev ∈ menu → ev ≠ zero →
  (Fire f (event.Name ev)).2 = None.
Proof.
  intros (d & s & e & _ & ->)%yamlToFSM_Ok Hr Ho Hev%(elem_of_offers f) Hz;
    [|done].
  apply Fire_succeeds_iff, offer_named; [|done..].
  apply (reachable_well_formed (build d s e)); [|done].
  apply build_well_formed.
Qed.
End loaded.

End client.

Export (hints) client.
