(* ===== verification/Goroutines.v ===== *)
(** * Goroutines: the methods statement by statement

    Section 5 of the specification leaves locking to the callers: the
    engine has none of its own, and several goroutines may hold copies of
    one struct. [Store] takes each call as one step. This file takes the
    methods of [fsm.go] apart: [AvailableTransitions] reads the machine
    once, in its first statement, and then ranges over the slice the
    library returned, one iteration at a time; [Current] is one
    statement; the library's [Event] is one step, the library keeping
    its machine under a lock of its own. A goroutine is at the entry of
    a call, inside the loop, or back from the call ([goroutine.Frame]);
    a pool of goroutines shares the store; a schedule names the
    goroutine that executes its next statement ([goroutine.exec]), and
    the configurations a pool can reach are those some schedule leads
    to ([goroutine.steps]).

    The theorems say that nothing is lost by taking calls whole. No
    goroutine panics and no statement allocates, as long as the structs
    hold machines. Every call takes effect at its first statement: what
    it returns is what the call returns when it runs alone in the store
    of that moment, however the statements of other goroutines fall
    between its own. It returns after as many of its own statements as
    the menu has events, and two more, whatever the other goroutines
    do. The store at the end of a schedule is the store after the calls
    that write it, each taken whole, in the order of their first
    statements, and the goroutines return what these calls return; so
    every machine sees the events fired on it in that order. Callers
    that ask for the menu before they fire, with no other event on the
    machine in between ([goroutine.follows_menu]), are never refused;
    without that discipline a menu can be overtaken inside the loop:
    [Scenarios] has the schedule. *)

From stdpp Require Import gmap strings list.
From S2P Require Import Prelude Domain Fsm Yaml Config Machine Loader Runtime.
From S2P Require Import WellFormed Integrity Queries Store Client.

Module goroutine.

(** A call of one of the three operations of section 4.3, through a copy
    of the struct. *)
Inductive Call : Type :=
| CallCurrent (f : store.Object)
| CallAvailableTransitions (f : store.Object)
| CallEvent (f : store.Object) (event : string).

(** What a call returns: a [State], a slice of [Event], the [error] of
    the library; [Panic] is the run-time panic of a pointer that holds
    no machine. *)
Inductive Return : Type :=
| RetState (s : State)
| RetEvents (res : list Event)
| RetError (err : option fsm.Error)
| Panic.

(** Where a goroutine stands: at the entry of a call; in
    [AvailableTransitions] at the head of the loop, with the names still
    to range over and the value of [res]; after the return. *)
Inductive Frame : Type :=
| Called (c : Call)
| Ranging (f : store.Object) (transitions : list string) (res : list Event)
| Returned (r : Return).

#[export] Instance Call_eq_dec : EqDecision Call.
Proof. solve_decision. Defined.
#[export] Instance Return_eq_dec : EqDecision Return.
Proof. solve_decision. Defined.
#[export] Instance Frame_eq_dec : EqDecision Frame.
Proof. solve_decision. Defined.

(** The goroutine has executed the first statement of its call. *)
Definition started (fr : Frame) : Prop :=
  match fr with Called _ => False | _ => True end.

#[export] Instance started_dec fr : Decision (started fr).
Proof. destruct fr; apply _. Defined.

(** The struct a call goes through. *)
Definition receiver (c : Call) : store.Object :=
  match c with
  | CallCurrent f | CallAvailableTransitions f | CallEvent f _ => f
  end.

(** The frames of a goroutine that runs the call [c]: the call not yet
    started; the loop of [AvailableTransitions], on the struct of the
    call; a value of the type the operation returns. A panic is none of
    them. *)
Definition frame_of (c : Call) (fr : Frame) : Prop :=
  match fr with
  | Called c' => c' = c
  | Ranging f _ _ => c = CallAvailableTransitions f
  | Returned r =>
      match c, r with
      | CallCurrent _, RetState _
      | CallAvailableTransitions _, RetEvents _
      | CallEvent _ _, RetError _ => True
      | _, _ => False
      end
  end.

#[export] Instance frame_of_dec c fr : Decision (frame_of c fr).
Proof.
  destruct fr as [|f ts res|r]; [| |destruct c, r]; simpl; apply _.
Defined.

(** The statements of [AvailableTransitions] after the first:
    [for _, t := range transitions { res = append(res, f.Events[t]) }],
    one iteration at a time, and [return res]. They read the struct and
    the local variables only. *)
Definition local (fr : Frame) : Frame :=
  match fr with
  | Ranging f (t :: transitions) res =>
      Ranging f transitions (res ++ [store.Events f !!₀ t])
  | Ranging f [] res => Returned (RetEvents res)
  | fr => fr
  end.

(** The statements a started goroutine has yet to execute. *)
Definition remaining (fr : Frame) : nat :=
  match fr with
  | Ranging _ transitions _ => S (length transitions)
  | _ => 0
  end.

(** What a started goroutine is going to return. *)
Definition outcome (fr : Frame) : option Return :=
  match fr with
  | Called _ => None
  | Ranging f transitions res =>
      Some (RetEvents
              (foldl (λ res t, res ++ [store.Events f !!₀ t]) res transitions))
  | Returned r => Some r
  end.

(** The call a goroutine is about to make. *)
Definition pending (pool : list Frame) (i : nat) : option Call :=
  fr ← pool !! i; match fr with Called c => Some c | _ => None end.

(** The order in which the goroutines of a schedule execute their first
    statement. *)
Fixpoint first_steps (schedule : list nat) : list nat :=
  match schedule with
  | [] => []
  | i :: schedule => i :: filter (λ j, j ≠ i) (first_steps schedule)
  end.

(** The calls of a pool that a schedule starts, in the order in which
    it starts them. *)
Definition linearization (pool : list Frame) (schedule : list nat)
  : list Call :=
  omap (pending pool) (first_steps schedule).

(** The calls that write the store, as calls of a schedule of [Store]. *)
Definition fired (calls : list Call) : list (store.Object * string) :=
  omap (λ c, match c with CallEvent f event => Some (f, event) | _ => None end)
       calls.

(** The error an [Event] call on the machine at [l] has returned. *)
Definition refusal (l : store.loc) (c : Call) (fr : Frame)
  : option fsm.Error :=
  match c, fr with
  | CallEvent f _, Returned (RetError err) =>
      if decide (store.FSM f = l) then err else None
  | _, _ => None
  end.

(** The errors that the [Event] calls on the machine at [l] have
    returned, by goroutine. *)
Definition refusals (l : store.loc) (calls : list Call) (pool : list Frame)
  : list fsm.Error :=
  omap (λ p, refusal l p.1 p.2) (zip calls pool).

(** The discipline of the callers of the machine of the struct [o],
    on calls in the order in which they take effect and what they
    return: every [Event] call on the machine comes after an
    [AvailableTransitions] call through [o] that returned its event,
    with no other [Event] call on the machine in between. [menu] is
    what the last such call returned; it is spent once an event is
    fired. *)
Fixpoint follows_menu (o : store.Object) (menu : list Event)
    (calls : list Call) (rs : list Return) : Prop :=
  match calls, rs with
  | CallAvailableTransitions f :: calls, RetEvents res :: rs =>
      follows_menu o (if decide (f = o) then res else menu) calls rs
  | CallEvent f event :: calls, _ :: rs =>
      if decide (store.FSM f = store.FSM o)
      then event ∈ event.Name <$> menu ∧ follows_menu o [] calls rs
      else follows_menu o menu calls rs
  | _ :: calls, _ :: rs => follows_menu o menu calls rs
  | _, _ => True
  end.

#[global] Instance follows_menu_dec o menu calls rs :
  Decision (follows_menu o menu calls rs).
Proof.
  revert menu rs. induction calls as [|[f|f|f event] calls IH];
    intros menu [|[] rs]; simpl; try case_decide; apply _.
Defined.

(** [go] statements: one goroutine per call, none started. *)
Definition spawn {Σ} (calls : list Call) (σ : Σ) : list Frame * Σ :=
  (Called <$> calls, σ).

Section goroutine.
Context `{fsm.Library}.
Implicit Types (c : Call) (fr : Frame) (r : Return) (σ : store.Store).
Implicit Types (pool : list Frame) (schedule : list nat) (i j : nat).

(** The first statement of a call, the one that goes through the
    pointer: [return f.States[f.FSM.Current()]] in [Current];
    [transitions := f.FSM.AvailableTransitions()] and [res := []Event{}]
    in [AvailableTransitions]; the whole of [f.FSM.Event(event)]. *)
Definition enter c σ : Frame * store.Store :=
  match c with
  | CallCurrent f =>
      (Returned (from_option RetState Panic (store.Current f σ)), σ)
  | CallAvailableTransitions f =>
      (from_option (λ m, Ranging f (fsm.AvailableTransitions m) [])
                   (Returned Panic) (σ !! store.FSM f), σ)
  | CallEvent f event =>
      match store.Fire f event σ with
      | Some (err, σ') => (Returned (RetError err), σ')
      | None => (Returned Panic, σ)
      end
  end.

(** One statement of a goroutine. A goroutine that has returned stays
    where it is. *)
Definition step fr σ : Frame * store.Store :=
  match fr with
  | Called c => enter c σ
  | fr => (local fr, σ)
  end.

(** The call taken whole: what [Store] gives for it. *)
Definition call c σ : Return * store.Store :=
  match c with
  | CallCurrent f => (from_option RetState Panic (store.Current f σ), σ)
  | CallAvailableTransitions f =>
      (from_option RetEvents Panic (store.AvailableTransitions f σ), σ)
  | CallEvent f event =>
      match store.Fire f event σ with
      | Some (err, σ') => (RetError err, σ')
      | None => (Panic, σ)
      end
  end.

(** The statements a call executes in a store. *)
Definition statements c σ : nat := S (remaining (enter c σ).1).

(** Goroutine [i] executes a statement; a number that names no
    goroutine does nothing. *)
Definition sched_step (ρ : list Frame * store.Store) i
  : list Frame * store.Store :=
  match ρ.1 !! i with
  | Some fr => (<[i := (step fr ρ.2).1]> ρ.1, (step fr ρ.2).2)
  | None => ρ
  end.

(** A schedule, statement by statement. *)
Definition exec schedule (ρ : list Frame * store.Store)
  : list Frame * store.Store :=
  foldl sched_step ρ schedule.

(** The configurations a pool can reach: any goroutine may execute the
    next statement. *)
Inductive steps (ρ : list Frame * store.Store)
  : list Frame * store.Store → Prop :=
| steps_refl : steps ρ ρ
| steps_step ρ' i : steps ρ ρ' → steps ρ (sched_step ρ' i).

(** Calls one after the other, each taken whole. *)
Definition atomic (calls : list Call) σ : store.Store :=
  foldl (λ σ c, (call c σ).2) σ calls.

(** What the calls return, one after the other, each taken whole. *)
Fixpoint results (calls : list Call) σ : list Return :=
  match calls with
  | [] => []
  | c :: calls => (call c σ).1 :: results calls (call c σ).2
  end.

(** What the goroutines of a pool return or are going to return, in a
    given order; a goroutine that has not started has no entry. *)
Definition history (pool : list Frame) (order : list nat) : list Return :=
  omap (λ i, pool !! i ≫= outcome) order.

(** The number of statements goroutine [i] executes in a schedule. *)
Definition turns i schedule : nat := length (filter (λ j, j = i) schedule).

(** ** One goroutine *)

Lemma started_local fr : started fr → started (local fr).
Proof. by destruct fr as [|f [|]|]. Qed.

Lemma outcome_local fr : outcome (local fr) = outcome fr.
Proof. by destruct fr as [|f [|]|]. Qed.

Lemma remaining_local fr : remaining (local fr) = pred (remaining fr).
Proof. by destruct fr as [|f [|]|]. Qed.

Lemma started_iter n fr : started fr → started (Nat.iter n local fr).
Proof. intros ?. induction n; [done|]. by apply started_local. Qed.

Lemma outcome_iter n fr : outcome (Nat.iter n local fr) = outcome fr.
Proof. induction n; [done|]. simpl. by rewrite outcome_local. Qed.

Lemma remaining_iter n fr :
  remaining (Nat.iter n local fr) = remaining fr - n.
Proof.
  induction n as [|n IH]; simpl; [lia|]. rewrite remaining_local, IH. lia.
Qed.

(** A started goroutine with nothing left to execute has returned what
    it was going to return. *)
Lemma remaining_0 fr r :
  started fr → outcome fr = Some r → remaining fr = 0 → fr = Returned r.
Proof. destruct fr; naive_solver. Qed.

Lemma iter_Returned n fr r :
  started fr → outcome fr = Some r → (remaining fr ≤ n)%nat →
  Nat.iter n local fr = Returned r.
Proof.
  intros Hs Ho Hn. apply remaining_0.
  - by apply started_iter.
  - by rewrite outcome_iter.
  - rewrite remaining_iter. lia.
Qed.

(** A started goroutine has returned after [n] statements exactly when
    it had no more than [n] left, and then with what it was going to
    return. *)
Lemma iter_local_Returned n fr r :
  started fr →
  Nat.iter n local fr = Returned r
  ↔ outcome fr = Some r ∧ (remaining fr ≤ n)%nat.
Proof.
  intros Hs. split.
  - intros Hr. rewrite <-(outcome_iter n), <-Nat.sub_0_le, <-remaining_iter.
    by rewrite Hr.
  - intros [? ?]. by apply iter_Returned.
Qed.

Lemma step_started fr σ : started fr → step fr σ = (local fr, σ).
Proof. by destruct fr. Qed.

(** The first statement decides what the call returns and does all it
    does to the store. *)
Lemma enter_call c σ :
  started (enter c σ).1 ∧ outcome (enter c σ).1 = Some (call c σ).1
  ∧ (enter c σ).2 = (call c σ).2.
Proof.
  destruct c as [f|f|f event]; simpl.
  - done.
  - unfold store.AvailableTransitions. by destruct (σ !! store.FSM f).
  - by destruct (store.Fire f event σ) as [[err σ']|].
Qed.

Lemma statements_call c σ :
  statements c σ
  = match (call c σ).1 with RetEvents res => 2 + length res | _ => 1 end.
Proof.
  unfold statements. destruct c as [f|f|f event]; simpl.
  - by destruct (store.Current f σ).
  - unfold store.AvailableTransitions.
    destruct (σ !! store.FSM f) as [m|]; simpl; [|done].
    by rewrite (foldl_append (go_index _)), length_app, length_fmap.
  - by destruct (store.Fire f event σ) as [[err σ']|].
Qed.

(** ** A pool under a schedule *)

Lemma pool_exec_cons i schedule ρ :
  exec (i :: schedule) ρ = exec schedule (sched_step ρ i).
Proof. done. Qed.

Lemma pool_exec_app schedule1 schedule2 ρ :
  exec (schedule1 ++ schedule2) ρ = exec schedule2 (exec schedule1 ρ).
Proof. apply foldl_app. Qed.

Lemma atomic_app calls1 calls2 σ :
  atomic (calls1 ++ calls2) σ = atomic calls2 (atomic calls1 σ).
Proof. apply foldl_app. Qed.

Lemma turns_cons i j schedule :
  turns i (j :: schedule)
  = if decide (j = i) then S (turns i schedule) else turns i schedule.
Proof. unfold turns. rewrite filter_cons. by case_decide. Qed.

Lemma pending_Some pool i c :
  pending pool i = Some c ↔ pool !! i = Some (Called c).
Proof.
  unfold pending. destruct (pool !! i) as [[| |]|]; naive_solver.
Qed.

Lemma pending_spawn (calls : list Call) i :
  pending (Called <$> calls) i = calls !! i.
Proof. unfold pending. rewrite list_lookup_fmap. by destruct (calls !! i). Qed.

(** A statement of goroutine [i] changes the frame of [i] and no
    other. *)
Lemma sched_step_lookup ρ i j :
  (sched_step ρ i).1 !! j
  = if decide (j = i) then (λ fr, (step fr ρ.2).1) <$> ρ.1 !! i
    else ρ.1 !! j.
Proof.
  unfold sched_step. destruct (ρ.1 !! i) as [fr|] eqn:E; simpl.
  - case_decide as Hj.
    + subst j. apply list_lookup_insert_eq. by eapply lookup_lt_Some.
    + by apply list_lookup_insert_ne.
  - case_decide; by subst.
Qed.

(** It changes the store when it is the first of a call, and then as
    the whole call does. *)
Lemma sched_step_store ρ i :
  (sched_step ρ i).2 = atomic (option_list (pending ρ.1 i)) ρ.2.
Proof.
  unfold sched_step, pending.
  destruct (ρ.1 !! i) as [[c|f ts res|r]|]; simpl; try done.
  apply enter_call.
Qed.

(** After it goroutine [i] has started. *)
Lemma pending_sched_step ρ i j :
  pending (sched_step ρ i).1 j
  = if decide (j = i) then None else pending ρ.1 j.
Proof.
  unfold pending. rewrite sched_step_lookup. case_decide; [|done].
  destruct (ρ.1 !! i) as [[c|f [|t ts] res|r]|]; simpl; try done.
  pose proof (enter_call c ρ.2) as [Hs _]. by destruct (enter c ρ.2).1.
Qed.

Lemma omap_filter_ne {A} (g g' : nat → option A) i (l : list nat) :
  (∀ j, g' j = if decide (j = i) then None else g j) →
  omap g' l = omap g (filter (λ j, j ≠ i) l).
Proof.
  intros Hg. induction l as [|j l IH]; [done|].
  rewrite filter_cons. csimpl. rewrite Hg, IH.
  by repeat case_decide.
Qed.

(** The calls a schedule starts: the call its first statement starts,
    if any, and the calls the rest starts in the pool after it. *)
Lemma linearization_cons pool σ i schedule :
  linearization pool (i :: schedule)
  = option_list (pending pool i)
    ++ linearization (sched_step (pool, σ) i).1 schedule.
Proof.
  unfold linearization. simpl.
  rewrite (omap_filter_ne (pending pool) (pending (sched_step (pool, σ) i).1) i)
    by apply pending_sched_step.
  by destruct (pending pool i).
Qed.

Lemma linearization_app pool σ schedule1 schedule2 :
  linearization pool (schedule1 ++ schedule2)
  = linearization pool schedule1
    ++ linearization (exec schedule1 (pool, σ)).1 schedule2.
Proof.
  revert pool σ. induction schedule1 as [|i schedule1 IH]; intros pool σ;
    [done|].
  rewrite <-app_comm_cons, !(linearization_cons pool σ), pool_exec_cons.
  destruct (sched_step (pool, σ) i) as [pool' σ'].
  simpl. by rewrite (IH pool' σ'), app_assoc.
Qed.

(** The store after a schedule is the store after the calls it starts,
    each taken whole, in the order in which it starts them. *)
Lemma exec_store schedule pool σ :
  (exec schedule (pool, σ)).2 = atomic (linearization pool schedule) σ.
Proof.
  revert pool σ. induction schedule as [|i schedule IH]; intros pool σ;
    [done|].
  rewrite pool_exec_cons, (linearization_cons pool σ), atomic_app.
  rewrite <-(sched_step_store (pool, σ)).
  destruct (sched_step (pool, σ) i) as [pool' σ']. apply IH.
Qed.

(** A goroutine that is not scheduled stays where it is. *)
Lemma exec_lookup_ne schedule ρ i :
  i ∉ schedule → (exec schedule ρ).1 !! i = ρ.1 !! i.
Proof.
  revert ρ. induction schedule as [|j schedule IH]; intros ρ Hi; [done|].
  apply not_elem_of_cons in Hi as [Hj Hi].
  rewrite pool_exec_cons, IH, sched_step_lookup by done. by case_decide.
Qed.

Lemma pending_exec_ne schedule ρ i :
  i ∉ schedule → pending (exec schedule ρ).1 i = pending ρ.1 i.
Proof. intros Hi. unfold pending. by rewrite exec_lookup_ne. Qed.

(** A started goroutine runs on its own: where it stands depends on
    the number of its turns and on nothing else. *)
Lemma exec_lookup_started schedule ρ i fr :
  ρ.1 !! i = Some fr → started fr →
  (exec schedule ρ).1 !! i = Some (Nat.iter (turns i schedule) local fr).
Proof.
  revert ρ fr. induction schedule as [|j schedule IH]; intros ρ fr Hi Hs;
    [done|].
  rewrite pool_exec_cons, turns_cons. case_decide as Hj.
  - subst j. rewrite Nat.iter_succ_r. apply IH; [|by apply started_local].
    rewrite sched_step_lookup, decide_True, Hi by done. simpl.
    by rewrite step_started.
  - apply IH; [|done]. by rewrite sched_step_lookup, decide_False.
Qed.

(** The schedule around the first statement of goroutine [i]. *)
Lemma exec_first_step before after ρ i c :
  pending ρ.1 i = Some c → i ∉ before →
  (exec (before ++ i :: after) ρ).1 !! i
  = Some (Nat.iter (turns i after) local (enter c (exec before ρ).2).1)
  ∧ (exec (before ++ [i]) ρ).2 = (call c (exec before ρ).2).2.
Proof.
  intros Hc%pending_Some Hi. rewrite !pool_exec_app, !pool_exec_cons.
  pose proof (exec_lookup_ne before ρ i Hi) as Hb. rewrite Hc in Hb.
  pose proof (enter_call c (exec before ρ).2) as (Hs & _ & Hσ).
  split.
  - apply exec_lookup_started; [|done].
    by rewrite sched_step_lookup, decide_True, Hb.
  - simpl. rewrite sched_step_store.
    by rewrite (proj2 (pending_Some _ _ _) Hb).
Qed.

(** What a schedule makes the goroutines return: what the calls it
    starts return when each is taken whole, in the order in which it
    starts them. The goroutines that had started before are left
    out. *)
Lemma exec_results schedule pool σ :
  omap (λ i, pending pool i ≫= λ _,
               (exec schedule (pool, σ)).1 !! i ≫= outcome)
       (first_steps schedule)
  = results (linearization pool schedule) σ.
Proof.
  revert pool σ. induction schedule as [|i schedule IH]; intros pool σ;
    [done|].
  rewrite (linearization_cons pool σ), pool_exec_cons. simpl.
  destruct (sched_step (pool, σ) i) as [pool' σ'] eqn:E.
  pose proof (pending_sched_step (pool, σ) i) as Hp.
  pose proof (sched_step_store (pool, σ) i) as Hσ.
  pose proof (sched_step_lookup (pool, σ) i i) as Hi.
  rewrite E, decide_True in Hi by done. rewrite E in Hp, Hσ. simpl in *.
  rewrite <-(omap_filter_ne _ (λ j, pending pool' j ≫= λ _,
                                 (exec schedule (pool', σ')).1 !! j ≫= outcome))
    by (intros j; rewrite Hp; by case_decide).
  rewrite IH. destruct (pending pool i) as [c|] eqn:Hc; simpl; [|by subst].
  apply pending_Some in Hc. rewrite Hc in Hi. simpl in Hi.
  destruct (enter_call c σ) as (Hs & Ho & _).
  rewrite (exec_lookup_started schedule (pool', σ') i _ Hi Hs). simpl.
  rewrite outcome_iter, Ho. simpl. by subst.
Qed.

Lemma exec_length schedule ρ : length (exec schedule ρ).1 = length ρ.1.
Proof.
  revert ρ. induction schedule as [|i schedule IH]; intros ρ; [done|].
  rewrite pool_exec_cons, IH. unfold sched_step.
  destruct (ρ.1 !! i); [apply length_insert|done].
Qed.

(** From a pool of which no goroutine has started, every goroutine the
    schedule names is in the history. *)
Lemma history_spawn calls schedule σ :
  history (exec schedule (spawn calls σ)).1 (first_steps schedule)
  = results (linearization (Called <$> calls) schedule) σ.
Proof.
  rewrite <-exec_results. apply list_omap_ext, Forall_Forall2_diag.
  apply Forall_forall. intros i _. rewrite pending_spawn.
  destruct (calls !! i) as [c|] eqn:Hc; [done|]. simpl.
  rewrite (proj2 (lookup_ge_None _ i)); [done|].
  rewrite exec_length. simpl. rewrite length_fmap.
  by apply lookup_ge_None.
Qed.

(** ** Callers that ask before they fire *)

(** Calls taken whole, one after the other: when the callers of a
    machine follow the menu, every event fired on the machine is on its
    menu at that moment. *)
Lemma follows_menu_driven o σ f menu calls :
  store.view o σ = Some f → menu ⊆ AvailableTransitions f →
  follows_menu o menu calls (results calls σ) →
  client.menu_driven f (store.events_at (store.FSM o) (fired calls)).
Proof.
  revert σ f menu.
  induction calls as [|[f'|f'|f' event] calls IH]; intros σ f menu Hv Hm;
    [done|simpl..].
  - by apply IH.
  - destruct (store.AvailableTransitions f' σ) as [res|] eqn:E;
      simpl; [|by apply IH].
    case_decide as Ho; [|by apply IH]. subst f'. apply IH; [done|].
    rewrite store.AvailableTransitions_view, Hv in E. by injection E as <-.
  - rewrite store.events_at_cons. simpl.
    destruct (store.Fire_step o event σ f Hv) as (σ' & HF & Hv' & _ & Hfr).
    case_decide as Ho.
    + rewrite (store.Fire_pointer o f') by done. rewrite HF. simpl.
      intros [Hev Hf].
      split; [|by apply (IH σ' (Fire f event).1 []); [|apply list_subseteq_nil|]].
      apply list_elem_of_fmap in Hev as (ev & -> & Hev).
      by apply list_elem_of_fmap_2, Hm.
    + destruct (store.Fire f' event σ) as [[err σ'']|] eqn:E;
        simpl; [|by apply IH].
      apply IH; [|done]. unfold store.Fire in E.
      destruct (σ !! store.FSM f'); simplify_eq/=.
      by rewrite store.view_insert_ne.
Qed.

(** ** The configurations a pool can reach *)

Lemma exec_snoc schedule i ρ :
  exec (schedule ++ [i]) ρ = sched_step (exec schedule ρ) i.
Proof. by rewrite pool_exec_app. Qed.

(** The schedules are the ways to reach a configuration. *)
Lemma steps_exec ρ ρ' : steps ρ ρ' ↔ ∃ schedule, ρ' = exec schedule ρ.
Proof.
  split.
  - induction 1 as [|ρ' i _ [schedule ->]]; [by exists []|].
    exists (schedule ++ [i]). by rewrite exec_snoc.
  - intros [schedule ->].
    induction schedule as [|i schedule IH] using rev_ind; [constructor|].
    rewrite exec_snoc. by constructor.
Qed.

(** One statement keeps a goroutine within the frames of its call and
    allocates nothing, when the struct of the call holds a machine. *)
Lemma step_frame_of c fr σ :
  frame_of c fr → store.allocated (receiver c) σ →
  frame_of c (step fr σ).1 ∧ dom (step fr σ).2 = dom σ.
Proof.
  unfold store.allocated. rewrite elem_of_dom.
  destruct fr as [c'|f [|t ts] res|r]; simpl;
    [intros ->|by intros ->..|by intros].
  intros [m Hm].
  destruct c as [f|f|f event]; simpl in *;
    unfold store.Current, store.Fire; rewrite Hm; simpl; [done..|].
  split; [done|]. by apply dom_insert_lookup_L.
Qed.

(** The invariant of a pool. *)
Lemma sched_step_frame_of calls σ ρ i :
  Forall (λ c, store.allocated (receiver c) σ) calls →
  Forall2 frame_of calls ρ.1 ∧ dom ρ.2 = dom σ →
  Forall2 frame_of calls (sched_step ρ i).1 ∧ dom (sched_step ρ i).2 = dom σ.
Proof.
  intros Ha [Hf Hd]. unfold sched_step.
  destruct (ρ.1 !! i) as [fr|] eqn:Hfr; [simpl|done].
  destruct (Forall2_lookup_r _ _ _ _ _ Hf Hfr) as (c & Hc & Hcf).
  destruct (step_frame_of c fr ρ.2 Hcf) as [? ->].
  - unfold store.allocated. rewrite Hd.
    by apply (Forall_lookup_1 _ _ _ _ Ha Hc).
  - split; [|done]. rewrite <-(list_insert_id calls i c Hc).
    by apply Forall2_insert.
Qed.

(** ** The order of the first statements *)

Lemma elem_of_first_steps schedule i :
  i ∈ first_steps schedule ↔ i ∈ schedule.
Proof.
  induction schedule as [|j schedule IH]; [done|]. simpl.
  rewrite !elem_of_cons, list_elem_of_filter, IH.
  destruct (decide (i = j)); naive_solver.
Qed.

Lemma first_steps_NoDup schedule : NoDup (first_steps schedule).
Proof.
  induction schedule as [|j schedule IH]; simpl; [constructor|].
  constructor; [|by apply NoDup_filter].
  rewrite list_elem_of_filter. naive_solver.
Qed.

Lemma first_steps_sublist schedule : first_steps schedule `sublist_of` schedule.
Proof.
  induction schedule as [|j schedule IH]; simpl; [done|].
  apply sublist_skip. etrans; [apply sublist_filter|done].
Qed.

(** ** The calls that write the store *)

Lemma fired_app calls1 calls2 :
  fired (calls1 ++ calls2) = fired calls1 ++ fired calls2.
Proof. apply omap_app. Qed.

Lemma atomic_fired calls σ : atomic calls σ = store.exec (fired calls) σ.
Proof.
  revert σ. induction calls as [|c calls IH]; intros σ; [done|].
  change (c :: calls) with ([c] ++ calls).
  rewrite atomic_app, fired_app, store.exec_app, IH. f_equal.
  destruct c as [f|f|f event]; try done.
  unfold atomic, store.exec, store.step, store.run. simpl.
  by destruct (store.Fire f event σ) as [[err σ']|].
Qed.

(** Every machine sees the events fired on it in the order of the
    first statements of their calls. *)
Lemma pool_exec_view schedule pool σ o f :
  store.view o σ = Some f →
  store.view o (exec schedule (pool, σ)).2
  = Some (run f (store.events_at (store.FSM o)
                   (fired (linearization pool schedule)))).
Proof.
  intros Hv. rewrite exec_store, atomic_fired. by apply store.exec_view.
Qed.

(** The schedule around a call of [Event]: the call returns what [Fire]
    returns after the events that went to its machine before it. *)
Lemma Event_returns before after pool σ i o o' event f :
  pending pool i = Some (CallEvent o' event) → i ∉ before →
  store.FSM o' = store.FSM o → store.view o σ = Some f →
  ∃ evs evs',
    store.events_at (store.FSM o)
      (fired (linearization pool (before ++ i :: after)))
    = evs ++ event :: evs'
    ∧ (exec (before ++ i :: after) (pool, σ)).1 !! i
      = Some (Returned (RetError (Fire (run f evs) event).2)).
Proof.
  intros Hc Hi Ho Hv.
  pose proof (pool_exec_view before pool σ o f Hv) as Hv1.
  eexists _, _. split.
  - rewrite (linearization_app pool σ), (linearization_cons _ (exec before (pool, σ)).2).
    rewrite pending_exec_ne by done. simpl.
    rewrite Hc, !fired_app, !store.events_at_app. simpl.
    by rewrite store.events_at_cons, decide_True.
  - destruct (exec_first_step before after (pool, σ) i _ Hc Hi) as [-> _].
    f_equal. apply iter_local_Returned; [apply enter_call|]. simpl.
    rewrite (store.Fire_pointer o o'), (store.Fire_Some _ _ _ _ Hv1) by done.
    simpl. split; [done|lia].
Qed.
End goroutine.
End goroutine.

(** ** Calls among the statements of other goroutines *)

Section goroutine_theorems.
Context `{fsm.Library}.
Implicit Types (c : goroutine.Call) (r : goroutine.Return) (σ : store.Store).
Implicit Types (calls : list goroutine.Call) (i : nat).
Implicit Types (schedule before after : list nat).
Implicit Types (d : config.EventDescYaml) (s : config.StateYaml).
Implicit Types (e : config.EventYaml) (f : FSMWithStatesAndEvents).

(** C15: every call takes effect at its first statement. When a
    goroutine has returned from its call, under whatever schedule and
    among whatever other calls, the schedule has a first statement of
    that goroutine, and the call returned what it returns when taken
    whole in the store of that moment; after that statement the store
    is the one the whole call leaves. *)
Theorem call_linearizable calls schedule σ i c r :
  calls !! i = Some c →
  (goroutine.exec schedule (goroutine.spawn calls σ)).1 !! i
  = Some (goroutine.Returned r) →
  ∃ before after,
    schedule = before ++ i :: after ∧ (i ∉ before)
    ∧ r = (goroutine.call c
             (goroutine.exec before (goroutine.spawn calls σ)).2).1
    ∧ (goroutine.exec (before ++ [i]) (goroutine.spawn calls σ)).2
      = (goroutine.call c
           (goroutine.exec before (goroutine.spawn calls σ)).2).2.
Proof.
  intros Hc Hr. destruct (decide (i ∈ schedule)) as [Hi|Hi].
  - apply list_elem_of_split_l in Hi as (before & after & -> & Hi).
    exists before, after.
    destruct (goroutine.exec_first_step before after
                (goroutine.spawn calls σ) i c) as [Hl Hσ];
      [by rewrite <-Hc; apply goroutine.pending_spawn | done |].
    split_and!; [done..| |done].
    rewrite Hl in Hr. injection Hr as Hr.
    destruct (goroutine.enter_call c
                (goroutine.exec before (goroutine.spawn calls σ)).2)
      as (Hs & Ho & _).
    apply goroutine.iter_local_Returned in Hr as [Hr _]; [|done].
    congruence.
  - rewrite goroutine.exec_lookup_ne in Hr by done. simpl in Hr.
    by rewrite list_lookup_fmap, Hc in Hr.
Qed.

(** C16: every call returns, and after a number of its own statements
    that the other goroutines cannot change. A goroutine whose first
    statement falls after the schedule [before] has returned at the end
    of [after] exactly when it had as many turns in [after] as its call
    has statements after the first, and then with the result of the
    whole call: one statement for [Current] and [Event], two and one
    for each event of the menu for [AvailableTransitions]. *)
Theorem call_returns calls before after σ i c r :
  calls !! i = Some c → i ∉ before →
  ((goroutine.exec (before ++ i :: after) (goroutine.spawn calls σ)).1 !! i
   = Some (goroutine.Returned r)
   ↔ r = (goroutine.call c
            (goroutine.exec before (goroutine.spawn calls σ)).2).1
     ∧ (goroutine.statements c
          (goroutine.exec before (goroutine.spawn calls σ)).2
        ≤ S (goroutine.turns i after))%nat)
  ∧ goroutine.statements c
      (goroutine.exec before (goroutine.spawn calls σ)).2
    = match (goroutine.call c
               (goroutine.exec before (goroutine.spawn calls σ)).2).1 with
      | goroutine.RetEvents res => 2 + length res
      | _ => 1
      end.
Proof.
  intros Hc Hi. split; [|apply goroutine.statements_call].
  destruct (goroutine.exec_first_step before after
              (goroutine.spawn calls σ) i c) as [-> _];
    [by rewrite <-Hc; apply goroutine.pending_spawn | done |].
  destruct (goroutine.enter_call c
              (goroutine.exec before (goroutine.spawn calls σ)).2)
    as (Hs & Ho & _).
  unfold goroutine.statements. split.
  - intros [= Hr]. apply goroutine.iter_local_Returned in Hr as [? ?]; [|done].
    split; [congruence|lia].
  - intros [-> ?]. f_equal. apply goroutine.iter_local_Returned; [done|].
    split; [done|lia].
Qed.

(** C17: a schedule of statements is a schedule of calls. After any
    schedule the store is the one that the [Event] calls the schedule
    has started leave when each is taken whole, in the order of their
    first statements, and the goroutines it has started return, or are
    going to return, what these calls return when taken whole in that
    order. The calls started are those of the goroutines the schedule
    names, each once, in the order in which it first names them; and
    every object stands for what its machine becomes by the events
    fired on it, in that order. *)
Theorem statements_interleaved calls schedule σ :
  (goroutine.exec schedule (goroutine.spawn calls σ)).2
  = store.exec
      (goroutine.fired
         (goroutine.linearization (goroutine.Called <$> calls) schedule)) σ
  ∧ goroutine.history (goroutine.exec schedule (goroutine.spawn calls σ)).1
      (goroutine.first_steps schedule)
    = goroutine.results
        (goroutine.linearization (goroutine.Called <$> calls) schedule) σ
  ∧ goroutine.linearization (goroutine.Called <$> calls) schedule
    = omap (calls !!.) (goroutine.first_steps schedule)
  ∧ NoDup (goroutine.first_steps schedule)
  ∧ goroutine.first_steps schedule `sublist_of` schedule
  ∧ (∀ i, i ∈ goroutine.first_steps schedule ↔ i ∈ schedule)
  ∧ ∀ o f, store.view o σ = Some f →
      store.view o (goroutine.exec schedule (goroutine.spawn calls σ)).2
      = Some (run f (store.events_at (store.FSM o)
                       (goroutine.fired
                          (goroutine.linearization
                             (goroutine.Called <$> calls) schedule)))).
Proof.
  split_and!.
  - unfold goroutine.spawn.
    by rewrite goroutine.exec_store, goroutine.atomic_fired.
  - apply goroutine.history_spawn.
  - apply list_omap_ext, Forall2_same_length_lookup_2; [done|].
    intros k i ? -> [= ->]. apply goroutine.pending_spawn.
  - apply goroutine.first_steps_NoDup.
  - apply goroutine.first_steps_sublist.
  - apply goroutine.elem_of_first_steps.
  - intros o f. apply goroutine.pool_exec_view.
Qed.

(** On the machine of an object built from a configuration with
    referential integrity, an [Event] call that has returned has
    returned no error when each event fired on the machine is on its
    menu at the first statement of the call that fires it. *)
Lemma Event_never_refused d s e o σ f calls schedule :
  referential_integrity d s e →
  store.view o σ = Some f → reachable (build d s e) f →
  client.menu_driven f
    (store.events_at (store.FSM o)
       (goroutine.fired
          (goroutine.linearization (goroutine.Called <$> calls) schedule))) →
  ∀ i o' event err,
    calls !! i = Some (goroutine.CallEvent o' event) →
    store.FSM o' = store.FSM o →
    (goroutine.exec schedule (goroutine.spawn calls σ)).1 !! i
    = Some (goroutine.Returned (goroutine.RetError err)) →
    err = None.
Proof.
  intros Hi Hv Hr Hm i o' event err Hc Ho Hret.
  destruct (decide (i ∈ schedule)) as [Hin|Hin].
  - apply list_elem_of_split_l in Hin as (before & after & -> & Hin).
    destruct (goroutine.Event_returns before after
                (goroutine.Called <$> calls) σ i o o' event f)
      as (evs & evs' & Hevs & Hl);
      [by rewrite <-Hc; apply goroutine.pending_spawn | done..|].
    unfold goroutine.spawn in Hret. rewrite Hl in Hret.
    injection Hret as <-.
    rewrite Hevs, client.menu_driven_app in Hm. destruct Hm as [_ Hm].
    apply (client.menu_driven_run_errors d s e) in Hm;
      [|done|by eapply reachable_trans, reachable_run].
    by apply Forall_cons in Hm as [? _].
  - rewrite goroutine.exec_lookup_ne in Hret by done. simpl in Hret.
    by rewrite list_lookup_fmap, Hc in Hret.
Qed.

(** The frames of a pool keep their types. When every call goes through
    a struct whose pointer holds a machine, then in every configuration
    the pool reaches each goroutine is at the entry of its call, in the
    loop of its [AvailableTransitions], or back with a value of the
    type its operation returns, and the store holds the machines it
    held: no statement allocates or frees one. A nil pointer is the one
    cause of a panic in these calls, and the hypothesis excludes it. *)
Lemma goroutines_never_panic calls σ ρ :
  Forall (λ c, store.allocated (goroutine.receiver c) σ) calls →
  goroutine.steps (goroutine.spawn calls σ) ρ →
  Forall2 goroutine.frame_of calls ρ.1 ∧ dom ρ.2 = dom σ.
Proof.
  intros Ha. induction 1 as [|ρ i _ IH].
  - split; [|done]. simpl. apply Forall2_fmap_r, Forall_Forall2_diag.
    by apply Forall_forall.
  - by apply goroutine.sched_step_frame_of.
Qed.

(** A machine whose events are on the menu refuses no goroutine: when
    each event fired on it is on its menu at the first statement of the
    call that fires it, no [Event] call on it has returned an error. *)
Lemma menu_driven_refusals d s e o σ f calls schedule :
  referential_integrity d s e →
  store.view o σ = Some f → reachable (build d s e) f →
  client.menu_driven f
    (store.events_at (store.FSM o)
       (goroutine.fired
          (goroutine.linearization (goroutine.Called <$> calls) schedule))) →
  goroutine.refusals (store.FSM o) calls
    (goroutine.exec schedule (goroutine.spawn calls σ)).1
  = [].
Proof.
  intros Hi Hv Hr Hm. apply omap_eq_nil, Forall_forall.
  intros [c fr] [i [Hc Hfr]%lookup_zip_Some]%list_elem_of_lookup.
  unfold goroutine.refusal. simpl.
  destruct c as [| |o' event], fr as [| |[| |err|]]; try done.
  case_decide as Ho; [|done].
  by apply (Event_never_refused d s e o σ f calls schedule Hi Hv Hr Hm
              i o' event).
Qed.

(** C18: callers that ask before they fire are never refused. Let the
    machine of a struct built from a configuration with referential
    integrity be shared by any number of goroutines, their statements
    interleaved in any way with each other's and with those of other
    sessions. When, in the order of their first statements, every
    [Event] call on the machine comes after an [AvailableTransitions]
    call through the struct that returns its event, with no other
    [Event] call on the machine in between, then every event is on the
    menu of the machine when it is fired, and no [Event] call on the
    machine has returned an error. *)
Theorem goroutines_never_refused d s e o σ f calls schedule :
  referential_integrity d s e →
  store.view o σ = Some f → reachable (build d s e) f →
  goroutine.follows_menu o []
    (goroutine.linearization (goroutine.Called <$> calls) schedule)
    (goroutine.history (goroutine.exec schedule (goroutine.spawn calls σ)).1
       (goroutine.first_steps schedule)) →
  client.menu_driven f
    (store.events_at (store.FSM o)
       (goroutine.fired
          (goroutine.linearization (goroutine.Called <$> calls) schedule)))
  ∧ goroutine.refusals (store.FSM o) calls
      (goroutine.exec schedule (goroutine.spawn calls σ)).1
    = [].
Proof.
  intros Hi Hv Hr Hf. rewrite goroutine.history_spawn in Hf.
  apply (goroutine.follows_menu_driven o σ f []) in Hf;
    [|done|apply list_subseteq_nil].
  split; [done|]. by apply (menu_driven_refusals d s e o σ f).
Qed.
End goroutine_theorems.
