(* ===== verification/Concrete.v ===== *)
(** * The program on a concrete parser and a concrete library

    The theorems of [Loader] and [Queries] hold for every parser and
    every library that satisfy the interfaces. This file
    instantiates them: the parser is [yaml.stream], whose input is the
    list of document trees of the file, and the library is [looplab], the
    hash table. On these the whole program computes, and the file proves
    what loading does to a stream in terms of its documents: a
    configuration written out document by document is loaded back, what
    follows the third document is never read, a stream that ends early is
    refused with the message of the section that is missing, sections
    in another order are accepted and silently yield empty tables, and
    an event whose order does not fit a Go [int], taken at 64 bits,
    makes the load fail.
    [ioutil] is the file system [ChatBotFSM] reads from, as a finite
    map from paths to contents. *)

From stdpp Require Import gmap strings list.
From Stdlib Require Import DecimalString.
From S2P Require Import Prelude Integers Domain Fsm FsmTable Yaml Config Machine.
From S2P Require Import Loader Runtime Integrity Queries.

(** ** Loading from a stream of documents *)

Section stream.
Context `{fsm.Library}.
#[local] Existing Instance yaml.stream.parser.
Implicit Types (d : config.EventDescYaml) (s : config.StateYaml).
Implicit Types (e : config.EventYaml) (docs rest : list yaml.Node).

Lemma Decode_cons `{yaml.Unmarshal T} (n : yaml.Node) docs :
  yaml.Decode (T:=T) (n :: docs : yaml.Decoder)
  = (λ v, (v, docs : yaml.Decoder)) <$> yaml.unmarshal n.
Proof. unfold yaml.Decode. simpl. by destruct (yaml.unmarshal n). Qed.

Lemma Decode_nil `{yaml.Unmarshal T} :
  yaml.Decode (T:=T) ([] : yaml.Decoder) = Err yaml.EOF.
Proof. done. Qed.

Lemma Decode_marshal `{yaml.RoundTrip T} (x : T) docs :
  yaml.Decode (yaml.marshal x :: docs : yaml.Decoder)
  = Ok (x, docs : yaml.Decoder).
Proof. by rewrite Decode_cons, yaml.unmarshal_marshal. Qed.

(** The three decodes, on a stream that starts with three documents. *)
Lemma decode_documents_cons n1 n2 n3 rest :
  decode_documents (n1 :: n2 :: n3 :: rest : yaml.Decoder)
  = d ← wrap_err "failed to decode FSM" (yaml.unmarshal n1);
    s ← wrap_err "failed to decode states list" (yaml.unmarshal n2);
    e ← wrap_err "failed to decode events list" (yaml.unmarshal n3);
    mret (d, s, e).
Proof.
  unfold_decode. simpl. rewrite Decode_cons.
  destruct (yaml.unmarshal n1) as [d|]; [simpl|done]. rewrite Decode_cons.
  destruct (yaml.unmarshal n2) as [s|]; [simpl|done]. rewrite Decode_cons.
  by destruct (yaml.unmarshal n3) as [e|].
Qed.

(** [yamlToFSM] on a stream that starts with three documents: each is
    decoded by the decoder of its position, and the rest of the stream
    is not read. *)
Lemma yamlToFSM_cons n1 n2 n3 rest :
  yamlToFSM (n1 :: n2 :: n3 :: rest)
  = d ← wrap_err "failed to decode FSM" (yaml.unmarshal n1);
    s ← wrap_err "failed to decode states list" (yaml.unmarshal n2);
    e ← wrap_err "failed to decode events list" (yaml.unmarshal n3);
    mret (build d s e).
Proof.
  unfold yamlToFSM. change (yaml.NewDecoder ?l) with (l : yaml.Decoder).
  rewrite decode_documents_cons.
  destruct (yaml.unmarshal n1) as [d|]; [simpl|done].
  destruct (yaml.unmarshal n2) as [s|]; [simpl|done].
  by destruct (yaml.unmarshal n3) as [e|].
Qed.

Lemma yamlToFSM_documents d s e rest :
  yamlToFSM (yaml.marshal d :: yaml.marshal s :: yaml.marshal e :: rest)
  = Ok (build d s e).
Proof. by rewrite yamlToFSM_cons, !yaml.unmarshal_marshal. Qed.

(** ** Documents by position *)

(** A document of a configuration file, by the section it holds. *)
Inductive Document : Type :=
| DocRules (d : config.EventDescYaml)
| DocStates (s : config.StateYaml)
| DocEvents (e : config.EventYaml).

(** The document as the parser hands it over. *)
Definition node (x : Document) : yaml.Node :=
  match x with
  | DocRules d => yaml.marshal d
  | DocStates s => yaml.marshal s
  | DocEvents e => yaml.marshal e
  end.

(** What the decoder of each position makes of a document: the section
    it holds when it is of the kind that position expects, the empty
    section when it is not. *)
Definition as_rules (x : Document) : config.EventDescYaml :=
  match x with DocRules d => d | _ => config.mkEventDescYaml [] end.
Definition as_states (x : Document) : config.StateYaml :=
  match x with DocStates s => s | _ => config.mkStateYaml [] end.
Definition as_events (x : Document) : config.EventYaml :=
  match x with DocEvents e => e | _ => config.mkEventYaml [] end.

(** The file of a configuration: its three sections in the order in
    which [yamlToFSM] reads them. *)
Definition documents d s e : list Document :=
  [DocRules d; DocStates s; DocEvents e].

Lemma unmarshal_node (x : Document) :
  yaml.unmarshal (node x) = Ok (as_rules x)
  ∧ yaml.unmarshal (node x) = Ok (as_states x)
  ∧ yaml.unmarshal (node x) = Ok (as_events x).
Proof.
  destruct x as [d|s|e]; simpl.
  - destruct (config.unmarshal_other_section d (config.mkStateYaml [])
                (config.mkEventYaml [])) as (_ & _ & ? & _ & ? & _).
    by rewrite yaml.unmarshal_marshal.
  - destruct (config.unmarshal_other_section (config.mkEventDescYaml []) s
                (config.mkEventYaml [])) as (? & _ & _ & _ & _ & ?).
    by rewrite yaml.unmarshal_marshal.
  - destruct (config.unmarshal_other_section (config.mkEventDescYaml [])
                (config.mkStateYaml []) e) as (_ & ? & _ & ? & _).
    by rewrite yaml.unmarshal_marshal.
Qed.

(** C31: a configuration written out as three documents is loaded back
    as the machine of that configuration, and whatever follows the third
    document in the stream is not read. *)
Theorem yamlToFSM_marshal d s e rest :
  yamlToFSM ((node <$> documents d s e) ++ rest) = Ok (build d s e).
Proof. apply yamlToFSM_documents. Qed.

(** C33: a stream with fewer than three documents is never loaded,
    whatever its documents hold: no section is optional, and none is
    taken as empty because the stream has ended. When the documents that
    are there decode, the decode of the first missing one fails with
    [io.EOF], under the message of its section. *)
Theorem yamlToFSM_too_short (x1 x2 : Document) docs :
  yamlToFSM [] = Err (Wrapf yaml.EOF "failed to decode FSM")
  ∧ yamlToFSM [node x1]
    = Err (Wrapf yaml.EOF "failed to decode states list")
  ∧ yamlToFSM [node x1; node x2]
    = Err (Wrapf yaml.EOF "failed to decode events list")
  ∧ ∀ f, yamlToFSM docs = Ok f → (3 ≤ length docs)%nat.
Proof.
  destruct (unmarshal_node x1) as (Hd & _), (unmarshal_node x2) as (_ & Hs & _).
  unfold yamlToFSM. unfold_decode.
  change (yaml.NewDecoder ?l) with (l : yaml.Decoder).
  split_and!; [done|by rewrite Decode_cons, Hd|
               by rewrite Decode_cons, Hd; simpl; rewrite Decode_cons, Hs|].
  intros f. destruct docs as [|n1 [|n2 [|n3 rest]]]; [..|simpl; lia];
    rewrite ?Decode_cons, ?Decode_nil; [done|..];
    (destruct (yaml.unmarshal n1); [simpl|done]);
    rewrite ?Decode_cons, ?Decode_nil; [done|].
  by destruct (yaml.unmarshal n2).
Qed.

(** C32: the documents are told apart by their position only. Whatever
    sections the first three documents of a stream hold, nothing fails:
    the rules are those of the first document if it is a rule list and
    none if it is not, the states those of the second if it is a state
    list, the events those of the third if it is an event list. With
    the state list first and the rules second the machine has no rule
    and no state. *)
Theorem yamlToFSM_by_position (x1 x2 x3 : Document) rest :
  yamlToFSM (node x1 :: node x2 :: node x3 :: rest)
  = Ok (build (as_rules x1) (as_states x2) (as_events x3)).
Proof.
  rewrite yamlToFSM_cons.
  destruct (unmarshal_node x1) as (-> & _), (unmarshal_node x2) as (_ & -> & _),
    (unmarshal_node x3) as (_ & _ & ->).
  done.
Qed.

(** ** The range of [orderID] *)

(** An event as it stands in a document, with any integer as its
    order, and the event list of such entries. *)
Definition event_entry (entry : string * string * Z) : yaml.Node :=
  let '(name, message, z) := entry in
  yaml.Mapping [("name", yaml.Scalar name); ("message", yaml.Scalar message);
                ("orderID", yaml.Scalar (NilZero.string_of_int (Z.to_int z)))].

Definition events_document (entries : list (string * string * Z))
  : yaml.Node :=
  yaml.Mapping [("events", yaml.Sequence (event_entry <$> entries))].

(** The event an entry denotes, when its order is an [int]. *)
Definition event_of (entry : string * string * Z) : option Event :=
  let '(name, message, z) := entry in event.mk name message <$> go.of_Z z.

Implicit Types (entry : string * string * Z).
Implicit Types (entries : list (string * string * Z)).

Lemma unmarshal_event_entry entry :
  yaml.unmarshal (event_entry entry)
  = from_option Ok (Err (yaml.type_error "int")) (event_of entry).
Proof.
  destruct entry as [[name message] z]. unfold event_entry, event_of.
  etrans; [apply yaml.unmarshal_struct_Mapping; compute_done|].
  repeat (yaml.field_step; simpl).
  rewrite yaml.unmarshal_int_Scalar, yaml.resolve_int_string_of_int. simpl.
  by destruct (go.of_Z z).
Qed.

Lemma unmarshal_events_document entries :
  yaml.unmarshal (events_document entries)
  = from_option (Ok ∘ config.mkEventYaml) (Err (yaml.type_error "int"))
      (mapM event_of entries).
Proof.
  unfold events_document.
  etrans; [apply yaml.unmarshal_struct_Mapping; compute_done|].
  yaml.field_step.
  rewrite yaml.unmarshal_list_Sequence, mapM_fmap.
  rewrite (mapM_one_error _ event_of (yaml.type_error "int"))
    by apply unmarshal_event_entry.
  by destruct (mapM event_of entries).
Qed.

Lemma event_of_is_Some entry :
  is_Some (event_of entry) ↔ (- 2 ^ 63 ≤ entry.2 ≤ 2 ^ 63 - 1)%Z.
Proof.
  destruct entry as [[name message] z]. unfold event_of. simpl.
  by rewrite fmap_is_Some, go.of_Z_is_Some, go.MinInt_eq, go.MaxInt_eq.
Qed.

Lemma mapM_event_of entries :
  mapM event_of entries
  = if decide (Forall (λ entry, - 2 ^ 63 ≤ entry.2 ≤ 2 ^ 63 - 1)%Z entries)
    then Some (omap event_of entries) else None.
Proof.
  rewrite mapM_omap. apply decide_ext, Forall_proper; [|done].
  intros entry. apply event_of_is_Some.
Qed.

(** The order of an event is taken to be a Go [int] of 64 bits; the
    declaration of [Event] is not in [fsm.go]. On that reading, a
    document whose events all have an order between [-2^63] and
    [2^63 - 1] is loaded with those orders, and as soon as one order is
    outside that range [yamlToFSM] builds nothing and returns the
    decoder's type error under the message of the events section. *)
Lemma yamlToFSM_orderID_range d s entries :
  yamlToFSM [yaml.marshal d; yaml.marshal s; events_document entries]
  = (if decide (Forall (λ entry, - 2 ^ 63 ≤ entry.2 ≤ 2 ^ 63 - 1)%Z entries)
     then Ok (build d s (config.mkEventYaml (omap event_of entries)))
     else Err (Wrapf (yaml.type_error "int") "failed to decode events list")).
Proof.
  rewrite yamlToFSM_cons, !yaml.unmarshal_marshal. simpl.
  rewrite unmarshal_events_document, mapM_event_of. by case_decide.
Qed.
End stream.

(** ** Reading the configuration from a file system *)

(** [io/ioutil] on a file system that is a finite map from paths to
    contents. Of the ways [ReadFile] can fail, the missing file is the
    one modelled. *)
Module ioutil.
Section ioutil.
Context {bytes : Type}.
Implicit Types (fs : gmap string bytes) (filename : string).

(** The error of opening a path that does not exist. *)
Definition ErrNotExist filename : error :=
  New ("open " +:+ filename +:+ ": no such file or directory").

(** [ioutil.ReadFile(filename)]. *)
Definition ReadFile fs filename : result bytes :=
  match fs !! filename with
  | Some contents => Ok contents
  | None => Err (ErrNotExist filename)
  end.

Lemma ReadFile_insert_ne fs filename other contents :
  other ≠ filename →
  ReadFile (<[other := contents]> fs) filename = ReadFile fs filename.
Proof. intros Hne. unfold ReadFile. by rewrite lookup_insert_ne. Qed.
End ioutil.
End ioutil.

Section files.
Context `{fsm.Library} `{yaml.Parser bytes}.
Implicit Types (fs : gmap string bytes) (configFile : string).

Lemma ChatBotFSM_ReadFile fs configFile :
  ChatBotFSM (ioutil.ReadFile fs) configFile
  = match fs !! configFile with
    | Some fileBytes =>
        wrap_err ("failed to create FSM from contents of file " +:+ configFile)
          (yamlToFSM fileBytes)
    | None =>
        Err (Wrapf (ioutil.ErrNotExist configFile)
               ("failed to read config file " +:+ configFile))
    end.
Proof.
  unfold ChatBotFSM, read_config, ioutil.ReadFile.
  destruct (fs !! configFile) as [fileBytes|]; simpl; [|done].
  by destruct (yamlToFSM fileBytes).
Qed.

(** [ChatBotFSM] depends on the file system through the one file it
    is given. When the file is missing it fails with the error of the
    open wrapped under "failed to read config file" and the path; when
    the file exists it returns what [yamlToFSM] makes of its contents,
    an error being wrapped under "failed to create FSM from contents of
    file" and the path; and writing any other file changes nothing. *)
Theorem ChatBotFSM_file fs configFile other contents :
  ChatBotFSM (ioutil.ReadFile fs) configFile
  = match fs !! configFile with
    | Some fileBytes =>
        wrap_err ("failed to create FSM from contents of file " +:+ configFile)
          (yamlToFSM fileBytes)
    | None =>
        Err (Wrapf (New ("open " +:+ configFile
                         +:+ ": no such file or directory"))
               ("failed to read config file " +:+ configFile))
    end
  ∧ (other ≠ configFile →
     ChatBotFSM (ioutil.ReadFile (<[other := contents]> fs)) configFile
     = ChatBotFSM (ioutil.ReadFile fs) configFile).
Proof.
  split; [apply ChatBotFSM_ReadFile|]. intros Hne.
  by rewrite !ChatBotFSM_ReadFile, lookup_insert_ne.
Qed.
End files.

(** ** The machine in the hash table *)

Section table.
#[local] Existing Instance looplab.library.
Implicit Types (d : config.EventDescYaml) (s : config.StateYaml).
Implicit Types (e : config.EventYaml) (f : FSMWithStatesAndEvents).

(** The hash table of the machine [build] makes holds, under the
    key of an event and a source state, the destination of the last rule
    of the document for that pair, and no entry for a pair no rule
    covers. *)
Theorem build_table d s e event src :
  looplab.transitions (FSM (build d s e)) !! looplab.eKey event src
  = config.DestState
    <$> last (filter (λ r, config.Name r = event ∧ src ∈ config.SrcState r)
                     (config.Fsm d)).
Proof.
  rewrite <-delta_eventDescYamlToEventDesc.
  exact (transition_build d s e src event).
Qed.

(** The table is the same on every object a client reaches. *)
Lemma reachable_table f0 f :
  reachable f0 f →
  looplab.transitions (FSM f) = looplab.transitions (FSM f0).
Proof.
  induction 1 as [|f event _ IH]; [done|].
  by rewrite Fire_FSM, looplab.Event_transitions.
Qed.
End table.
