(* ===== verification/Legacy.v ===== *)
(** * The topology the configuration replaced

    The second half of [yamlToFSM] in [fsm.go] is a comment: the return
    statement of an earlier version, which built the machine from a
    table written in the source instead of a configuration file. It is
    dead text, and nothing of the running program depends on it. It is
    kept here as what it is, the reference topology of the chatbot: the
    rule list [legacy.topology], transcribed record by record (the
    records the comment itself comments out a second time are left
    out), and [legacy.NewFSM], the machine the statement returned.

    The names in the table are constants of the package, declared in
    sibling files; their values are not in [fsm.go]. They are the fields
    of the class [legacy.Names], the start state [InitialStateName]
    among them. What is proved of the table holds for every choice of
    names in which the nine event names differ.

    The theorems give the transition function of the table in full, the
    states it reaches, that it has no deadlock and that it can always
    be brought back to the start. The last section ties the table to
    the live code through the configuration [legacy.document], which
    lists the same rules: [build] gives it the transition function of
    the table, and, when the constant [InitialStateName] has the value
    of the literal ["Initial"] of the live code, the machine of the
    deleted statement. *)

From stdpp Require Import gmap strings list.
From S2P Require Import Prelude Integers Domain Fsm Yaml Config Machine.
From S2P Require Import Loader Runtime Integrity Graph Queries Concrete.

Module legacy.

(** The constants of the package that the table names. *)
Class Names : Type := {
  InitialStateName : string;
  HelloStateName : string;
  BlogStateName : string;
  F1StateName : string;
  GrafanaStateName : string;
  HackmdStateName : string;
  PrivatebinStateName : string;
  GetStartedEventName : string;
  HelpEventName : string;
  BackEventName : string;
  ResetEventName : string;
  ShowBlogIntoEventName : string;
  ShowF1InfoEventName : string;
  ShowGrafanaInfoEventName : string;
  ShowHackmdInfoEventName : string;
  ShowPrivatebinEventName : string;
}.

Section legacy.
Context `{Names}.

(** The second argument of the call: the rules of the table, in the
    order of the source. *)
Definition topology : list fsm.EventDesc := [
  (* Get Started *)
  {| fsm.Name := GetStartedEventName;
     fsm.Src := [InitialStateName];
     fsm.Dst := HelloStateName |};
  {| fsm.Name := HelpEventName;
     fsm.Src := [HelloStateName];
     fsm.Dst := HelloStateName |};
  (* Back *)
  {| fsm.Name := BackEventName;
     fsm.Src := [BlogStateName; F1StateName; GrafanaStateName;
                 HackmdStateName; PrivatebinStateName];
     fsm.Dst := HelloStateName |};
  (* Reset *)
  {| fsm.Name := ResetEventName;
     fsm.Src := [HelloStateName];
     fsm.Dst := InitialStateName |};
  (* Show blog info *)
  {| fsm.Name := ShowBlogIntoEventName;
     fsm.Src := [HelloStateName];
     fsm.Dst := BlogStateName |};
  (* Show F1 info *)
  {| fsm.Name := ShowF1InfoEventName;
     fsm.Src := [HelloStateName];
     fsm.Dst := F1StateName |};
  (* Show Grafana info *)
  {| fsm.Name := ShowGrafanaInfoEventName;
     fsm.Src := [HelloStateName];
     fsm.Dst := GrafanaStateName |};
  (* Show hackmd info *)
  {| fsm.Name := ShowHackmdInfoEventName;
     fsm.Src := [HelloStateName];
     fsm.Dst := HackmdStateName |};
  (* Show privatebin info *)
  {| fsm.Name := ShowPrivatebinEventName;
     fsm.Src := [HelloStateName];
     fsm.Dst := PrivatebinStateName |}
].

(** [fsm.NewFSM(InitialStateName, []fsm.EventDesc{...},
    map[string]fsm.Callback{})]: the machine the statement returned. *)
Definition NewFSM `{fsm.Library} : fsm.FSM :=
  fsm.NewFSM InitialStateName topology ∅.

(** ** The table as a configuration *)

(** The rules document that says what the table says. *)
Definition document : config.EventDescYaml :=
  config.mkEventDescYaml
    ((λ d, config.mkFsmEntry (fsm.Name d) (fsm.Src d) (fsm.Dst d))
       <$> topology).

(** The states and the events the table names. *)
Definition state_names : list string :=
  [InitialStateName; HelloStateName; BlogStateName; F1StateName;
   GrafanaStateName; HackmdStateName; PrivatebinStateName].

Definition event_names : list string :=
  [GetStartedEventName; HelpEventName; BackEventName; ResetEventName;
   ShowBlogIntoEventName; ShowF1InfoEventName; ShowGrafanaInfoEventName;
   ShowHackmdInfoEventName; ShowPrivatebinEventName].

(** The transitions of the table: source state, event, destination. *)
Definition transitions : list (string * string * string) :=
  [(InitialStateName, GetStartedEventName, HelloStateName);
   (HelloStateName, HelpEventName, HelloStateName);
   (BlogStateName, BackEventName, HelloStateName);
   (F1StateName, BackEventName, HelloStateName);
   (GrafanaStateName, BackEventName, HelloStateName);
   (HackmdStateName, BackEventName, HelloStateName);
   (PrivatebinStateName, BackEventName, HelloStateName);
   (HelloStateName, ResetEventName, InitialStateName);
   (HelloStateName, ShowBlogIntoEventName, BlogStateName);
   (HelloStateName, ShowF1InfoEventName, F1StateName);
   (HelloStateName, ShowGrafanaInfoEventName, GrafanaStateName);
   (HelloStateName, ShowHackmdInfoEventName, HackmdStateName);
   (HelloStateName, ShowPrivatebinEventName, PrivatebinStateName)].

Lemma eventDescYamlToEventDesc_document :
  eventDescYamlToEventDesc document = topology.
Proof. reflexivity. Qed.

Lemma Name_topology : fsm.Name <$> topology = event_names.
Proof. reflexivity. Qed.

(** ** The transition function *)

(** Every transition [delta] gives is one of the table. *)
Lemma delta_topology_Some src event dst :
  fsm.delta topology src event = Some dst →
  (src, event, dst) ∈ transitions.
Proof.
  intros (d & Hd & [<- Hsrc] & <-)%fsm.delta_Some.
  unfold topology in Hd. unfold transitions.
  set_unfold. destruct_or!; subst; set_unfold; destruct_or!; subst;
    naive_solver.
Qed.

(** The states a walk can be in. *)
Lemma reachable_states_subseteq :
  graph.reachable_states topology InitialStateName
  ⊆ list_to_set state_names.
Proof.
  intros st [evs <-]%graph.elem_of_reachable_states.
  apply graph.walk_closed; [set_solver|].
  intros dst. rewrite graph.elem_of_expand.
  intros [?|(src & event & _ & Hd%delta_topology_Some)]; [done|].
  unfold transitions, state_names in *. set_unfold.
  destruct_or!; simplify_eq; tauto.
Qed.

Section distinct.
Hypothesis event_names_distinct : NoDup event_names.

Lemma topology_conflict_free : fsm.conflict_free topology.
Proof. apply fsm.conflict_free_NoDup. by rewrite Name_topology. Qed.

(** A rule of the table gives the transition, whatever its place. *)
Lemma delta_rule name srcs dst src :
  fsm.mk name srcs dst ∈ topology → src ∈ srcs →
  fsm.delta topology src name = Some dst.
Proof.
  intros Hd Hsrc.
  by apply (fsm.delta_conflict_free topology src name (fsm.mk name srcs dst));
    [apply topology_conflict_free|..].
Qed.

Lemma delta_topology_transitions src event dst :
  (src, event, dst) ∈ transitions → fsm.delta topology src event = Some dst.
Proof.
  unfold transitions. intros Ht. set_unfold in Ht.
  destruct_or!; injection Ht as -> -> ->;
    (eapply delta_rule; [unfold topology; elem_of_list | elem_of_list]).
Qed.

(** A step along a transition of the table. *)
Lemma path_cons src event dst evs :
  (src, event, dst) ∈ transitions →
  graph.path topology src (event :: evs) = graph.path topology dst evs.
Proof. intros Ht%delta_topology_transitions. simpl. by rewrite Ht. Qed.

(** Follows a sequence of events through the table. *)
Ltac follow :=
  repeat (erewrite path_cons by (unfold transitions; elem_of_list));
  reflexivity.

(** Every state of the table is at most two events from the start, and
    the start at most two events from it. *)
Lemma reaches dst :
  dst ∈ state_names →
  ∃ evs, (length evs ≤ 2)%nat
         ∧ graph.path topology InitialStateName evs = Some dst.
Proof.
  unfold state_names. intros Hdst. set_unfold in Hdst.
  destruct_or!; subst dst;
    [ exists []
    | exists [GetStartedEventName]
    | exists [GetStartedEventName; ShowBlogIntoEventName]
    | exists [GetStartedEventName; ShowF1InfoEventName]
    | exists [GetStartedEventName; ShowGrafanaInfoEventName]
    | exists [GetStartedEventName; ShowHackmdInfoEventName]
    | exists [GetStartedEventName; ShowPrivatebinEventName] ];
    (split; [simpl; lia | follow]).
Qed.

Lemma returns src :
  src ∈ state_names →
  ∃ evs, (length evs ≤ 2)%nat
         ∧ graph.path topology src evs = Some InitialStateName.
Proof.
  unfold state_names. intros Hsrc. set_unfold in Hsrc.
  destruct_or!; subst src;
    [ exists [] | exists [ResetEventName]
    | exists [BackEventName; ResetEventName].. ];
    (split; [simpl; lia | follow]).
Qed.

(** The states of the table are the states the machine can be in. *)
Lemma reachable_states_topology :
  graph.reachable_states topology InitialStateName
  = list_to_set state_names.
Proof.
  apply set_eq. intros st. split; [apply reachable_states_subseteq|].
  intros (evs & _ & Hp%graph.path_walk)%elem_of_list_to_set%reaches.
  apply graph.elem_of_reachable_states. by exists evs.
Qed.

Lemma topology_recurrent : graph.recurrent topology InitialStateName.
Proof.
  intros st (evs & _ & Hp%graph.path_walk)%reachable_states_subseteq
    %elem_of_list_to_set%returns.
  apply graph.elem_of_reachable_states. by exists evs.
Qed.

(** No state of the table is without a transition out of it. *)
Lemma leaves src :
  src ∈ state_names → ∃ event dst, (src, event, dst) ∈ transitions.
Proof.
  unfold state_names. intros Hsrc. set_unfold in Hsrc.
  destruct_or!; subst src;
    [ exists GetStartedEventName | exists HelpEventName
    | exists BackEventName.. ];
    eexists; unfold transitions; elem_of_list.
Qed.

Lemma topology_deadlock_free :
  graph.deadlock_free topology InitialStateName.
Proof.
  intros st (event & dst & Ht%delta_topology_transitions)
    %reachable_states_subseteq%elem_of_list_to_set%leaves.
  apply graph.not_terminal. exists event. by rewrite Ht.
Qed.
End distinct.
End legacy.

(** ** The machine of the table, built by the live code *)

Section machine.
Context `{Names} `{fsm.Library}.
#[local] Existing Instance yaml.stream.parser.
Implicit Types (s : config.StateYaml) (e : config.EventYaml).
Implicit Types (f : FSMWithStatesAndEvents).


(** When the constant has the value of the literal, loading the table
    as a configuration gives the machine the deleted statement
    returned. *)
Lemma FSM_document s e :
  InitialStateName = Loader.InitialStateName →
  FSM (build document s e) = NewFSM.
Proof. unfold NewFSM. by intros ->. Qed.

Section distinct.
Hypothesis event_names_distinct : NoDup event_names.


Section initial.
Hypothesis initial_state : InitialStateName = Loader.InitialStateName.

(** When the constant [InitialStateName] has the value of the literal
    of the live code, the machine loaded from the table is always in
    one of its seven states, it never runs out of events to offer, and
    from wherever it is a client brings it back to the start: at most
    two events, each accepted, lead to [InitialStateName]. *)
Theorem legacy_live s e f :
  reachable (build document s e) f →
  current_name f ∈ state_names
  ∧ AvailableTransitions f ≠ []
  ∧ ∃ evs, (length evs ≤ 2)%nat
           ∧ Forall (λ err, err = None) (run_errors f evs)
           ∧ current_name (run f evs) = InitialStateName.
Proof.
  intros Hr.
  assert (current_name f ∈ state_names) as Hst.
  { apply (elem_of_list_to_set (C:=gset string)).
    rewrite <-reachable_states_topology, initial_state by done.
    apply (reachable_current_state document s e f Hr). }
  split_and!; [done| |].
  - rewrite <-(terminal_AvailableTransitions document s e) by done.
    rewrite graph.not_terminal, eventDescYamlToEventDesc_document.
    destruct (leaves _ Hst) as (event & dst & Ht).
    apply delta_topology_transitions in Ht; [|done].
    exists event. by rewrite Ht.
  - destruct (returns event_names_distinct _ Hst) as (evs & Hlen & Hp).
    exists evs. split; [done|]. by apply (run_path document s e).
Qed.
End initial.
End distinct.
End machine.
End legacy.
