(* ===== verification/Scenarios.v ===== *)
(** * Scenarios

    The program run on concrete configurations, with the library
    implemented by [looplab] and documents read by [yaml.stream]: the
    example of section 8 of the specification, step by step ([greet]),
    the configurations on which the program and the specification part
    ways ([divergence]: a dangling reference, a repeated name,
    conflicting rules, an undeclared start state), a configuration that
    can start over ([loop]), a menu of two events and one with an
    undeclared event on it ([menu]), the topology of [Legacy] with names
    filled in ([chatbot]), and the theorems of the development that have
    hypotheses, applied to these configurations ([witness]), among them
    two sessions in one store and three goroutines on one machine. Each
    is a closed statement proved by evaluation. *)

From stdpp Require Import gmap strings list sorting.
From S2P Require Import Prelude Integers Domain Fsm FsmTable Yaml Config Machine.
From S2P Require Import Loader Logging Runtime WellFormed Integrity Graph.
From S2P Require Import Queries Similar Client Refinement Builder Store.
From S2P Require Import Goroutines.
From S2P Require Import Concrete Legacy.

#[local] Existing Instance looplab.library.
#[local] Existing Instance yaml.stream.parser.

(** ** The example of the specification

    States [Initial] and [Hello], event [Greet], one rule from [Initial]
    to [Hello]. *)
Module greet.

Definition rules : config.EventDescYaml :=
  config.mkEventDescYaml [config.mkFsmEntry "Greet" ["Initial"] "Hello"].

Definition states : config.StateYaml :=
  config.mkStateYaml [state.mk "Initial" "Welcome"; state.mk "Hello" "Hello!"].

Definition events : config.EventYaml :=
  config.mkEventYaml [event.mk "Greet" "Say hello" (go.Int 1 I)].

Definition document : list yaml.Node :=
  [yaml.marshal rules; yaml.marshal states; yaml.marshal events].

Definition machine : FSMWithStatesAndEvents := build rules states events.

Example built : yamlToFSM document = Ok machine.
Proof. repeat split; reflexivity. Qed.

Example starts_in_Initial : Current machine = state.mk "Initial" "Welcome".
Proof. repeat split; reflexivity. Qed.

Example offers_Greet :
  AvailableTransitions machine = [event.mk "Greet" "Say hello" (go.Int 1 I)].
Proof. repeat split; reflexivity. Qed.

Example Greet_accepted :
  (Fire machine "Greet").2 = None
  ∧ Current (Fire machine "Greet").1 = state.mk "Hello" "Hello!".
Proof. repeat split; reflexivity. Qed.

Example Greet_again_rejected :
  Fire (run machine ["Greet"]) "Greet"
  = (run machine ["Greet"],
     Some (fsm.IllegalTransitionError "Hello" "Greet")).
Proof. repeat split; reflexivity. Qed.

Example Hello_is_terminal :
  AvailableTransitions (run machine ["Greet"]) = [].
Proof. repeat split; reflexivity. Qed.

Example has_integrity : referential_integrity rules states events.
Proof. compute_done. Qed.

Example states_of_the_graph :
  graph.reachable_states (eventDescYamlToEventDesc rules) "Initial"
  = {["Initial"; "Hello"]}
  ∧ graph.terminal (eventDescYamlToEventDesc rules) "Hello"
  ∧ ¬ graph.terminal (eventDescYamlToEventDesc rules) "Initial".
Proof. split_and!; [reflexivity|compute_done..]. Qed.

Example is_valid :
  builder.BuildMachine rules states events
  = inr (builder.definition rules states events).
Proof. reflexivity. Qed.

(** The example of section 8 of the specification, from the file to
    the terminal state: the configuration loads; the machine is in
    [Initial] and offers [Greet]; firing [Greet] is accepted and leads to
    [Hello], where nothing is offered; firing [Greet] again is refused
    with the illegal-transition error and the machine stays in [Hello]. *)
Example specification_example :
  yamlToFSM document = Ok machine
  ∧ Current machine = state.mk "Initial" "Welcome"
  ∧ AvailableTransitions machine = [event.mk "Greet" "Say hello" (go.Int 1 I)]
  ∧ run_errors machine ["Greet"; "Greet"]
    = [None; Some (fsm.IllegalTransitionError "Hello" "Greet")]
  ∧ Current (run machine ["Greet"; "Greet"]) = state.mk "Hello" "Hello!"
  ∧ AvailableTransitions (run machine ["Greet"; "Greet"]) = [].
Proof. repeat split; reflexivity. Qed.

End greet.

(** ** Configurations the specification rejects and the program accepts

    Section 4.2 of the specification asks for an error on each of these;
    [yamlToFSM] builds a machine from all of them. *)
Module divergence.

(** A rule names an event that is not declared: the second example of
    section 8 of the specification. *)
Definition dangling_rules : config.EventDescYaml :=
  config.mkEventDescYaml [config.mkFsmEntry "Unknown" ["Initial"] "Hello"].

(** A rule that names an undeclared event is refused by the
    specified builder and accepted by [yamlToFSM]; the event can be
    fired, and [AvailableTransitions] reports it as the zero event. *)
Example dangling_event_accepted :
  builder.BuildMachine dangling_rules greet.states greet.events
  = inl (builder.UnknownReferenceError
           "Unknown" (config.mkFsmEntry "Unknown" ["Initial"] "Hello"))
  ∧ yamlToFSM [yaml.marshal dangling_rules; yaml.marshal greet.states;
               yaml.marshal greet.events]
    = Ok (build dangling_rules greet.states greet.events)
  ∧ AvailableTransitions (build dangling_rules greet.states greet.events)
    = [event.mk "" "" zero]
  ∧ (Fire (build dangling_rules greet.states greet.events) "Unknown").2 = None.
Proof. repeat split; reflexivity. Qed.

(** A rule leads to a state that is not declared. *)
Definition lost_rules : config.EventDescYaml :=
  config.mkEventDescYaml [config.mkFsmEntry "Greet" ["Initial"] "Nowhere"].

Example dangling_state_accepted :
  builder.BuildMachine lost_rules greet.states greet.events
  = inl (builder.UnknownReferenceError
           "Nowhere" (config.mkFsmEntry "Greet" ["Initial"] "Nowhere"))
  ∧ yamlToFSM [yaml.marshal lost_rules; yaml.marshal greet.states;
               yaml.marshal greet.events]
    = Ok (build lost_rules greet.states greet.events)
  ∧ Current (run (build lost_rules greet.states greet.events) ["Greet"])
    = state.mk "" "".
Proof. repeat split; reflexivity. Qed.

(** A state is declared twice. *)
Definition twice : config.StateYaml :=
  config.mkStateYaml [state.mk "Initial" "Welcome"; state.mk "Hello" "Hello!";
                      state.mk "Initial" "Welcome back"].

(** A state declared twice is refused by the specified builder and
    accepted by [yamlToFSM]; the table keeps the later declaration and
    [Current] returns it. *)
Example duplicate_state_accepted :
  builder.BuildMachine greet.rules twice greet.events
  = inl (builder.DuplicateStateError "Initial")
  ∧ yamlToFSM [yaml.marshal greet.rules; yaml.marshal twice;
               yaml.marshal greet.events]
    = Ok (build greet.rules twice greet.events)
  ∧ Current (build greet.rules twice greet.events)
    = state.mk "Initial" "Welcome back"
  ∧ size (States (build greet.rules twice greet.events)) = 2.
Proof. repeat split; reflexivity. Qed.

(** Two rules send one event from one state to two destinations. *)
Definition conflicting : config.EventDescYaml :=
  config.mkEventDescYaml [config.mkFsmEntry "Greet" ["Initial"] "Hello";
                          config.mkFsmEntry "Greet" ["Initial"] "Initial"].

(** Two rules that send one event from one state to two destinations
    are refused by the specified builder and accepted by [yamlToFSM];
    the later rule decides where the event leads. *)
Example conflicting_rules_accepted :
  builder.BuildMachine conflicting greet.states greet.events
  = inl (builder.ConflictingTransitionError "Initial" "Greet")
  ∧ yamlToFSM [yaml.marshal conflicting; yaml.marshal greet.states;
               yaml.marshal greet.events]
    = Ok (build conflicting greet.states greet.events)
  ∧ Current (run (build conflicting greet.states greet.events) ["Greet"])
    = state.mk "Initial" "Welcome".
Proof. repeat split; reflexivity. Qed.

(** No state is named ["Initial"]. *)
Definition no_start : config.StateYaml :=
  config.mkStateYaml [state.mk "Start" "Welcome"; state.mk "Hello" "Hello!"].

Example undeclared_start_accepted :
  yamlToFSM [yaml.marshal greet.rules; yaml.marshal no_start;
             yaml.marshal greet.events]
  = Ok (build greet.rules no_start greet.events)
  ∧ Current (build greet.rules no_start greet.events) = state.mk "" ""
  ∧ ¬ referential_integrity greet.rules no_start greet.events.
Proof. split_and!; [reflexivity|reflexivity|compute_done]. Qed.

(** The order of conflicting rules decides: the same two rules the
    other way round send [Greet] to the other destination. *)
Example conflicting_rules_order :
  current_name (run (build conflicting greet.states greet.events) ["Greet"])
  = "Initial"
  ∧ current_name
      (run (build (config.mkEventDescYaml (reverse (config.Fsm conflicting)))
              greet.states greet.events) ["Greet"])
    = "Hello".
Proof. split; reflexivity. Qed.

(** Which configurations build the same machine is decided on the
    documents: the two rules the other way round build the machine of
    the example, the earlier rule being overridden, and the two rules as
    they stand do not. *)
Example overridden_rule_same_machine :
  similar greet.machine
    (build (config.mkEventDescYaml (reverse (config.Fsm conflicting)))
       greet.states greet.events)
  ∧ ¬ similar greet.machine (build conflicting greet.states greet.events).
Proof. split; apply (bool_decide_unpack _); exact I. Qed.

End divergence.

(** ** A configuration that can start over

    The example of the specification with a second rule, from [Hello]
    back to [Initial], and its states declared in the other order. *)
Module loop.

Definition rules : config.EventDescYaml :=
  config.mkEventDescYaml [config.mkFsmEntry "Greet" ["Initial"] "Hello";
                          config.mkFsmEntry "Reset" ["Hello"] "Initial"].

Definition states : config.StateYaml :=
  config.mkStateYaml (reverse (config.States greet.states)).

Definition events : config.EventYaml :=
  config.mkEventYaml [event.mk "Greet" "Say hello" (go.Int 1 I);
                      event.mk "Reset" "Start over" (go.Int 2 I)].

Definition machine : FSMWithStatesAndEvents := build rules states events.

Example round_and_round :
  run_errors machine ["Greet"; "Reset"; "Greet"; "Greet"]
  = [None; None; None; Some (fsm.IllegalTransitionError "Hello" "Greet")]
  ∧ graph.reachable_states (eventDescYamlToEventDesc rules) "Initial"
    = {["Initial"; "Hello"]}.
Proof. split; reflexivity. Qed.

Example can_start_over :
  graph.recurrent (eventDescYamlToEventDesc rules) "Initial"
  ∧ graph.deadlock_free (eventDescYamlToEventDesc rules) "Initial"
  ∧ ¬ graph.recurrent (eventDescYamlToEventDesc greet.rules) "Initial".
Proof.
  split_and!; apply (bool_decide_unpack _); exact I.
Qed.

End loop.

(** ** A menu of two

    From [Initial] the user can go to a page or ask for help; the event
    declared second has the lower order and is shown first. The second
    set of rules has a third event that no document declares. *)
Module menu.

Definition rules : config.EventDescYaml :=
  config.mkEventDescYaml [config.mkFsmEntry "Page" ["Initial"] "Page";
                          config.mkFsmEntry "Help" ["Initial"; "Page"] "Help"].

Definition states : config.StateYaml :=
  config.mkStateYaml [state.mk "Initial" "Welcome"; state.mk "Page" "A page";
                      state.mk "Help" "How to"].

Definition page : Event := event.mk "Page" "Show the page" (go.Int 20 I).
Definition help : Event := event.mk "Help" "Show help" (go.Int 10 I).

Definition events : config.EventYaml := config.mkEventYaml [page; help].

Definition machine : FSMWithStatesAndEvents := build rules states events.

Example shown_by_order :
  client.present (AvailableTransitions machine) = [help; page]
  ∧ client.present (reverse (AvailableTransitions machine)) = [help; page].
Proof. split; reflexivity. Qed.

(** With equal orders the menu shows the events as the library lists
    them: two walks of the table give two menus. *)
Example equal_orders_unstable :
  let page' := event.mk "Page" "Show the page" (go.Int 10 I) in
  client.present [page'; help] = [page'; help]
  ∧ client.present [help; page'] = [help; page'].
Proof. split; reflexivity. Qed.

Definition undeclared_rules : config.EventDescYaml :=
  config.mkEventDescYaml
    (config.Fsm rules ++ [config.mkFsmEntry "Secret" ["Initial"] "Page"]).

Definition leaky : FSMWithStatesAndEvents :=
  build undeclared_rules states events.

(** The menu of [leaky] has three entries, one of them the zero event;
    the two others are accepted, and the name of the zero event is
    refused. *)
Example zero_on_the_menu :
  length (AvailableTransitions leaky) = 3
  ∧ list_to_set (AvailableTransitions leaky)
    = ({[page; help; zero]} : gset Event)
  ∧ run_errors leaky ["Page"] = [None]
  ∧ run_errors leaky [""] = [Some (fsm.IllegalTransitionError "Initial" "")]
  ∧ run_errors leaky ["Secret"] = [None].
Proof. repeat split; reflexivity. Qed.

End menu.

(** ** The chatbot

    The topology of [Legacy] with names filled in, and a configuration
    that declares its states and events. The values of the names are
    chosen here; [fsm.go] does not give them. *)
Module chatbot.

#[export] Instance names : legacy.Names := {|
  legacy.InitialStateName := "Initial";
  legacy.HelloStateName := "Hello";
  legacy.BlogStateName := "Blog";
  legacy.F1StateName := "F1";
  legacy.GrafanaStateName := "Grafana";
  legacy.HackmdStateName := "Hackmd";
  legacy.PrivatebinStateName := "Privatebin";
  legacy.GetStartedEventName := "GetStarted";
  legacy.HelpEventName := "Help";
  legacy.BackEventName := "Back";
  legacy.ResetEventName := "Reset";
  legacy.ShowBlogIntoEventName := "ShowBlogInfo";
  legacy.ShowF1InfoEventName := "ShowF1Info";
  legacy.ShowGrafanaInfoEventName := "ShowGrafanaInfo";
  legacy.ShowHackmdInfoEventName := "ShowHackmdInfo";
  legacy.ShowPrivatebinEventName := "ShowPrivatebinInfo";
|}.

Definition states : config.StateYaml :=
  config.mkStateYaml ((λ n, state.mk n ("You are at " +:+ n))
                        <$> legacy.state_names).

Definition events : config.EventYaml :=
  config.mkEventYaml ((λ n, event.mk n ("Go: " +:+ n) (go.Int 1 I))
                        <$> legacy.event_names).

Definition document : list yaml.Node :=
  [yaml.marshal legacy.document; yaml.marshal states; yaml.marshal events].

Definition machine : FSMWithStatesAndEvents :=
  build legacy.document states events.

Example names_distinct :
  NoDup legacy.event_names ∧ NoDup legacy.state_names.
Proof. split; compute_done. Qed.

Example chatbot_built : yamlToFSM document = Ok machine.
Proof. reflexivity. Qed.

(** The specified builder accepts the configuration. *)
Example chatbot_is_valid :
  builder.BuildMachine legacy.document states events
  = inr (builder.definition legacy.document states events).
Proof. reflexivity. Qed.

(** A conversation: to the blog page, back, help, and over again. *)
Example conversation :
  run_errors machine ["GetStarted"; "ShowBlogInfo"; "Help"; "Back"; "Help";
                      "Reset"]
  = [None; None; Some (fsm.IllegalTransitionError "Blog" "Help"); None; None;
     None]
  ∧ Current (run machine ["GetStarted"; "ShowBlogInfo"])
    = state.mk "Blog" "You are at Blog"
  ∧ list_to_set
      (event.Name <$> AvailableTransitions (run machine ["GetStarted"]))
    = ({["Help"; "Reset"; "ShowBlogInfo"; "ShowF1Info"; "ShowGrafanaInfo";
         "ShowHackmdInfo"; "ShowPrivatebinInfo"]} : gset string)
  ∧ Current (run machine ["GetStarted"; "ShowBlogInfo"; "Help"; "Back";
                          "Help"; "Reset"])
    = state.mk "Initial" "You are at Initial".
Proof. repeat split; reflexivity. Qed.

(** Every event of this configuration has the same order, so sorting
    by order does not fix the menu of seven that the state [Hello]
    offers. *)
Example menu_not_fixed :
  length (AvailableTransitions (run machine ["GetStarted"])) = 7
  ∧ ¬ NoDup (event.OrderID
              <$> AvailableTransitions (run machine ["GetStarted"])).
Proof. split; [reflexivity | apply (bool_decide_unpack _); exact I]. Qed.

End chatbot.

(** ** The theorems of the development at the example

    Each theorem that has a hypothesis is applied to the example of the
    specification, or to a configuration above, with its hypotheses
    discharged by evaluation. *)
Module witness.
Import greet.
#[local] Existing Instance chatbot.names.

Definition greeted : FSMWithStatesAndEvents := run machine ["Greet"].

(** A file system that holds the configuration file of the example
    under one name. *)
Definition files : gmap string (list yaml.Node) := {["fsm.yaml" := document]}.

Example ChatBotFSM_example :
  ChatBotFSM (ioutil.ReadFile files) "fsm.yaml" = Ok machine
  ∧ ChatBotFSM (ioutil.ReadFile files) "none.yaml"
    = Err (Wrapf (New "open none.yaml: no such file or directory")
                 "failed to read config file none.yaml").
Proof. repeat split; reflexivity. Qed.

(** The log of loading the example, and of a file that ends after its
    first document. *)
Example log_example :
  logged.yamlToFSM document
  = ([glog.Info "Successfully decoded FSM from config file: %+v"
        [glog.any_EventDescYaml rules];
      glog.Info "Successfully decoded states from config file: %+v"
        [glog.any_StateYaml states];
      glog.Info "Successfully decoded events from config file: %+v"
        [glog.any_EventYaml events];
      glog.Info ("AAAAA" +:+ logged.nl +:+ logged.nl +:+ "%+v" +:+ logged.nl
                 +:+ logged.nl)
        [glog.any_EventDescs [fsm.mk "Greet" ["Initial"] "Hello"]]],
     Ok machine)
  ∧ logged.yamlToFSM [yaml.marshal rules]
    = ([glog.Info "Successfully decoded FSM from config file: %+v"
          [glog.any_EventDescYaml rules]],
       Err (Wrapf yaml.EOF "failed to decode states list")).
Proof. split; reflexivity. Qed.

(** The greatest order an event can have, and the least that is
    refused. *)
Example orderID_boundary :
  yamlToFSM [yaml.marshal rules; yaml.marshal states;
             events_document [("Greet", "Say hello", 9223372036854775807%Z)]]
  = Ok (build rules states
          (config.mkEventYaml
             [event.mk "Greet" "Say hello" (go.Int 9223372036854775807 I)]))
  ∧ yamlToFSM [yaml.marshal rules; yaml.marshal states;
               events_document [("Greet", "Say hello", 9223372036854775808%Z)]]
    = Err (Wrapf (yaml.type_error "int") "failed to decode events list").
Proof. split; reflexivity. Qed.

(** The text of the errors of [ChatBotFSM]: for a missing file, and for
    a file that ends after its first document. *)
Example error_text_example :
  error_text <$> error_of (ChatBotFSM (ioutil.ReadFile files) "none.yaml")
  = Some ("failed to read config file none.yaml: "
          +:+ "open none.yaml: no such file or directory")
  ∧ error_text
      <$> error_of
            (ChatBotFSM
               (ioutil.ReadFile {["short.yaml" := [yaml.marshal rules]]})
               "short.yaml")
    = Some ("failed to create FSM from contents of file short.yaml: "
            +:+ "failed to decode states list: EOF").
Proof. split; reflexivity. Qed.

Lemma yamlToFSM_invariant_witness :
  ∃ f0, yamlToFSM document = Ok f0
        ∧ current_name f0 = "Initial"
        ∧ ∀ f, reachable f0 f →
               States f = statesMap_of states ∧ Events f = eventsMap_of events
               ∧ ∀ src event, transition f src event
                   = fsm.delta (eventDescYamlToEventDesc rules) src event.
Proof. apply (yamlToFSM_invariant document). reflexivity. Defined.

Lemma yamlToFSM_Err_witness :
  ∃ c msg, Wrapf yaml.EOF "failed to decode states list" = Wrapf c msg
    ∧ msg ∈ ["failed to decode FSM"; "failed to decode states list";
             "failed to decode events list"].
Proof.
  apply (yamlToFSM_Err [yaml.marshal rules]). reflexivity.
Defined.

(** A rule entry with its keys in another order than the struct
    declares them, and with a key the struct does not have. *)
Lemma unmarshal_FsmEntry_fields_witness :
  yaml.unmarshal (T:=config.FsmEntry)
    (yaml.Mapping [("destState", yaml.Scalar "Hello"); ("comment", yaml.Null);
                   ("srcState", yaml.marshal ["Initial"]);
                   ("name", yaml.Scalar "Greet")])
  = Ok (config.mkFsmEntry "Greet" ["Initial"] "Hello").
Proof.
  etrans;
    [apply (config.unmarshal_FsmEntry_fields
              [("name", yaml.Scalar "Greet");
               ("destState", yaml.Scalar "Hello"); ("comment", yaml.Null);
               ("srcState", yaml.marshal ["Initial"])]);
     [compute_done|]
    |reflexivity].
  symmetry.
  exact (Permutation_cons_append
           [("destState", yaml.Scalar "Hello"); ("comment", yaml.Null);
            ("srcState", yaml.marshal ["Initial"])]
           ("name", yaml.Scalar "Greet")).
Defined.

(** Rule entries that lack a key, or misspell one: no error, and a rule
    that never applies or that is named by the empty string. *)
Example rule_entry_keys :
  yaml.unmarshal (T:=config.FsmEntry)
    (yaml.Mapping [("name", yaml.Scalar "Greet");
                   ("destState", yaml.Scalar "Hello")])
  = Ok (config.mkFsmEntry "Greet" [] "Hello")
  ∧ yaml.unmarshal (T:=config.FsmEntry)
      (yaml.Mapping [("name", yaml.Scalar "Greet");
                     ("src", yaml.marshal ["Initial"]);
                     ("destState", yaml.Scalar "Hello")])
    = Ok (config.mkFsmEntry "Greet" [] "Hello")
  ∧ yaml.unmarshal (T:=config.FsmEntry)
      (yaml.Mapping [("srcState", yaml.marshal ["Initial"]);
                     ("destState", yaml.Scalar "Hello")])
    = Ok (config.mkFsmEntry "" ["Initial"] "Hello")
  ∧ yaml.unmarshal (T:=config.FsmEntry)
      (yaml.Mapping [("name", yaml.Scalar "Greet");
                     ("name", yaml.Scalar "Hello")])
    = Err (yaml.already_defined "name").
Proof. split_and!; reflexivity. Qed.

Lemma unmarshal_section_missing_witness :
  ("fsm" ∉ ["states"] →
   yaml.unmarshal (T:=config.EventDescYaml)
     (yaml.Mapping [("states", yaml.Null)]) = Ok (config.mkEventDescYaml []))
  ∧ ("states" ∉ ["states"] →
     yaml.unmarshal (T:=config.StateYaml)
       (yaml.Mapping [("states", yaml.Null)]) = Ok (config.mkStateYaml []))
  ∧ ("events" ∉ ["states"] →
     yaml.unmarshal (T:=config.EventYaml)
       (yaml.Mapping [("states", yaml.Null)]) = Ok (config.mkEventYaml [])).
Proof.
  apply (config.unmarshal_section_missing [("states", yaml.Null)]).
  compute_done.
Defined.

Lemma build_refines_BuildMachine_witness :
  refines machine
    (spec.NewInstance (builder.definition rules states events)).
Proof. apply build_refines_BuildMachine. reflexivity. Defined.

Lemma build_transition_valid_witness :
  transition machine "Initial" "Greet" = Some "Hello".
Proof.
  apply (build_transition_valid rules states events
           (builder.definition rules states events)
           (config.mkFsmEntry "Greet" ["Initial"] "Hello"));
    [reflexivity | compute_done | reflexivity | compute_done].
Defined.

Lemma AvailableTransitions_terminal_witness :
  AvailableTransitions greeted = []
  ↔ graph.terminal (eventDescYamlToEventDesc rules) (current_name greeted).
Proof.
  apply (AvailableTransitions_terminal rules states events), reachable_run.
Defined.

Lemma Fire_reachable_witness :
  match last (filter (λ r, config.Name r = "Greet"
                           ∧ current_name greeted ∈ config.SrcState r)
                     (config.Fsm rules)) with
  | Some r =>
      (Fire greeted "Greet").2 = None
      ∧ current_name (Fire greeted "Greet").1 = config.DestState r
      ∧ (referential_integrity rules states events →
         declared_event events "Greet"
         ∧ declared_state states (config.DestState r))
  | None =>
      Fire greeted "Greet"
      = (greeted,
         Some (fsm.IllegalTransitionError (current_name greeted) "Greet"))
  end.
Proof. apply (Fire_reachable rules states events), reachable_run. Defined.

Lemma Current_after_Fire_witness :
  Current (Fire machine "Greet").1 ∈ config.States states
  ∧ ∃ r, r ∈ config.Fsm rules ∧ config.Name r = "Greet"
         ∧ current_name machine ∈ config.SrcState r
         ∧ state.Name (Current (Fire machine "Greet").1) = config.DestState r.
Proof.
  apply (Current_after_Fire rules states events);
    [compute_done | apply reachable_start | reflexivity].
Defined.

Lemma Current_reachable_witness :
  Current greeted ∈ config.States states
  ∧ state.Name (Current greeted) = current_name greeted.
Proof.
  apply (Current_reachable rules states events);
    [compute_done | apply reachable_run].
Defined.

Lemma AvailableTransitions_consistent_witness :
  "Greet" ∈ event.Name <$> AvailableTransitions machine
  ↔ (Fire machine "Greet").2 = None.
Proof.
  apply (AvailableTransitions_consistent rules states events);
    [compute_done | apply reachable_start].
Defined.

Lemma AvailableTransitions_declared_witness :
  NoDup (AvailableTransitions machine)
  ∧ ∀ ev, ev ∈ AvailableTransitions machine → ev ∈ config.Events events.
Proof.
  apply (AvailableTransitions_declared rules states events);
    [compute_done | apply reachable_start].
Defined.

Lemma Fire_rejected_unchanged_witness :
  (Fire greeted "Greet").1 = greeted
  ∧ Current (Fire greeted "Greet").1 = Current greeted
  ∧ AvailableTransitions (Fire greeted "Greet").1
    = AvailableTransitions greeted.
Proof.
  apply (Fire_rejected_unchanged greeted "Greet"
           (fsm.IllegalTransitionError "Hello" "Greet")).
  reflexivity.
Defined.

Lemma Current_undeclared_start_witness :
  Current (build rules divergence.no_start events) = state.mk "" "".
Proof. apply Current_undeclared_start. compute_done. Defined.

Lemma AvailableTransitions_undeclared_witness :
  event.mk "" "" zero
  ∈ AvailableTransitions (build divergence.dangling_rules states events).
Proof.
  apply (AvailableTransitions_undeclared divergence.dangling_rules states
           events _ "Unknown");
    [apply reachable_start | exact (list_elem_of_here "Unknown" [])
    | compute_done].
Defined.

Lemma refines_Current_witness :
  Current machine
  = default zero
      (spec.current (spec.NewInstance (definition_of rules states events))).
Proof. apply refines_Current, refines_build. Defined.

Lemma reachable_refines_witness :
  ∃ m, refines greeted m
       ∧ spec.definition m
         = spec.definition
             (spec.NewInstance (definition_of rules states events)).
Proof.
  apply (reachable_refines machine); [apply refines_build | apply reachable_run].
Defined.

Lemma AvailableTransitions_bounded_witness :
  (length (AvailableTransitions greeted)
   ≤ length (filter (λ r, current_name greeted ∈ config.SrcState r)
               (config.Fsm rules))
   ≤ length (config.Fsm rules))%nat.
Proof.
  apply (AvailableTransitions_bounded rules states events), reachable_run.
Defined.

Lemma yamlToFSM_well_formed_witness : well_formed greeted.
Proof.
  apply (yamlToFSM_well_formed document machine);
    [reflexivity | apply reachable_run].
Defined.

Lemma queries_name_or_zero_witness :
  (Current (build divergence.lost_rules states events) = zero
   ∨ state.Name (Current (build divergence.lost_rules states events))
     = current_name (build divergence.lost_rules states events))
  ∧ Forall2 (λ ev t, ev = zero ∨ event.Name ev = t)
      (AvailableTransitions (build divergence.lost_rules states events))
      (fsm.AvailableTransitions
         (FSM (build divergence.lost_rules states events))).
Proof. apply queries_name_or_zero, build_well_formed. Defined.

Lemma recurrent_returns_witness :
  ∃ evs, (length evs ≤ length (config.Fsm loop.rules))%nat
         ∧ Forall (λ err, err = None)
             (run_errors (run loop.machine ["Greet"]) evs)
         ∧ current_name (run (run loop.machine ["Greet"]) evs) = "Initial".
Proof.
  apply (recurrent_returns loop.rules loop.states loop.events);
    [apply (bool_decide_unpack _); exact I | apply reachable_run].
Defined.

Lemma similar_observations_witness :
  run_errors machine ["Greet"; "Greet"]
  = run_errors (build rules loop.states events) ["Greet"; "Greet"]
  ∧ Current (run machine ["Greet"; "Greet"])
    = Current (run (build rules loop.states events) ["Greet"; "Greet"])
  ∧ AvailableTransitions (run machine ["Greet"; "Greet"])
    ≡ₚ AvailableTransitions
         (run (build rules loop.states events) ["Greet"; "Greet"]).
Proof. apply similar_observations. repeat split; reflexivity. Defined.

Lemma build_order_irrelevant_witness :
  similar (build rules states events) (build rules loop.states events).
Proof.
  apply build_order_irrelevant;
    [ compute_done | apply fsm.conflict_free_NoDup; compute_done | done
    | apply perm_swap | done ].
Defined.

Lemma menu_driven_accepted_witness :
  (client.menu_driven menu.machine ["Help"; "Page"]
   ↔ Forall (λ err, err = None) (run_errors menu.machine ["Help"; "Page"]))
  ∧ client.menu_driven menu.machine
      (client.accepted menu.machine ["Help"; "Page"])
  ∧ run menu.machine (client.accepted menu.machine ["Help"; "Page"])
    = run menu.machine ["Help"; "Page"].
Proof.
  apply (client.menu_driven_accepted menu.rules menu.states menu.events);
    [compute_done | apply reachable_start].
Defined.

Lemma present_stable_witness :
  (NoDup (event.OrderID <$> AvailableTransitions menu.machine)
   ↔ ∀ menu l, client.offers menu.machine menu → l ≡ₚ menu →
               Sorted client.by_OrderID l →
               l = client.present (AvailableTransitions menu.machine))
  ∧ (NoDup (event.OrderID <$> config.Events menu.events) →
     NoDup (event.OrderID <$> AvailableTransitions menu.machine))
  ∧ ∀ menu n, client.offers menu.machine menu →
              n ∈ event.Name <$> client.present menu
              ↔ (Fire menu.machine n).2 = None.
Proof.
  apply (client.present_stable menu.rules menu.states menu.events);
    [compute_done | apply reachable_start].
Defined.

Lemma named_offer_accepted_witness :
  (Fire menu.leaky (event.Name menu.page)).2 = None.
Proof.
  apply (client.named_offer_accepted
           [yaml.marshal menu.undeclared_rules; yaml.marshal menu.states;
            yaml.marshal menu.events]
           menu.leaky menu.leaky (AvailableTransitions menu.leaky));
    [ reflexivity | apply reachable_start
    | apply client.offers_AvailableTransitions | | done ].
  apply elem_of_AvailableTransitions. exists "Page".
  split; [by eexists | reflexivity].
Defined.

(** The chatbot at its blog page. *)
Definition at_blog : FSMWithStatesAndEvents :=
  run chatbot.machine ["GetStarted"; "ShowBlogInfo"].


Lemma legacy_live_witness :
  current_name at_blog ∈ legacy.state_names
  ∧ AvailableTransitions at_blog ≠ []
  ∧ ∃ evs, (length evs ≤ 2)%nat
           ∧ Forall (λ err, err = None) (run_errors at_blog evs)
           ∧ current_name (run at_blog evs) = "Initial".
Proof.
  refine (legacy.legacy_live _ _ chatbot.states chatbot.events at_blog _);
    [compute_done | reflexivity | apply reachable_run].
Defined.

(** Two sessions loaded from the same document, in one store. *)
Definition first : store.Object * store.Store :=
  store.build rules states events ∅.
Definition second : store.Object * store.Store :=
  store.build rules states events first.2.

Example sessions_are_apart :
  store.Current first.1 (store.run first.1 ["Greet"] second.2)
  = Some (state.mk "Hello" "Hello!")
  ∧ store.Current second.1 (store.run first.1 ["Greet"] second.2)
    = Some (state.mk "Initial" "Welcome").
Proof. split; reflexivity. Qed.

(** An offer can be stale: a client is offered [Greet], another client
    fires it through a copy of the struct, and the first client's
    [Greet] is refused. *)
Example stale_offer :
  store.AvailableTransitions first.1 first.2
  = Some [event.mk "Greet" "Say hello" (go.Int 1 I)]
  ∧ fst <$> store.Fire first.1 "Greet" (store.run first.1 ["Greet"] first.2)
    = Some (Some (fsm.IllegalTransitionError "Hello" "Greet")).
Proof. split; reflexivity. Qed.

(** The calls of the two sessions, interleaved. *)
Definition calls : list (store.Object * string) :=
  [(first.1, "Greet"); (second.1, "Nothing"); (first.1, "Greet")].

Lemma schedule_session_witness :
  store.view second.1 (store.exec calls second.2)
  = Some (run machine (store.events_at (store.FSM second.1) calls))
  ∧ store.Current second.1 (store.exec calls second.2)
    = Some (Current
              (run machine (store.events_at (store.FSM second.1) calls)))
  ∧ store.AvailableTransitions second.1 (store.exec calls second.2)
    = Some (AvailableTransitions
              (run machine (store.events_at (store.FSM second.1) calls))).
Proof. apply schedule_session. reflexivity. Defined.

(** The first session fires [Greet] twice and is refused the second
    time; the second fires an event that is not on its menu and is
    refused, whatever the first does. *)
Example sessions_interleaved :
  store.errors_at (store.FSM first.1) calls second.2
  = [None; Some (fsm.IllegalTransitionError "Hello" "Greet")]
  ∧ store.errors_at (store.FSM second.1) calls second.2
    = [Some (fsm.IllegalTransitionError "Initial" "Nothing")].
Proof. split; reflexivity. Qed.

Lemma session_never_refused_witness :
  client.menu_driven machine (store.events_at (store.FSM second.1) calls)
  ↔ Forall (λ err, err = None)
      (store.errors_at (store.FSM second.1) calls second.2).
Proof.
  apply (client.session_never_refused rules states events);
    [compute_done | apply store.view_build | apply reachable_start].
Defined.

Lemma run_frame_witness :
  store.Current second.1 (store.run first.1 ["Greet"] second.2)
  = store.Current second.1 second.2
  ∧ store.AvailableTransitions second.1
      (store.run first.1 ["Greet"] second.2)
    = store.AvailableTransitions second.1 second.2.
Proof. apply run_frame; compute_done. Defined.

Lemma run_alias_witness :
  store.Current first.1 (store.run first.1 ["Greet"] first.2)
  = Some (Current (run machine ["Greet"])).
Proof.
  apply run_alias; [|reflexivity..].
  unfold first. apply store.view_build.
Defined.

(** Three goroutines share the struct of the first session: one asks
    for the menu, two fire [Greet]. *)
Definition shared : list goroutine.Call :=
  [goroutine.CallAvailableTransitions first.1;
   goroutine.CallEvent first.1 "Greet";
   goroutine.CallEvent first.1 "Greet"].

(** The menu is overtaken inside the loop: the first goroutine reads the
    machine, the second fires [Greet] before the first has ranged over
    what it read, and the first returns the menu of a state the machine
    has left; the third, firing what that menu holds, is refused. *)
Example menu_overtaken :
  (goroutine.exec [0; 1; 0; 0; 2] (goroutine.spawn shared first.2)).1
  = [goroutine.Returned
       (goroutine.RetEvents [event.mk "Greet" "Say hello" (go.Int 1 I)]);
     goroutine.Returned (goroutine.RetError None);
     goroutine.Returned
       (goroutine.RetError
          (Some (fsm.IllegalTransitionError "Hello" "Greet")))]
  ∧ goroutine.refusals (store.FSM first.1) shared
      (goroutine.exec [0; 1; 0; 0; 2] (goroutine.spawn shared first.2)).1
    = [fsm.IllegalTransitionError "Hello" "Greet"].
Proof. split; reflexivity. Qed.

Lemma call_linearizable_witness :
  ∃ before after,
    [0; 1; 0; 0; 2] = before ++ 0 :: after ∧ (0 ∉ before)
    ∧ goroutine.RetEvents [event.mk "Greet" "Say hello" (go.Int 1 I)]
      = (goroutine.call (goroutine.CallAvailableTransitions first.1)
           (goroutine.exec before (goroutine.spawn shared first.2)).2).1
    ∧ (goroutine.exec (before ++ [0]) (goroutine.spawn shared first.2)).2
      = (goroutine.call (goroutine.CallAvailableTransitions first.1)
           (goroutine.exec before (goroutine.spawn shared first.2)).2).2.
Proof. apply call_linearizable; reflexivity. Defined.

Lemma call_returns_witness :
  ((goroutine.exec ([1] ++ 0 :: [0; 2; 0]) (goroutine.spawn shared first.2)).1
     !! 0
   = Some (goroutine.Returned (goroutine.RetEvents []))
   ↔ goroutine.RetEvents []
     = (goroutine.call (goroutine.CallAvailableTransitions first.1)
          (goroutine.exec [1] (goroutine.spawn shared first.2)).2).1
     ∧ (goroutine.statements (goroutine.CallAvailableTransitions first.1)
          (goroutine.exec [1] (goroutine.spawn shared first.2)).2
        ≤ S (goroutine.turns 0 [0; 2; 0]))%nat)
  ∧ goroutine.statements (goroutine.CallAvailableTransitions first.1)
      (goroutine.exec [1] (goroutine.spawn shared first.2)).2
    = match (goroutine.call (goroutine.CallAvailableTransitions first.1)
               (goroutine.exec [1] (goroutine.spawn shared first.2)).2).1 with
      | goroutine.RetEvents res => 2 + length res
      | _ => 1
      end.
Proof. apply call_returns; [reflexivity | compute_done]. Defined.

Lemma goroutines_never_panic_witness :
  Forall2 goroutine.frame_of shared
    (goroutine.exec [0; 1; 0; 0; 2] (goroutine.spawn shared first.2)).1
  ∧ dom (goroutine.exec [0; 1; 0; 0; 2] (goroutine.spawn shared first.2)).2
    = dom first.2.
Proof.
  apply goroutines_never_panic; [|apply goroutine.steps_exec; by eexists].
  repeat constructor; apply store.allocated_view; unfold first;
    rewrite store.view_build; by eexists.
Defined.

(** A goroutine that asks for the menu and one that fires what is on
    it: whatever the schedule does with the statements of the first,
    the second is not refused. *)
Lemma goroutines_never_refused_witness :
  client.menu_driven machine
    (store.events_at (store.FSM first.1)
       (goroutine.fired
          (goroutine.linearization (goroutine.Called <$> take 2 shared)
             [0; 1; 0; 0])))
  ∧ goroutine.refusals (store.FSM first.1) (take 2 shared)
      (goroutine.exec [0; 1; 0; 0] (goroutine.spawn (take 2 shared) first.2)).1
    = [].
Proof.
  apply (goroutines_never_refused rules states events first.1 first.2 machine);
    [compute_done | apply store.view_build | apply reachable_start |].
  apply (bool_decide_unpack _). exact I.
Defined.

(** With the three goroutines the second [Greet] comes without a menu,
    and the discipline is broken. *)
Example menu_spent :
  ¬ goroutine.follows_menu first.1 []
      (goroutine.linearization (goroutine.Called <$> shared) [0; 1; 0; 0; 2])
      (goroutine.history
         (goroutine.exec [0; 1; 0; 0; 2] (goroutine.spawn shared first.2)).1
         (goroutine.first_steps [0; 1; 0; 0; 2])).
Proof. apply (bool_decide_unpack _). exact I. Qed.

End witness.
